(** * Decoder model of examples/directml/llm (decoder_model.py)

    A shallow embedding of the transformer forward pass and of the model
    constructors.  The Python source is written against the torch tensor
    API; the embedding keeps that structure:

    - [Scalar] is the arithmetic of tensor elements (idealised: the
      theorems that need algebraic laws are stated over the reals);
    - [tensor] is a shape together with row-major data, as a contiguous
      torch tensor;
    - [Torch] is the part of the torch API the source uses, with a value
      interpretation ([PureTorch]) and a reference interpretation over a
      store of tensor storages ([StoreTorch]) in which in-place updates
      and views are visible. *)

From Stdlib Require Import String List Arith ZArith Lia Bool Reals Lra.
Import ListNotations.

Set Implicit Arguments.
Set Default Proof Using "Type".

(** ** Python exceptions and the error monad *)

Inductive exn : Type :=
| KeyError
| ValueError
| ZeroDivisionError
| IndexError
| RuntimeError
| AttributeError.

Inductive result (A : Type) : Type :=
| Ok (a : A)
| Raise (e : exn).

Arguments Ok {A} a.
Arguments Raise {A} e.

Definition rbind {A B} (m : result A) (k : A -> result B) : result B :=
  match m with
  | Ok a => k a
  | Raise e => Raise e
  end.

Definition is_ok {A} (m : result A) : bool :=
  match m with Ok _ => true | Raise _ => false end.

(** ** Element arithmetic *)

Class Scalar (F : Type) : Type := {
  fzero : F;
  fone : F;
  fadd : F -> F -> F;
  fsub : F -> F -> F;
  fmul : F -> F -> F;
  fdiv : F -> F -> F;
  fneg : F -> F;
  fexp : F -> F;
  fsqrt : F -> F;
  fcos : F -> F;
  fsin : F -> F;
  fpow : F -> F -> F;
  of_Z : Z -> F;
  nonzero : F -> bool
}.

(** ** Tensors: a shape and row-major data *)

Record tensor (A : Type) : Type := mkT {
  shape : list nat;
  data : list A
}.

Arguments mkT {A} shape data.

Definition numel (s : list nat) : nat := fold_right Nat.mul 1 s.

Definition wf {A} (t : tensor A) : Prop :=
  length (data t) = numel (shape t).

Fixpoint ravel (s idx : list nat) : nat :=
  match s, idx with
  | n :: s', i :: idx' => i * numel s' + ravel s' idx'
  | _, _ => 0
  end.

Fixpoint indices (s : list nat) : list (list nat) :=
  match s with
  | [] => [[]]
  | n :: s' => flat_map (fun i => map (cons i) (indices s')) (seq 0 n)
  end.

Fixpoint valid_idx (s idx : list nat) : Prop :=
  match s, idx with
  | [], [] => True
  | n :: s', i :: idx' => i < n /\ valid_idx s' idx'
  | _, _ => False
  end.

Definition get {A} (d : A) (t : tensor A) (idx : list nat) : A :=
  nth (ravel (shape t) idx) (data t) d.

Definition tabulate {A} (s : list nat) (f : list nat -> A) : tensor A :=
  mkT s (map f (indices s)).

Definition tmap {A B} (f : A -> B) (t : tensor A) : tensor B :=
  mkT (shape t) (map f (data t)).

Definition dim (s : list nat) (k : nat) : nat := nth k s 1.

Definition rank {A} (t : tensor A) : nat := length (shape t).


(** ** Index and shape helpers *)

Fixpoint set_nth {A} (k : nat) (x : A) (l : list A) : list A :=
  match l, k with
  | [], _ => []
  | _ :: l', 0 => x :: l'
  | y :: l', S k' => y :: set_nth k' x l'
  end.

Fixpoint insert_at {A} (k : nat) (x : A) (l : list A) : list A :=
  match k, l with
  | 0, _ => x :: l
  | S k', y :: l' => y :: insert_at k' x l'
  | S _, [] => [x]
  end.

(** A dimension argument as Python writes it: negative counts from the end. *)
Definition norm_dim (r : nat) (d : Z) : result nat :=
  if (0 <=? d)%Z && (d <? Z.of_nat r)%Z then Ok (Z.to_nat d)
  else if (d <? 0)%Z && (- Z.of_nat r <=? d)%Z then Ok (Z.to_nat (Z.of_nat r + d))
  else Raise IndexError.

(** Bounds of a Python slice [start:stop] on an axis of length [n]
    ([None] for an omitted bound); out-of-range bounds are clamped. *)
Definition clamp_bound (n : nat) (b : Z) : nat :=
  if (b <? 0)%Z then Z.to_nat (Z.max 0 (Z.of_nat n + b))
  else Nat.min (Z.to_nat b) n.

Definition py_slice (n : nat) (start stop : option Z) : nat * nat :=
  let lo := match start with None => 0 | Some b => clamp_bound n b end in
  let hi := match stop with None => n | Some b => clamp_bound n b end in
  (lo, Nat.max lo hi).

(** Broadcasting of two shapes, aligned at the last axis. *)
Fixpoint broadcast_rev (a b : list nat) : option (list nat) :=
  match a, b with
  | [], _ => Some b
  | _, [] => Some a
  | x :: a', y :: b' =>
      match broadcast_rev a' b' with
      | None => None
      | Some r =>
          if x =? y then Some (x :: r)
          else if x =? 1 then Some (y :: r)
          else if y =? 1 then Some (x :: r)
          else None
      end
  end.

Definition broadcast_shapes (a b : list nat) : option (list nat) :=
  option_map (@rev nat) (broadcast_rev (rev a) (rev b)).

(** Index into an operand of shape [s] for the index [idx] of the
    broadcast result: leading axes are dropped, axes of size 1 read 0. *)
Definition bidx (s idx : list nat) : list nat :=
  map (fun p => if fst p =? 1 then 0 else snd p)
      (combine s (skipn (length idx - length s) idx)).

Definition index_of (j : nat) (p : list nat) : nat :=
  (fix go (p : list nat) (k : nat) : nat :=
     match p with
     | [] => k
     | x :: p' => if x =? j then k else go p' (S k)
     end) p 0.

Definition is_perm (r : nat) (p : list nat) : bool :=
  (length p =? r) && forallb (fun j => existsb (Nat.eqb j) p) (seq 0 r).

Definition list_eqb (a b : list nat) : bool :=
  if list_eq_dec Nat.eq_dec a b then true else false.

(** ** Tensor operations on values

    One definition per torch operation the source calls; each fails the
    way torch does when the shapes do not fit. *)

Section ValueOps.
Context {A : Type} (d0 : A).

Definition v_reshape (t : tensor A) (s' : list nat) : result (tensor A) :=
  if numel s' =? numel (shape t) then Ok (mkT s' (data t))
  else Raise RuntimeError.

Definition v_permute (t : tensor A) (p : list nat) : result (tensor A) :=
  if is_perm (rank t) p then
    Ok (tabulate (map (dim (shape t)) p)
          (fun idx => get d0 t (map (fun j => nth (index_of j p) idx 0)
                                    (seq 0 (rank t)))))
  else Raise RuntimeError.

Definition v_transpose (t : tensor A) (d1 d2 : nat) : result (tensor A) :=
  if (d1 <? rank t) && (d2 <? rank t) then
    v_permute t (set_nth d1 d2 (set_nth d2 d1 (seq 0 (rank t))))
  else Raise IndexError.

(** [t.unsqueeze(k)], also written [t[..., None, ...]]. *)
Definition v_unsqueeze (t : tensor A) (k : nat) : result (tensor A) :=
  if k <=? rank t then Ok (mkT (insert_at k 1 (shape t)) (data t))
  else Raise IndexError.

Definition v_broadcast_to (t : tensor A) (s : list nat) : tensor A :=
  tabulate s (fun idx => get d0 t (bidx (shape t) idx)).

(** Target shape of [t.expand(sizes)]; [-1] keeps an axis. *)
Fixpoint expand_rev (s : list nat) (sizes : list Z) : result (list nat) :=
  match s, sizes with
  | [], [] => Ok []
  | [], z :: sizes' =>
      if (z <? 0)%Z then Raise RuntimeError
      else rbind (expand_rev [] sizes') (fun r => Ok (Z.to_nat z :: r))
  | _ :: _, [] => Raise RuntimeError
  | n :: s', z :: sizes' =>
      rbind (expand_rev s' sizes') (fun r =>
        if (z =? -1)%Z then Ok (n :: r)
        else if (z <? 0)%Z then Raise RuntimeError
        else if Z.to_nat z =? n then Ok (n :: r)
        else if n =? 1 then Ok (Z.to_nat z :: r)
        else Raise RuntimeError)
  end.

Definition v_expand (t : tensor A) (sizes : list Z) : result (tensor A) :=
  rbind (expand_rev (rev (shape t)) (rev sizes)) (fun r =>
    Ok (v_broadcast_to t (rev r))).

(** [t[..., lo:hi, ...]] on axis [k], bounds already clamped. *)
Definition v_slice (t : tensor A) (k lo hi : nat) : result (tensor A) :=
  if k <? rank t then
    Ok (tabulate (set_nth k (hi - lo) (shape t))
          (fun idx => get d0 t (set_nth k (nth k idx 0 + lo) idx)))
  else Raise IndexError.

(** [torch.cat((a, b), dim)].  A 1-D tensor without elements is skipped
    (torch keeps this rule for old checkpoints). *)
Definition v_cat (a b : tensor A) (dz : Z) : result (tensor A) :=
  if list_eqb (shape a) [0] then
    if list_eqb (shape b) [0] then Ok a
    else rbind (norm_dim (rank b) dz) (fun _ => Ok b)
  else if list_eqb (shape b) [0] then
    rbind (norm_dim (rank a) dz) (fun _ => Ok a)
  else
    rbind (norm_dim (rank a) dz) (fun k =>
      if list_eqb (set_nth k 0 (shape a)) (set_nth k 0 (shape b)) then
        let da := dim (shape a) k in
        Ok (tabulate (set_nth k (da + dim (shape b) k) (shape a))
              (fun idx =>
                 if nth k idx 0 <? da then get d0 a idx
                 else get d0 b (set_nth k (nth k idx 0 - da) idx)))
      else Raise RuntimeError).

Definition v_binop (f : A -> A -> A) (a b : tensor A) : result (tensor A) :=
  match broadcast_shapes (shape a) (shape b) with
  | Some s =>
      Ok (tabulate s (fun idx => f (get d0 a (bidx (shape a) idx))
                                   (get d0 b (bidx (shape b) idx))))
  | None => Raise RuntimeError
  end.

(** [a.masked_fill(mask, v)]: the mask broadcasts to the shape of [a]. *)
Definition v_masked_fill (a : tensor A) (m : tensor bool) (v : A) : result (tensor A) :=
  match broadcast_shapes (shape a) (shape m) with
  | Some s =>
      if list_eqb s (shape a) then
        Ok (tabulate s (fun idx =>
              if get false m (bidx (shape m) idx) then v else get d0 a idx))
      else Raise RuntimeError
  | None => Raise RuntimeError
  end.

(** [table[ids]] for a 2-D table and an integer tensor of row numbers;
    a negative row number counts from the end. *)
Definition row_of (n : nat) (z : Z) : option nat :=
  if (0 <=? z)%Z && (z <? Z.of_nat n)%Z then Some (Z.to_nat z)
  else if (z <? 0)%Z && (- Z.of_nat n <=? z)%Z then Some (Z.to_nat (Z.of_nat n + z))
  else None.

Definition v_index_rows (table : tensor A) (ids : tensor Z) : result (tensor A) :=
  match shape table with
  | n :: rest =>
      if forallb (fun z => match row_of n z with Some _ => true | None => false end)
                 (data ids)
      then
        Ok (tabulate (shape ids ++ rest) (fun idx =>
              let r := length (shape ids) in
              match row_of n (get 0%Z ids (firstn r idx)) with
              | Some row => get d0 table (row :: skipn r idx)
              | None => d0
              end))
      else Raise IndexError
  | [] => Raise IndexError
  end.

(** [torch.nn.Embedding]: row numbers must lie in [0, vocab). *)
Definition v_embedding (weight : tensor A) (ids : tensor Z) : result (tensor A) :=
  match shape weight with
  | [n; h] =>
      if forallb (fun z => (0 <=? z)%Z && (z <? Z.of_nat n)%Z) (data ids) then
        Ok (tabulate (shape ids ++ [h]) (fun idx =>
              let r := length (shape ids) in
              get d0 weight (Z.to_nat (get 0%Z ids (firstn r idx)) :: skipn r idx)))
      else Raise IndexError
  | _ => Raise RuntimeError
  end.
End ValueOps.

(** ** Operations on tensors of numbers *)

Section FloatOps.
Context {F : Type} {SF : Scalar F}.

Definition fsum (l : list F) : F := fold_right fadd fzero l.

(** Literals of the source. *)
Definition f_minus_10000 : F := fneg (of_Z 10000).   (* -10000.0 *)
Definition f_1e_5 : F := fdiv fone (of_Z 100000).    (* 1e-5 *)
Definition f_theta : F := of_Z 10000.                (* theta = 10000.0 *)

Definition fsigmoid (x : F) : F := fdiv fone (fadd fone (fexp (fneg x))).
Definition frsqrt (x : F) : F := fdiv fone (fsqrt x).

(** [torch.nn.Linear] without bias: [x @ W^T] with [W] of shape (out, in). *)
Definition v_linear (x w : tensor F) : result (tensor F) :=
  match shape w, rev (shape x) with
  | [o; i], k :: lead =>
      if k =? i then
        Ok (tabulate (rev lead ++ [o]) (fun idx =>
              let pre := removelast idx in
              let c := last idx 0 in
              fsum (map (fun j => fmul (get fzero x (pre ++ [j]))
                                       (get fzero w [c; j]))
                        (seq 0 i))))
      else Raise RuntimeError
  | _, _ => Raise RuntimeError
  end.

(** [torch.matmul] on operands of rank at least 2; the leading (batch)
    axes broadcast.  The source only multiplies 4-D tensors. *)
Definition v_matmul (a b : tensor F) : result (tensor F) :=
  match rev (shape a), rev (shape b) with
  | k :: m :: la, n :: k' :: lb =>
      if k =? k' then
        match broadcast_shapes (rev la) (rev lb) with
        | Some lead =>
            Ok (tabulate (lead ++ [m; n]) (fun idx =>
                  let r := length lead in
                  let li := firstn r idx in
                  let i := nth r idx 0 in
                  let j := nth (S r) idx 0 in
                  fsum (map (fun x =>
                               fmul (get fzero a (bidx (rev la) li ++ [i; x]))
                                    (get fzero b (bidx (rev lb) li ++ [x; j])))
                            (seq 0 k))))
        | None => Raise RuntimeError
        end
      else Raise RuntimeError
  | _, _ => Raise RuntimeError
  end.

(** [t.mean(-1, keepdim=True)] *)
Definition v_mean_last (t : tensor F) : result (tensor F) :=
  match rev (shape t) with
  | n :: lead =>
      Ok (tabulate (rev lead ++ [1]) (fun idx =>
            let pre := removelast idx in
            fdiv (fsum (map (fun j => get fzero t (pre ++ [j])) (seq 0 n)))
                 (of_Z (Z.of_nat n))))
  | [] => Raise IndexError
  end.

(** [torch.nn.functional.softmax(t, dim=-1)] *)
Definition v_softmax_last (t : tensor F) : result (tensor F) :=
  match rev (shape t) with
  | n :: lead =>
      Ok (tabulate (shape t) (fun idx =>
            let pre := removelast idx in
            fdiv (fexp (get fzero t idx))
                 (fsum (map (fun j => fexp (get fzero t (pre ++ [j])))
                            (seq 0 n)))))
  | [] => Raise IndexError
  end.

Definition v_ones (s : list nat) : tensor F := tabulate s (fun _ => fone).
Definition v_zeros (s : list nat) : tensor F := tabulate s (fun _ => fzero).

(** [torch.tril]: keeps the entries on and below the diagonal of the
    last two axes. *)
Definition v_tril (t : tensor F) : result (tensor F) :=
  if 2 <=? rank t then
    Ok (tabulate (shape t) (fun idx =>
          let r := rank t in
          if nth (r - 1) idx 0 <=? nth (r - 2) idx 0 then get fzero t idx
          else fzero))
  else Raise RuntimeError.

(** [torch.arange(0, stop, step=2)] for a stop that is the quotient
    [num / den] of two integers: the values 0, 2, 4, ... below the stop. *)
Definition arange2_len (num den : nat) : nat :=
  if num =? 0 then 0 else S ((num - 1) / (2 * den)).

Definition v_arange2 (num den : nat) : tensor F :=
  let n := arange2_len num den in
  mkT [n] (map (fun i => of_Z (Z.of_nat (2 * i))) (seq 0 n)).

(** [torch.arange(n).to(dtype)] *)
Definition v_arange (n : nat) : tensor F :=
  mkT [n] (map (fun i => of_Z (Z.of_nat i)) (seq 0 n)).

(** [torch.outer] of two 1-D tensors. *)
Definition v_outer (a b : tensor F) : result (tensor F) :=
  match shape a, shape b with
  | [n], [m] =>
      Ok (tabulate [n; m] (fun idx =>
            fmul (get fzero a [nth 0 idx 0]) (get fzero b [nth 1 idx 0])))
  | _, _ => Raise RuntimeError
  end.

Definition v_add := v_binop fzero fadd.
Definition v_sub := v_binop fzero fsub.
Definition v_mul := v_binop fzero fmul.
Definition v_div := v_binop fzero fdiv.

(** [t.to(torch.bool)] *)
Definition v_to_bool (t : tensor F) : tensor bool := tmap nonzero t.
End FloatOps.

(** ** The torch interface

    The source manipulates tensor objects.  An operation either creates a
    tensor with a storage of its own ([alloc]), returns a view that shares
    the storage of its operand ([view]), or overwrites its operand in
    place ([update]); [peek] reads the current value.  Integer tensors
    (token ids, position ids) and boolean masks are never written in the
    source and are carried as values. *)

Class Torch (F : Type) (M : Type -> Type) (T : Type) : Type := {
  ret : forall {A}, A -> M A;
  bind : forall {A B}, M A -> (A -> M B) -> M B;
  raise : forall {A}, exn -> M A;
  peek : T -> M (tensor F);
  alloc : tensor F -> M T;
  view : T -> (tensor F -> result (tensor F)) -> M T;
  update : T -> tensor F -> M T
}.

Declare Scope torch_scope.
Delimit Scope torch_scope with torch.
Notation "x <- m ;; k" := (bind m (fun x => k))
  (at level 61, m at next level, right associativity) : torch_scope.
Notation "' p <- m ;; k" := (bind m (fun x => let p := x in k))
  (at level 61, p pattern, m at next level, right associativity) : torch_scope.
Local Open Scope torch_scope.

(** *** Value interpretation *)

#[global] Instance PureTorch (F : Type) : Torch F result (tensor F) := {
  ret := @Ok;
  bind := @rbind;
  raise := @Raise;
  peek := fun t => Ok t;
  alloc := fun t => Ok t;
  view := fun t f => f t;
  update := fun _ v => Ok v
}.

(** *** Reference interpretation

    A store is the list of the storages allocated so far.  A handle names
    a storage and, for a view, the function that reads the view out of
    it.  Writing through a view needs the inverse of that function; the
    source only writes ([+=] in [ApplyMask.forward]) to a tensor that owns
    its storage, so a write through a view is refused. *)

Record handle (F : Type) : Type := mkH {
  cell : nat;
  lens : option (tensor F -> result (tensor F))
}.

Arguments mkH {F} cell lens.

Definition store (F : Type) : Type := list (tensor F).

Definition ST (F : Type) (A : Type) : Type := store F -> result (A * store F).

Definition st_peek {F} (h : handle F) : ST F (tensor F) :=
  fun s =>
    match nth_error s (cell h) with
    | Some v =>
        match lens h with
        | None => Ok (v, s)
        | Some f => rbind (f v) (fun w => Ok (w, s))
        end
    | None => Raise RuntimeError
    end.

Definition st_view {F} (h : handle F) (f : tensor F -> result (tensor F)) : ST F (handle F) :=
  fun s =>
    rbind (st_peek h s) (fun p =>
      rbind (f (fst p)) (fun _ =>
        Ok (mkH (cell h)
                (Some (fun v => match lens h with
                                | None => f v
                                | Some g => rbind (g v) f
                                end)), s))).

Definition st_update {F} (h : handle F) (v : tensor F) : ST F (handle F) :=
  fun s =>
    match lens h with
    | None =>
        if cell h <? length s then Ok (h, set_nth (cell h) v s)
        else Raise RuntimeError
    | Some _ => Raise RuntimeError
    end.

#[global] Instance StoreTorch (F : Type) : Torch F (ST F) (handle F) := {
  ret := fun A a s => Ok (a, s);
  bind := fun A B m k s => rbind (m s) (fun p => k (fst p) (snd p));
  raise := fun A e _ => Raise e;
  peek := st_peek;
  alloc := fun v s => Ok (mkH (length s) None, s ++ [v]);
  view := st_view;
  update := st_update
}.

(** *** Torch operations, by the kind of result they return *)

Section TorchOps.
Context {F : Type} {SF : Scalar F} {M : Type -> Type} {T : Type}
        {TT : Torch F M T}.

Definition lift {A} (r : result A) : M A :=
  match r with
  | Ok a => ret a
  | Raise e => raise e
  end.

Definition fresh1 (f : tensor F -> result (tensor F)) (a : T) : M T :=
  x <- peek a ;; y <- lift (f x) ;; alloc y.

Definition fresh2 (f : tensor F -> tensor F -> result (tensor F)) (a b : T) : M T :=
  x <- peek a ;; y <- peek b ;; z <- lift (f x y) ;; alloc z.

Definition t_shape (a : T) : M (list nat) := x <- peek a ;; ret (shape x).

Definition t_map (f : F -> F) : T -> M T := fresh1 (fun x => Ok (tmap f x)).
Definition t_add : T -> T -> M T := fresh2 v_add.
Definition t_sub : T -> T -> M T := fresh2 v_sub.
Definition t_mul : T -> T -> M T := fresh2 v_mul.
Definition t_div : T -> T -> M T := fresh2 v_div.
Definition t_neg : T -> M T := t_map fneg.
Definition t_matmul : T -> T -> M T := fresh2 v_matmul.
Definition t_linear (w : T) (x : T) : M T := fresh2 v_linear x w.
Definition t_cat (a b : T) (dz : Z) : M T := fresh2 (fun x y => v_cat fzero x y dz) a b.
Definition t_clone : T -> M T := fresh1 (fun x => Ok x).
Definition t_mean_last : T -> M T := fresh1 v_mean_last.
Definition t_softmax_last : T -> M T := fresh1 v_softmax_last.
Definition t_tril : T -> M T := fresh1 v_tril.
Definition t_outer : T -> T -> M T := fresh2 v_outer.
Definition t_masked_fill (a : T) (m : tensor bool) (v : F) : M T :=
  fresh1 (fun x => v_masked_fill fzero x m v) a.
Definition t_index_rows (table : T) (ids : tensor Z) : M T :=
  fresh1 (fun x => v_index_rows fzero x ids) table.
Definition t_embedding (weight : T) (ids : tensor Z) : M T :=
  fresh1 (fun x => v_embedding fzero x ids) weight.
Definition t_to_bool (a : T) : M (tensor bool) := x <- peek a ;; ret (v_to_bool x).

(** Views. *)
Definition t_detach (a : T) : M T := view a (fun x => Ok x).
Definition t_to (a : T) : M T := view a (fun x => Ok x).
Definition t_reshape (a : T) (s : list nat) : M T := view a (fun x => v_reshape x s).
Definition t_permute (a : T) (p : list nat) : M T := view a (fun x => v_permute fzero x p).
Definition t_transpose (a : T) (d1 d2 : nat) : M T :=
  view a (fun x => v_transpose fzero x d1 d2).
Definition t_unsqueeze (a : T) (k : nat) : M T := view a (fun x => v_unsqueeze x k).
(** [a[:, None, None, :]]: two index items address axes, so [a] has at
    least two. *)
Definition t_index_colon_none_none_colon (a : T) : M T :=
  view a (fun x =>
    if 2 <=? rank x then rbind (v_unsqueeze x 1) (fun y => v_unsqueeze y 1)
    else Raise IndexError).
Definition t_expand (a : T) (sizes : list Z) : M T :=
  view a (fun x => v_expand fzero x sizes).
Definition t_slice_last (a : T) (start stop : option Z) : M T :=
  view a (fun x =>
    match rev (shape x) with
    | n :: _ =>
        let '(lo, hi) := py_slice n start stop in
        v_slice fzero x (rank x - 1) lo hi
    | [] => Raise IndexError
    end).
Definition t_slice_axis (a : T) (k : nat) (start stop : option Z) : M T :=
  view a (fun x =>
    let '(lo, hi) := py_slice (dim (shape x) k) start stop in
    v_slice fzero x k lo hi).

(** In place: [a += b]; the sum must have the shape of [a]. *)
Definition t_iadd (a b : T) : M T :=
  x <- peek a ;; y <- peek b ;;
  z <- lift (rbind (v_add x y) (fun z =>
         if list_eqb (shape z) (shape x) then Ok z else Raise RuntimeError)) ;;
  update a z.
End TorchOps.

(** ** The modules of decoder_model.py *)

(** A Python dict with string keys; a missing key raises [KeyError]. *)
Fixpoint dict_get {A} (dct : list (string * A)) (k : string) : result A :=
  match dct with
  | [] => Raise KeyError
  | (k', v) :: rest => if String.eqb k' k then Ok v else dict_get rest k
  end.

Definition shape_at (s : list nat) (k : nat) : result nat :=
  match nth_error s k with
  | Some n => Ok n
  | None => Raise IndexError
  end.

Definition shape_last (s : list nat) : result nat :=
  match rev s with
  | n :: _ => Ok n
  | [] => Raise IndexError
  end.

Section Modules.
Context {F : Type} {SF : Scalar F} {M : Type -> Type} {T : Type}
        {TT : Torch F M T}.

(** The values the framework draws for a parameter tensor of a given
    shape when a [Linear] or [Embedding] is created. *)
Variable init : list nat -> list nat -> F.

(** *** Linear (no bias) *)

Record Linear : Type := mkLinear {
  in_features : nat;
  out_features : nat;
  lin_weight : T
}.

Definition Linear_init (i o : nat) : M Linear :=
  w <- alloc (tabulate [o; i] (init [o; i])) ;;
  ret (mkLinear i o w).

Definition Linear_forward (l : Linear) (x : T) : M T :=
  t_linear (lin_weight l) x.

(** *** Normalization: RMSNorm and LayerNorm *)

Inductive Norm : Type :=
| LayerNorm (eps : F) (weight bias : T)
| RMSNorm (eps : F) (weight : T).

Definition norm_eps (n : Norm) : F :=
  match n with
  | LayerNorm e _ _ => e
  | RMSNorm e _ => e
  end.

Definition RMSNorm_init (dim_ : nat) (eps : F) : M Norm :=
  w <- alloc (v_ones [dim_]) ;;
  ret (RMSNorm eps w).

Definition LayerNorm_init (dim_ : nat) (eps : F) : M Norm :=
  w <- alloc (v_ones [dim_]) ;;
  b <- alloc (v_zeros [dim_]) ;;
  ret (LayerNorm eps w b).

Definition RMSNorm_forward (eps : F) (weight : T) (hidden_states : T) : M T :=
  hidden_states <- t_to hidden_states ;;
  sq <- t_map (fun v => fmul v v) hidden_states ;;
  variance <- t_mean_last sq ;;
  ve <- t_map (fun v => fadd v eps) variance ;;
  r <- t_map frsqrt ve ;;
  hidden_states <- t_mul hidden_states r ;;
  hs <- t_to hidden_states ;;
  t_mul weight hs.

Definition LayerNorm_forward (eps : F) (weight bias : T) (hidden_states : T) : M T :=
  mu <- t_mean_last hidden_states ;;
  diff <- t_sub hidden_states mu ;;
  sq <- t_map (fun v => fmul v v) diff ;;
  variance <- t_mean_last sq ;;
  ve <- t_map (fun v => fadd v eps) variance ;;
  sd <- t_map fsqrt ve ;;
  hidden_states <- t_div diff sd ;;
  wh <- t_mul weight hidden_states ;;
  t_add wh bias.

Definition Norm_forward (n : Norm) (hidden_states : T) : M T :=
  match n with
  | LayerNorm eps w b => LayerNorm_forward eps w b hidden_states
  | RMSNorm eps w => RMSNorm_forward eps w hidden_states
  end.

(** [{"layer_norm": LayerNorm(dim, eps), "rms": RMSNorm(dim, eps)}[kind]]:
    both modules are created, then one is selected. *)
Definition select_norm (dim_ : nat) (eps : F) (normalization_type : string) : M Norm :=
  ln <- LayerNorm_init dim_ eps ;;
  rms <- RMSNorm_init dim_ eps ;;
  lift (dict_get [("layer_norm"%string, ln); ("rms"%string, rms)] normalization_type).

(** *** rotary_mat *)

Definition rotary_mat (hidden_size num_heads max_seq_len : nat) : M (T * T) :=
  if num_heads =? 0 then raise ZeroDivisionError
  else
    let head_dim := fdiv (fmul fone (of_Z (Z.of_nat hidden_size)))
                         (of_Z (Z.of_nat num_heads)) in
    pos <- alloc (v_arange2 hidden_size num_heads) ;;
    e <- t_map (fun p => fdiv p head_dim) pos ;;
    pw <- t_map (fun x => fpow f_theta x) e ;;
    freqs <- t_map (fun x => fdiv fone x) pw ;;
    idx <- alloc (v_arange max_seq_len) ;;
    freqs <- t_outer idx freqs ;;
    freqs <- t_cat freqs freqs (-1) ;;
    cos <- t_map fcos freqs ;;
    sin <- t_map fsin freqs ;;
    cos <- t_to cos ;;
    sin <- t_to sin ;;
    ret (cos, sin).

(** *** ProjLayerSiluMatMul *)

Record ProjLayerSiluMatMul : Type := mkMLP {
  gate_proj : Linear;
  down_proj : Linear;
  up_proj : Linear
}.

Definition ProjLayerSiluMatMul_init (hidden_size intermediate_size : nat)
  : M ProjLayerSiluMatMul :=
  g <- Linear_init hidden_size intermediate_size ;;
  d <- Linear_init intermediate_size hidden_size ;;
  u <- Linear_init hidden_size intermediate_size ;;
  ret (mkMLP g d u).

Definition ProjLayerSiluMatMul_forward (m : ProjLayerSiluMatMul) (x : T) : M T :=
  w1x <- Linear_forward (gate_proj m) x ;;
  sg <- t_map fsigmoid w1x ;;
  a <- t_mul w1x sg ;;
  u <- Linear_forward (up_proj m) x ;;
  p <- t_mul a u ;;
  Linear_forward (down_proj m) p.

(** *** SelfAttention: constructor *)

Record SelfAttention : Type := mkSA {
  head_dim : nat;
  q_proj : Linear;
  k_proj : Linear;
  v_proj : Linear;
  o_proj : Linear;
  sa_hidden_size : nat;
  sa_num_heads : nat;
  sa_num_key_value_heads : nat;
  scale : F
}.

Definition SelfAttention_init (hidden_size num_heads num_key_value_heads : nat)
    (scale_type : string) : M SelfAttention :=
  if num_heads =? 0 then raise ZeroDivisionError
  else
    let hd := hidden_size / num_heads in
    let key_value_hidden_size := num_key_value_heads * hd in
    q <- Linear_init hidden_size hidden_size ;;
    k <- Linear_init hidden_size key_value_hidden_size ;;
    v <- Linear_init hidden_size key_value_hidden_size ;;
    o <- Linear_init hidden_size hidden_size ;;
    if String.eqb scale_type "HeadDim" then
      ret (mkSA hd q k v o hidden_size num_heads num_key_value_heads
                (of_Z (Z.of_nat hd)))
    else if String.eqb scale_type "SquareRootHeadDim" then
      ret (mkSA hd q k v o hidden_size num_heads num_key_value_heads
                (fsqrt (of_Z (Z.of_nat hd))))
    else raise ValueError.
End Modules.

Section Forward.
Context {F : Type} {SF : Scalar F} {M : Type -> Type} {T : Type}
        {TT : Torch F M T}.
Variable init : list nat -> list nat -> F.

(** *** Rotary embedding *)

Definition rotate_half (x : T) : M T :=
  s <- t_shape x ;;
  n <- lift (shape_last s) ;;
  let half_dim := Z.of_nat (n / 2) in
  x1 <- t_slice_last x None (Some half_dim) ;;
  x2 <- t_slice_last x (Some half_dim) None ;;
  nx2 <- t_neg x2 ;;
  t_cat nx2 x1 (-1).

Definition apply_rope (x cos sin : T) (position_ids : tensor Z) : M T :=
  s <- t_shape x ;;
  hd <- lift (shape_last s) ;;
  cos <- t_slice_axis cos 1 None (Some (Z.of_nat hd)) ;;
  sin <- t_slice_axis sin 1 None (Some (Z.of_nat hd)) ;;
  cos <- t_index_rows cos position_ids ;;
  cos <- t_unsqueeze cos 1 ;;
  sin <- t_index_rows sin position_ids ;;
  sin <- t_unsqueeze sin 1 ;;
  xc <- t_mul x cos ;;
  rh <- rotate_half x ;;
  rs <- t_mul rh sin ;;
  t_add xc rs.

Definition RotaryEmbedding_forward := apply_rope.

(** *** Grouped-query broadcasting *)

Definition broadcast_key_value (hidden_states : T) (n_rep : nat) : M T :=
  s <- t_shape hidden_states ;;
  match s with
  | [batch; num_key_value_heads; slen; hd] =>
      h <- t_unsqueeze hidden_states 2 ;;
      h <- t_expand h [Z.of_nat batch; Z.of_nat num_key_value_heads;
                       Z.of_nat n_rep; Z.of_nat slen; Z.of_nat hd] ;;
      t_reshape h [batch; num_key_value_heads * n_rep; slen; hd]
  | _ => raise ValueError
  end.

(** *** ApplyMask *)

Definition ApplyMask_forward (use_cache : bool) (score attn_mask : T)
    (seq_len num_heads : nat) : M T :=
  m4 <- t_index_colon_none_none_colon attn_mask ;;
  ex <- t_expand m4 [(-1)%Z; 1%Z; Z.of_nat seq_len; (-1)%Z] ;;
  expanded_mask <- t_to ex ;;
  inverted_mask <- t_map (fun v => fsub fone v) expanded_mask ;;
  bm <- t_to_bool inverted_mask ;;
  mask_score <- t_masked_fill inverted_mask bm f_minus_10000 ;;
  mask_score <-
    (if negb use_cache then
       s <- t_shape attn_mask ;;
       match s with
       | [batch_size; max_seq_len] =>
           ones <- alloc (v_ones [batch_size; 1; max_seq_len; max_seq_len]) ;;
           causal_mask <- t_tril ones ;;
           causal_mask <- t_slice_axis causal_mask 2
                            (Some (- Z.of_nat seq_len)%Z) None ;;
           inverted_causal_mask <- t_map (fun v => fsub fone v) causal_mask ;;
           bc <- t_to_bool inverted_causal_mask ;;
           filled <- t_masked_fill inverted_causal_mask bc f_minus_10000 ;;
           t_iadd mask_score filled
       | _ => raise ValueError
       end
     else ret mask_score) ;;
  mask_score <- t_expand mask_score [(-1)%Z; Z.of_nat num_heads; (-1)%Z; (-1)%Z] ;;
  t_add score mask_score.

(** *** SelfAttention.forward *)

(** The block [if self.num_heads != self.num_key_value_heads: ...]. *)
Definition broadcast_heads (sa : SelfAttention (T := T) (F := F))
    (key value : T) : M (T * T) :=
  if negb (sa_num_heads sa =? sa_num_key_value_heads sa) then
    if sa_num_key_value_heads sa =? 0 then raise ZeroDivisionError
    else
      let n_reps := sa_num_heads sa / sa_num_key_value_heads sa in
      key <- broadcast_key_value key n_reps ;;
      value <- broadcast_key_value value n_reps ;;
      ret (key, value)
  else ret (key, value).

Definition SelfAttention_forward (sa : SelfAttention (T := T) (F := F))
    (use_cache : bool) (x : T) (position_ids : tensor Z)
    (attn_mask cos sin k_cache v_cache : T) : M (T * T * T) :=
  query <- Linear_forward (q_proj sa) x ;;
  key <- Linear_forward (k_proj sa) x ;;
  value <- Linear_forward (v_proj sa) x ;;
  s <- t_shape x ;;
  batch_size <- lift (shape_at s 0) ;;
  seq_len <- lift (shape_at s 1) ;;
  (* Split the attention heads *)
  query <- t_reshape query [batch_size; seq_len; sa_num_heads sa; head_dim sa] ;;
  query <- t_transpose query 1 2 ;;
  key <- t_reshape key [batch_size; seq_len; sa_num_key_value_heads sa; head_dim sa] ;;
  key <- t_transpose key 1 2 ;;
  value <- t_reshape value [batch_size; seq_len; sa_num_key_value_heads sa; head_dim sa] ;;
  value <- t_transpose value 1 2 ;;
  (* Apply rotary positional embedding *)
  query <- RotaryEmbedding_forward query cos sin position_ids ;;
  key <- RotaryEmbedding_forward key cos sin position_ids ;;
  (* Append new entries to the end of k, v cache *)
  k_cache <- t_cat k_cache key 2 ;;
  v_cache <- t_cat v_cache value 2 ;;
  let key := k_cache in
  let value := v_cache in
  (* Broadcast key and value to match the query's num_heads *)
  kv <- broadcast_heads sa key value ;;
  key <- t_permute (fst kv) [0; 1; 3; 2] ;;
  let value := snd kv in
  (* Calculate attention scores *)
  qk <- t_matmul query key ;;
  score <- t_map (fun v => fdiv v (scale sa)) qk ;;
  (* Apply the mask *)
  score <- ApplyMask_forward use_cache score attn_mask seq_len (sa_num_heads sa) ;;
  (* Calculate attention values *)
  prob <- t_softmax_last score ;;
  attn <- t_matmul prob value ;;
  (* Merge attention heads *)
  attn <- t_permute attn [0; 2; 1; 3] ;;
  attn <- t_reshape attn [batch_size; seq_len; sa_hidden_size sa] ;;
  out <- Linear_forward (o_proj sa) attn ;;
  ret (out, k_cache, v_cache).
End Forward.

Section ModelDefs.
Context {F : Type} {SF : Scalar F} {M : Type -> Type} {T : Type}
        {TT : Torch F M T}.
Variable init : list nat -> list nat -> F.

(** *** TransformerLayer *)

(** The table length written in [TransformerLayer.__init__]. *)
Definition rotary_max_seq_len : nat := 4096.

Record TransformerLayer : Type := mkLayer {
  input_layernorm : Norm (F := F) (T := T);
  post_attention_layernorm : Norm (F := F) (T := T);
  layer_cos : T;
  layer_sin : T;
  self_attn : SelfAttention (F := F) (T := T);
  mlp : ProjLayerSiluMatMul (T := T)
}.

Definition TransformerLayer_init (hidden_size intermediate_size num_heads
    num_key_value_heads : nat) (scale_type normalization_type : string)
    (epsilon : F) : M TransformerLayer :=
  n1 <- select_norm hidden_size epsilon normalization_type ;;
  n2 <- select_norm hidden_size epsilon normalization_type ;;
  cs <- rotary_mat hidden_size num_heads rotary_max_seq_len ;;
  sa <- SelfAttention_init init hidden_size num_heads num_key_value_heads scale_type ;;
  m <- ProjLayerSiluMatMul_init init hidden_size intermediate_size ;;
  ret (mkLayer n1 n2 (fst cs) (snd cs) sa m).

Definition TransformerLayer_forward (l : TransformerLayer) (use_cache : bool)
    (x : T) (position_ids : tensor Z) (attn_mask k_cache v_cache : T)
    : M (T * T * T) :=
  nx <- Norm_forward (input_layernorm l) x ;;
  r <- SelfAttention_forward (self_attn l) use_cache nx position_ids attn_mask
         (layer_cos l) (layer_sin l) k_cache v_cache ;;
  let '(h, k_out, v_out) := r in
  h <- t_add x h ;;
  nh <- Norm_forward (post_attention_layernorm l) h ;;
  mo <- ProjLayerSiluMatMul_forward (mlp l) nh ;;
  out <- t_add h mo ;;
  ret (out, k_out, v_out).

(** *** Model *)

(** One entry of the caller's cache: [{"key": ..., "value": ...}]. *)
Record cache_entry : Type := mkCache {
  key : T;
  value : T
}.

Record Model : Type := mkModel {
  embed_tokens : T;
  norm : Norm (F := F) (T := T);
  layers : list TransformerLayer
}.

Fixpoint make_layers (n : nat) (mk : M TransformerLayer) : M (list TransformerLayer) :=
  match n with
  | 0 => ret []
  | S n' => l <- mk ;; ls <- make_layers n' mk ;; ret (l :: ls)
  end.

Definition Model_init (n_layers vocab_size hidden_size intermediate_size
    num_heads num_key_value_heads : nat) (scale_type normalization_type : string)
    (epsilon : F) : M Model :=
  emb <- alloc (tabulate [vocab_size; hidden_size] (init [vocab_size; hidden_size])) ;;
  nrm <- select_norm hidden_size f_1e_5 normalization_type ;;
  ls <- make_layers n_layers
          (TransformerLayer_init hidden_size intermediate_size num_heads
             num_key_value_heads scale_type normalization_type epsilon) ;;
  ret (mkModel emb nrm ls).

(** The loop [for layer_idx, layer in enumerate(self.layers)]; the
    accumulators [k_caches], [v_caches] are returned in layer order. *)
Fixpoint Model_layers (ls : list TransformerLayer) (layer_idx : nat)
    (use_cache : bool) (x : T) (position_ids : tensor Z) (attn_mask : T)
    (cache : list cache_entry) : M (T * list T * list T) :=
  match ls with
  | [] => ret (x, [], [])
  | layer :: rest =>
      match nth_error cache layer_idx with
      | None => raise IndexError
      | Some c =>
          kc <- t_clone (key c) ;;
          k_cache <- t_detach kc ;;
          vc <- t_clone (value c) ;;
          v_cache <- t_detach vc ;;
          r <- TransformerLayer_forward layer use_cache x position_ids attn_mask
                 k_cache v_cache ;;
          let '(x', k_out, v_out) := r in
          r' <- Model_layers rest (S layer_idx) use_cache x' position_ids
                  attn_mask cache ;;
          let '(y, ks, vs) := r' in
          ret (y, k_out :: ks, v_out :: vs)
      end
  end.

Definition Model_forward (m : Model) (use_cache : bool) (tokens position_ids : tensor Z)
    (attn_mask : T) (cache : list cache_entry) : M (T * list T * list T) :=
  x <- t_embedding (embed_tokens m) tokens ;;
  r <- Model_layers (layers m) 0 use_cache x position_ids attn_mask cache ;;
  let '(x, k_caches, v_caches) := r in
  y <- Norm_forward (norm m) x ;;
  ret (y, k_caches, v_caches).

(** *** DecoderModel *)

Record DecoderModel : Type := mkDecoder {
  model : Model;
  lm_head : Linear (T := T)
}.

Definition DecoderModel_init (n_layers vocab_size hidden_size intermediate_size
    num_heads num_key_value_heads : nat) (scale_type normalization_type : string)
    (epsilon : F) : M DecoderModel :=
  m <- Model_init n_layers vocab_size hidden_size intermediate_size num_heads
         num_key_value_heads scale_type normalization_type epsilon ;;
  h <- Linear_init init hidden_size vocab_size ;;
  ret (mkDecoder m h).

Fixpoint interleave (ks vs : list T) : list T :=
  match ks, vs with
  | k :: ks', v :: vs' => k :: v :: interleave ks' vs'
  | _, _ => []
  end.

Definition forward_common (dm : DecoderModel) (use_cache : bool)
    (tokens position_ids_increment : tensor Z) (attn_mask : T)
    (cache : list cache_entry) : M (list T) :=
  r <- Model_forward (model dm) use_cache tokens position_ids_increment
         attn_mask cache ;;
  let '(hidden_states, k_caches, v_caches) := r in
  logits <- Linear_forward (lm_head dm) hidden_states ;;
  ret (logits :: interleave k_caches v_caches).

Definition forward_no_cache (dm : DecoderModel) := forward_common dm false.
Definition forward_use_cache (dm : DecoderModel) := forward_common dm true.
End ModelDefs.

(** ** Idealised arithmetic: the real numbers *)

#[global] Instance RScalar : Scalar R := {
  fzero := 0%R;
  fone := 1%R;
  fadd := Rplus;
  fsub := Rminus;
  fmul := Rmult;
  fdiv := Rdiv;
  fneg := Ropp;
  fexp := exp;
  fsqrt := sqrt;
  fcos := cos;
  fsin := sin;
  fpow := Rpower;
  of_Z := IZR;
  nonzero := fun r => if Req_dec_T r 0 then false else true
}.

(** ** Vocabulary of the statements *)

(** The configuration strings the constructors recognise. *)
Definition known_norm (normalization_type : string) : bool :=
  String.eqb "layer_norm" normalization_type || String.eqb "rms" normalization_type.

Definition known_scale (scale_type : string) : bool :=
  String.eqb "HeadDim" scale_type || String.eqb "SquareRootHeadDim" scale_type.

(** The exception, if any, that the constructor of [DecoderModel] ends with. *)
Definition construction_error (n_layers num_heads : nat)
    (scale_type normalization_type : string) : option exn :=
  if negb (known_norm normalization_type) then Some KeyError
  else if n_layers =? 0 then None
  else if num_heads =? 0 then Some ZeroDivisionError
  else if known_scale scale_type then None
  else Some ValueError.

Definition error_of {A} (r : result A) : option exn :=
  match r with
  | Ok _ => None
  | Raise e => Some e
  end.

(** Shapes that every constructed model has, and keeps when weights of
    the same shapes are loaded into it: the normalization weights are
    vectors and the rotary tables are matrices. *)
Definition norm_ok {F} (n : Norm (F := F) (T := tensor F)) : Prop :=
  match n with
  | LayerNorm _ w b => rank w = 1 /\ rank b = 1
  | RMSNorm _ w => rank w = 1
  end.

Definition layer_ok {F} (l : TransformerLayer (F := F) (T := tensor F)) : Prop :=
  norm_ok (input_layernorm l) /\ norm_ok (post_attention_layernorm l) /\
  rank (layer_cos l) = 2 /\ rank (layer_sin l) = 2.

Definition model_shapes_ok {F} (dm : DecoderModel (F := F) (T := tensor F)) : Prop :=
  Forall layer_ok (layers (model dm)).

(** A cache entry whose key and value are 4-D:
    (batch, key/value heads, cached length, head dimension). *)
Definition cache_4d {F} (c : cache_entry (T := tensor F)) : Prop :=
  rank (key c) = 4 /\ rank (value c) = 4.

(** [c'] is [c] with [n] more positions on the sequence axis (axis 2). *)
Definition seq_len {A} (t : tensor A) : nat := dim (shape t) 2.

Definition grown {F} (n : nat) (c c' : cache_entry (T := tensor F)) : Prop :=
  shape (key c') = set_nth 2 (seq_len (key c) + n) (shape (key c)) /\
  shape (value c') = set_nth 2 (seq_len (value c) + n) (shape (value c)).

(** A 4-D cache entry whose key and value hold [L] positions. *)
Definition cache_len {F} (L : nat) (c : cache_entry (T := tensor F)) : Prop :=
  cache_4d c /\ seq_len (key c) = L /\ seq_len (value c) = L.

(** The additive attention bias, entry by entry: a mask value [v] is
    inverted to [1 - v], and a nonzero inverse is replaced by -10000. *)
Section Bias.
Context {F : Type} {SF : Scalar F}.

Definition to_bias (v : F) : F :=
  let inv := fsub fone v in
  if nonzero inv then f_minus_10000 else inv.

(** Entry [(i, j)] of the padding mask of shape (batch, total_len). *)
Definition padding_bias (attn_mask : tensor F) (i j : nat) : F :=
  to_bias (get fzero attn_mask [i; j]).

(** Row [q] of the last [seq_len] rows of the lower-triangular matrix of
    side [total_len], at column [j]. *)
Definition causal_bias (total_len seq_len q j : nat) : F :=
  to_bias (if j <=? q + (total_len - seq_len) then fone else fzero).

Definition attention_bias (use_cache : bool) (attn_mask : tensor F)
    (total_len seq_len i q j : nat) : F :=
  if use_cache then padding_bias attn_mask i j
  else fadd (padding_bias attn_mask i j) (causal_bias total_len seq_len q j).
End Bias.

(** Entry [idx] of [rotate_half x] for a 4-D [x] whose last axis has
    length [e]: the first [e - e/2] entries of a row are the negated tail
    of the row of [x], the others its head. *)
Definition rotate_half_entry {F} {SF : Scalar F} (x : tensor F) (e : nat)
    (idx : list nat) : F :=
  let l := nth 3 idx 0 in
  if l <? e - e / 2 then fneg (get fzero x (set_nth 3 (l + e / 2) idx))
  else get fzero x (set_nth 3 (l - (e - e / 2)) idx).

(** The caches in the list a forward call returns:
    [logits, k_0, v_0, k_1, v_1, ...]. *)
Fixpoint unpack_caches {T} (outs : list T) : list (cache_entry (T := T)) :=
  match outs with
  | k :: v :: rest => mkCache k v :: unpack_caches rest
  | _ => []
  end.

Definition next_cache {T} (outs : list T) : list (cache_entry (T := T)) :=
  unpack_caches (tl outs).

(** A caller that decodes step by step in use-cache mode: each call gets
    the cache the previous call returned. *)
Section Decode.
Context {F : Type} {SF : Scalar F} {M : Type -> Type} {T : Type}
        {TT : Torch F M T}.

Fixpoint decode_steps (dm : DecoderModel (F := F) (T := T))
    (steps : list (tensor Z * tensor Z * T))
    (cache : list (cache_entry (T := T))) : M (list (cache_entry (T := T))) :=
  match steps with
  | [] => ret cache
  | (tokens, position_ids, attn_mask) :: rest =>
      bind (forward_use_cache dm tokens position_ids attn_mask cache)
           (fun outs => decode_steps dm rest (next_cache outs))
  end.
End Decode.

Definition single_token {T} (step : tensor Z * tensor Z * T) : Prop :=
  exists b, shape (fst (fst step)) = [b; 1] /\ shape (snd (fst step)) = [b; 1].

(** ** A small model over the reals

    One layer, hidden size 2, one head, vocabulary of 3 tokens, as after
    loading a checkpoint whose weights are all 1 and whose rotary tables
    hold [rows] positions. *)

Definition ones_linear (i o : nat) : Linear (T := tensor R) :=
  mkLinear i o (v_ones [o; i]).

Definition loaded_layer (rows : nat) : TransformerLayer (F := R) (T := tensor R) :=
  mkLayer (RMSNorm (1 / 100000)%R (v_ones [2]))
          (RMSNorm (1 / 100000)%R (v_ones [2]))
          (v_ones [rows; 2]) (v_zeros [rows; 2])
          (mkSA 2 (ones_linear 2 2) (ones_linear 2 2) (ones_linear 2 2)
                (ones_linear 2 2) 2 1 1 (IZR 2))
          (mkMLP (ones_linear 2 4) (ones_linear 4 2) (ones_linear 2 4)).

Definition loaded_model (rows : nat) : DecoderModel (F := R) (T := tensor R) :=
  mkDecoder (mkModel (v_ones [3; 2]) (RMSNorm f_1e_5 (v_ones [2])) [loaded_layer rows])
            (ones_linear 2 3).

(** An empty cache for that model: no position cached yet. *)
Definition empty_cache : list (cache_entry (T := tensor R)) :=
  [mkCache (mkT [1; 1; 0; 2] []) (mkT [1; 1; 0; 2] [])].

(** ** Footprint of a computation on the store *)

(** A tensor that owns a storage allocated after the first [n] cells of
    the store. *)
Definition owned {F} (n : nat) (h : handle F) : Prop :=
  n <= cell h /\ lens h = None.

(** [m] leaves the first [n] cells of the store as they are, whatever it
    does beyond them, and its result satisfies [Q]. *)
Definition frames {F A} (n : nat) (m : ST F A) (Q : A -> Prop) : Prop :=
  forall s a s', n <= length s -> m s = Ok (a, s') ->
    n <= length s' /\ firstn n s' = firstn n s /\ Q a.

(** A layer's result: its output and the two caches own new storages. *)
Definition caches_owned {F} (n : nat) (r : handle F * handle F * handle F) : Prop :=
  owned n (fst (fst r)) /\ owned n (snd (fst r)) /\ owned n (snd r).

(** The small model of the reals with its weights in a store: cell 0
    holds the matrix of ones shared by the 2x2 projections, and the last
    two cells the caller's (empty) key and value cache. *)
Definition ref {F} (c : nat) : handle F := mkH c None.

Definition loaded_store (rows : nat) : store R :=
  [v_ones [2; 2]; v_ones [4; 2]; v_ones [2; 4]; v_ones [3; 2]; v_ones [2];
   v_ones [rows; 2]; v_zeros [rows; 2];
   mkT [1; 1; 0; 2] []; mkT [1; 1; 0; 2] []].

Definition loaded_model_refs : DecoderModel (F := R) (T := handle R) :=
  mkDecoder
    (mkModel (ref 3) (RMSNorm f_1e_5 (ref 4))
       [mkLayer (RMSNorm (1 / 100000)%R (ref 4)) (RMSNorm (1 / 100000)%R (ref 4))
          (ref 5) (ref 6)
          (mkSA 2 (mkLinear 2 2 (ref 0)) (mkLinear 2 2 (ref 0)) (mkLinear 2 2 (ref 0))
                (mkLinear 2 2 (ref 0)) 2 1 1 (IZR 2))
          (mkMLP (mkLinear 2 4 (ref 1)) (mkLinear 4 2 (ref 2)) (mkLinear 2 4 (ref 1)))])
    (mkLinear 2 3 (ref 3)).

Definition empty_cache_refs : list (cache_entry (T := handle R)) :=
  [mkCache (ref 7) (ref 8)].

(** A normalization module for hidden states of width [h]. *)
Definition norm_width {F} (h : nat) (n : Norm (F := F) (T := tensor F)) : Prop :=
  match n with
  | LayerNorm _ w b => shape w = [h] /\ shape b = [h]
  | RMSNorm _ w => shape w = [h]
  end.

(** A row number as torch indexing reads it in a table of [rows] rows:
    a negative number counts from the end. *)
Definition wrap_position (rows : nat) (z : Z) : Z :=
  if (z <? 0)%Z then (z + Z.of_nat rows)%Z else z.

(** Every layer's rotary tables have [rows] rows. *)
Definition tables_have_rows {F} (rows : nat)
    (l : TransformerLayer (F := F) (T := tensor F)) : Prop :=
  (exists r, shape (layer_cos l) = rows :: r) /\
  (exists r, shape (layer_sin l) = rows :: r).

(** ** llm.py: the module-level configuration

    [config.py] holds the settings as module globals; [llm.py] overwrites
    them from the configuration of the downloaded checkpoint.  The
    globals are a record that is threaded through the statements: an
    assignment made before an exception is raised stays made. *)

Section LlmConfig.
Context {F : Type} {SD : Type}.

(** The globals of [config.py] ([decoder_model] is not set by the code
    modelled here).  A value [None] is [None]. *)
Record Config : Type := mkConfig {
  cfg_normalization_type : option string;
  cfg_state_dict : option SD;
  cfg_strict_weights_loading : bool;
  cfg_hidden_size : Z;
  cfg_intermediate_size : Z;
  cfg_num_heads : Z;
  cfg_num_key_value_heads : Z;
  cfg_num_layers : Z;
  cfg_vocab_size : Z;
  cfg_epsilon : F
}.

(** The values written in [config.py]; [eps] stands for [1e-5]. *)
Definition default_config (eps : F) : Config :=
  mkConfig None None true 4096 11008 32 32 32 32000 eps.

(** [pipeline.model.config]: the attributes the code reads.  [None] is
    an attribute the object does not have: reading it raises
    AttributeError, and [hasattr] is false. *)
Record HfConfig : Type := mkHf {
  hf_hidden_size : option Z;
  hf_intermediate_size : option Z;
  hf_num_attention_heads : option Z;
  hf_num_key_value_heads : option Z;
  hf_num_hidden_layers : option Z;
  hf_vocab_size : option Z;
  hf_rms_norm_eps : option F;
  hf_layer_norm_epsilon : option F
}.

(** Statements over the globals: the outcome, and the globals as the
    statement leaves them. *)
Definition cmd (A : Type) : Type := Config -> result A * Config.

Definition cret {A} (a : A) : cmd A := fun c => (Ok a, c).

Definition craise {A} (e : exn) : cmd A := fun c => (Raise e, c).

Definition cbind {A B} (m : cmd A) (k : A -> cmd B) : cmd B :=
  fun c =>
    match m c with
    | (Ok a, c') => k a c'
    | (Raise e, c') => (Raise e, c')
    end.

(** [obj.name] *)
Definition getattr {A} (a : option A) : cmd A :=
  match a with
  | Some v => cret v
  | None => craise AttributeError
  end.

(** [config.name = v] *)
Definition assign (f : Config -> Config) : cmd unit := fun c => (Ok tt, f c).

Definition set_hidden_size (v : Z) (c : Config) : Config :=
  mkConfig (cfg_normalization_type c) (cfg_state_dict c) (cfg_strict_weights_loading c)
    v (cfg_intermediate_size c) (cfg_num_heads c) (cfg_num_key_value_heads c)
    (cfg_num_layers c) (cfg_vocab_size c) (cfg_epsilon c).

Definition set_intermediate_size (v : Z) (c : Config) : Config :=
  mkConfig (cfg_normalization_type c) (cfg_state_dict c) (cfg_strict_weights_loading c)
    (cfg_hidden_size c) v (cfg_num_heads c) (cfg_num_key_value_heads c)
    (cfg_num_layers c) (cfg_vocab_size c) (cfg_epsilon c).

Definition set_num_heads (v : Z) (c : Config) : Config :=
  mkConfig (cfg_normalization_type c) (cfg_state_dict c) (cfg_strict_weights_loading c)
    (cfg_hidden_size c) (cfg_intermediate_size c) v (cfg_num_key_value_heads c)
    (cfg_num_layers c) (cfg_vocab_size c) (cfg_epsilon c).

Definition set_num_key_value_heads (v : Z) (c : Config) : Config :=
  mkConfig (cfg_normalization_type c) (cfg_state_dict c) (cfg_strict_weights_loading c)
    (cfg_hidden_size c) (cfg_intermediate_size c) (cfg_num_heads c) v
    (cfg_num_layers c) (cfg_vocab_size c) (cfg_epsilon c).

Definition set_num_layers (v : Z) (c : Config) : Config :=
  mkConfig (cfg_normalization_type c) (cfg_state_dict c) (cfg_strict_weights_loading c)
    (cfg_hidden_size c) (cfg_intermediate_size c) (cfg_num_heads c)
    (cfg_num_key_value_heads c) v (cfg_vocab_size c) (cfg_epsilon c).

Definition set_vocab_size (v : Z) (c : Config) : Config :=
  mkConfig (cfg_normalization_type c) (cfg_state_dict c) (cfg_strict_weights_loading c)
    (cfg_hidden_size c) (cfg_intermediate_size c) (cfg_num_heads c)
    (cfg_num_key_value_heads c) (cfg_num_layers c) v (cfg_epsilon c).

Definition set_normalization_type (v : string) (c : Config) : Config :=
  mkConfig (Some v) (cfg_state_dict c) (cfg_strict_weights_loading c)
    (cfg_hidden_size c) (cfg_intermediate_size c) (cfg_num_heads c)
    (cfg_num_key_value_heads c) (cfg_num_layers c) (cfg_vocab_size c) (cfg_epsilon c).

Definition set_epsilon (v : F) (c : Config) : Config :=
  mkConfig (cfg_normalization_type c) (cfg_state_dict c) (cfg_strict_weights_loading c)
    (cfg_hidden_size c) (cfg_intermediate_size c) (cfg_num_heads c)
    (cfg_num_key_value_heads c) (cfg_num_layers c) (cfg_vocab_size c) v.

Definition set_strict_weights_loading (v : bool) (c : Config) : Config :=
  mkConfig (cfg_normalization_type c) (cfg_state_dict c) v
    (cfg_hidden_size c) (cfg_intermediate_size c) (cfg_num_heads c)
    (cfg_num_key_value_heads c) (cfg_num_layers c) (cfg_vocab_size c) (cfg_epsilon c).

Definition set_state_dict (v : SD) (c : Config) : Config :=
  mkConfig (cfg_normalization_type c) (Some v) (cfg_strict_weights_loading c)
    (cfg_hidden_size c) (cfg_intermediate_size c) (cfg_num_heads c)
    (cfg_num_key_value_heads c) (cfg_num_layers c) (cfg_vocab_size c) (cfg_epsilon c).

(** The value of Python's [a or b] for an optional integer [a]: [None]
    and [0] are false. *)
Definition py_or (a : option Z) (b : Z) : Z :=
  match a with
  | Some z => if (z =? 0)%Z then b else z
  | None => b
  end.

(** [a or b] as it is evaluated: [b] is evaluated only when [a] is
    false. *)
Definition py_or_else (a : option Z) (b : cmd Z) : cmd Z :=
  match a with
  | Some z => if (z =? 0)%Z then b else cret z
  | None => b
  end.

(** [set_config_parameters] after the checkpoint has been loaded: [hf]
    is [pipeline.model.config], [sd] is [pipeline.model.state_dict()].
    Returns the outcome and the globals as the call leaves them. *)
Definition set_config_parameters (hf : HfConfig) (sd : SD)
    (num_layers : option Z) : cmd unit :=
  cbind (getattr (hf_hidden_size hf)) (fun v =>
  cbind (assign (set_hidden_size v)) (fun _ =>
  cbind (getattr (hf_intermediate_size hf)) (fun v =>
  cbind (assign (set_intermediate_size v)) (fun _ =>
  cbind (getattr (hf_num_attention_heads hf)) (fun v =>
  cbind (assign (set_num_heads v)) (fun _ =>
  cbind (getattr (hf_num_key_value_heads hf)) (fun v =>
  cbind (assign (set_num_key_value_heads v)) (fun _ =>
  cbind (py_or_else num_layers (getattr (hf_num_hidden_layers hf))) (fun v =>
  cbind (assign (set_num_layers v)) (fun _ =>
  cbind (getattr (hf_vocab_size hf)) (fun v =>
  cbind (assign (set_vocab_size v)) (fun _ =>
  cbind (match hf_rms_norm_eps hf with
         | Some e =>
             cbind (assign (set_normalization_type "rms")) (fun _ =>
             assign (set_epsilon e))
         | None =>
             match hf_layer_norm_epsilon hf with
             | Some e =>
                 cbind (assign (set_normalization_type "layer_norm")) (fun _ =>
                 assign (set_epsilon e))
             | None => craise ValueError
             end
         end) (fun _ =>
  cbind (assign (set_normalization_type
                   (match hf_rms_norm_eps hf with
                    | Some _ => "rms"
                    | None => "layer_norm"
                    end))) (fun _ =>
  cbind (getattr (hf_num_hidden_layers hf)) (fun h =>
  cbind (fun c => assign (set_strict_weights_loading (cfg_num_layers c =? h)%Z) c)
        (fun _ =>
  assign (set_state_dict sd))))))))))))))))).
End LlmConfig.

(** ** llm.py: dropping the cache inputs of the layers left out

    [optimize] edits the loaded [config_llm.json] when fewer than 32
    layers are configured.  Only the part of the JSON document that the
    loop touches is modelled: the list of model components, each with the
    [io_config] entries [input_names], [output_names] and
    [dynamic_axes]. *)

From Stdlib Require DecimalString DecimalZ.

(** [str(idx)] for a Python integer. *)
Definition py_str (z : Z) : string :=
  DecimalString.NilZero.string_of_int (Z.to_int z).

(** [range(a, b)] *)
Definition py_range (a b : Z) : list Z :=
  map (fun k => (a + Z.of_nat k)%Z) (seq 0 (Z.to_nat (b - a))).

Definition cache_key_name (idx : Z) : string := "cache." ++ py_str idx ++ ".key".
Definition cache_value_name (idx : Z) : string := "cache." ++ py_str idx ++ ".value".
Definition cache_out_key_name (idx : Z) : string := "cache_out." ++ py_str idx ++ ".key".
Definition cache_out_value_name (idx : Z) : string :=
  "cache_out." ++ py_str idx ++ ".value".

(** The last character of a name (it tells a key name from a value
    name). *)
Fixpoint last_char (s : string) : option Ascii.ascii :=
  match s with
  | EmptyString => None
  | String c EmptyString => Some c
  | String _ rest => last_char rest
  end.

(** [x in names] *)
Definition name_in (x : string) (names : list string) : bool :=
  existsb (String.eqb x) names.

(** [[x for x in names if x not in removed]] *)
Definition names_without (removed names : list string) : list string :=
  filter (fun x => negb (name_in x removed)) names.

Section Optimize.
Context {V : Type}.

(** A JSON object as the list of its members, keys distinct. *)
Definition json_object : Type := list (string * V).

Definition has_key (k : string) (d : json_object) : bool :=
  existsb (fun p => String.eqb (fst p) k) d.

(** [del d[k]] *)
Definition py_del (k : string) (d : json_object) : result json_object :=
  if has_key k d then Ok (filter (fun p => negb (String.eqb (fst p) k)) d)
  else Raise KeyError.

Record io_config : Type := mkIo {
  input_names : list string;
  output_names : list string;
  dynamic_axes : json_object
}.

(** The loop [for idx in layer_range: del ...key; del ...value]. *)
Fixpoint del_dynamic_axes (layer_range : list Z) (d : json_object) : result json_object :=
  match layer_range with
  | [] => Ok d
  | idx :: rest =>
      rbind (py_del (cache_key_name idx) d) (fun d =>
      rbind (py_del (cache_value_name idx) d) (fun d =>
      del_dynamic_axes rest d))
  end.

(** The body of [for model_component in model_components]. *)
Definition prune_component (num_layers : Z) (c : io_config) : result io_config :=
  let layer_range := py_range num_layers 32 in
  let key_inputs_to_remove := map cache_key_name layer_range in
  let value_inputs_to_remove := map cache_value_name layer_range in
  let input_names :=
    names_without value_inputs_to_remove
      (names_without key_inputs_to_remove (input_names c)) in
  let key_output_to_remove := map cache_out_key_name layer_range in
  let value_output_to_remove := map cache_out_value_name layer_range in
  let output_names :=
    names_without value_output_to_remove
      (names_without key_output_to_remove (output_names c)) in
  rbind (del_dynamic_axes layer_range (dynamic_axes c)) (fun axes =>
  Ok (mkIo input_names output_names axes)).

Fixpoint prune_components (num_layers : Z) (cs : list io_config)
    : result (list io_config) :=
  match cs with
  | [] => Ok []
  | c :: rest =>
      rbind (prune_component num_layers c) (fun c' =>
      rbind (prune_components num_layers rest) (fun rest' =>
      Ok (c' :: rest')))
  end.

(** [if config.num_layers < 32: ...] *)
Definition prune_model_components (num_layers : Z) (cs : list io_config)
    : result (list io_config) :=
  if (num_layers <? 32)%Z then prune_components num_layers cs else Ok cs.
End Optimize.

(** What the pruning leaves of a list of names: the names that are not
    the key or value name of a layer in [num_layers .. 31]. *)
Definition names_pruned (num_layers : Z) (key value : Z -> string)
    (before after : list string) : Prop :=
  forall x, In x after <->
    In x before /\
    forall idx, (num_layers <= idx < 32)%Z -> x <> key idx /\ x <> value idx.

Definition component_pruned {V} (num_layers : Z) (c c' : io_config (V := V)) : Prop :=
  names_pruned num_layers cache_key_name cache_value_name
    (input_names c) (input_names c') /\
  names_pruned num_layers cache_out_key_name cache_out_value_name
    (output_names c) (output_names c') /\
  forall k, has_key k (dynamic_axes c') = true <->
    has_key k (dynamic_axes c) = true /\
    forall idx, (num_layers <= idx < 32)%Z ->
      k <> cache_key_name idx /\ k <> cache_value_name idx.

(** The component has the dynamic axes of every layer in
    [num_layers .. 31]. *)
Definition axes_present {V} (num_layers : Z) (c : io_config (V := V)) : Prop :=
  forall idx, (num_layers <= idx < 32)%Z ->
    has_key (cache_key_name idx) (dynamic_axes c) = true /\
    has_key (cache_value_name idx) (dynamic_axes c) = true.

(** ** Weights and inputs that fit a configuration *)

Section Fits.
Context {F : Type}.

Definition linear_fits (o i : nat) (l : Linear (T := tensor F)) : Prop :=
  shape (lin_weight l) = [o; i].

(** The weights of a layer have the shapes the constructor gives them
    for a hidden size, head counts, head dimension and intermediate
    size; the rotary tables have [rows] rows and are at least as wide as
    a head. *)
Definition layer_fits (hidden heads kv hd inter rows : nat)
    (l : TransformerLayer (F := F) (T := tensor F)) : Prop :=
  norm_width hidden (input_layernorm l) /\
  norm_width hidden (post_attention_layernorm l) /\
  (exists w, shape (layer_cos l) = [rows; w] /\ shape (layer_sin l) = [rows; w] /\
             hd <= w) /\
  linear_fits hidden hidden (q_proj (self_attn l)) /\
  linear_fits (kv * hd) hidden (k_proj (self_attn l)) /\
  linear_fits (kv * hd) hidden (v_proj (self_attn l)) /\
  linear_fits hidden hidden (o_proj (self_attn l)) /\
  sa_hidden_size (self_attn l) = hidden /\
  sa_num_heads (self_attn l) = heads /\
  sa_num_key_value_heads (self_attn l) = kv /\
  head_dim (self_attn l) = hd /\
  linear_fits inter hidden (gate_proj (mlp l)) /\
  linear_fits hidden inter (down_proj (mlp l)) /\
  linear_fits inter hidden (up_proj (mlp l)).

Definition model_fits (vocab hidden heads kv hd inter rows : nat)
    (dm : DecoderModel (F := F) (T := tensor F)) : Prop :=
  shape (embed_tokens (model dm)) = [vocab; hidden] /\
  norm_width hidden (norm (model dm)) /\
  Forall (layer_fits hidden heads kv hd inter rows) (layers (model dm)) /\
  linear_fits vocab hidden (lm_head dm).

(** The head counts divide as the forward pass needs: the hidden size is
    [heads * hd], and the heads are the key/value heads or a multiple of
    them. *)
Definition heads_fit (hidden heads kv hd : nat) : Prop :=
  hidden = heads * hd /\
  (heads = kv \/ (kv <> 0 /\ heads <> 0 /\ heads = kv * (heads / kv))).

(** A cache entry for [L] cached positions. *)
Definition cache_fits (b kv L hd : nat) (c : cache_entry (T := tensor F)) : Prop :=
  shape (key c) = [b; kv; L; hd] /\ shape (value c) = [b; kv; L; hd].

(** Token ids and position ids within bounds. *)
Definition ids_within (lo hi : Z) (ids : tensor Z) : Prop :=
  Forall (fun z => (lo <= z < hi)%Z) (data ids).
End Fits.

(** ** The normalizations, entry by entry

    What [RMSNorm.forward] and [LayerNorm.forward] compute for the
    entry [l] of row [(i, j)] of hidden states of width [h], for a
    weight [w] (and bias [b]) at [l]. *)

Section NormEntries.
Context {F : Type} {SF : Scalar F}.

(** The mean over a row of [f] of its entries. *)
Definition row_mean (f : F -> F) (x : tensor F) (h i j : nat) : F :=
  fdiv (fsum (map (fun l => f (get fzero x [i; j; l])) (seq 0 h)))
       (of_Z (Z.of_nat h)).

(** The entry times the reciprocal of [sqrt (variance + eps)], where the
    variance is the mean of the squares of the row. *)
Definition rms_norm_entry (eps w : F) (x : tensor F) (h i j l : nat) : F :=
  let variance := row_mean (fun v => fmul v v) x h i j in
  fmul w (fmul (get fzero x [i; j; l]) (fdiv fone (fsqrt (fadd variance eps)))).

(** The entry less the mean of the row, divided by
    [sqrt (variance + eps)], where the variance is the mean of the
    squared differences to the mean. *)
Definition layer_norm_entry (eps w b : F) (x : tensor F) (h i j l : nat) : F :=
  let mu := row_mean (fun v => v) x h i j in
  let variance := row_mean (fun v => fmul (fsub v mu) (fsub v mu)) x h i j in
  fadd (fmul w (fdiv (fsub (get fzero x [i; j; l]) mu) (fsqrt (fadd variance eps)))) b.
End NormEntries.
(** * Properties

    ** The row-major layout *)

Lemma length_indices (s : list nat) : length (indices s) = numel s.
Proof.
  induction s as [|n s IH]; simpl; [reflexivity|].
  generalize 0 as k. induction n as [|n IHn]; intros k; simpl; [reflexivity|].
  rewrite length_app, length_map, IH, IHn. reflexivity.
Qed.

Lemma wf_tabulate {A} (s : list nat) (f : list nat -> A) : wf (tabulate s f).
Proof. unfold wf, tabulate; simpl. now rewrite length_map, length_indices. Qed.

Lemma ravel_lt (s idx : list nat) : valid_idx s idx -> ravel s idx < numel s.
Proof.
  revert idx; induction s as [|n s IH]; intros [|i idx]; simpl; try tauto; try lia.
  intros [Hi Hv]. specialize (IH _ Hv). nia.
Qed.

Lemma nth_flat_map_block {A} (g : nat -> list A) (m n k i j : nat) (d : A) :
  (forall x, length (g x) = m) -> i < n -> j < m ->
  nth (i * m + j) (flat_map g (seq k n)) d = nth j (g (k + i)) d.
Proof.
  intros Hg. revert k i. induction n as [|n IH]; intros k i Hi Hj; [lia|].
  simpl. destruct i as [|i].
  - simpl. rewrite app_nth1 by (rewrite Hg; lia). now rewrite Nat.add_0_r.
  - rewrite app_nth2 by (rewrite Hg; simpl; lia).
    rewrite Hg. replace (S i * m + j - m) with (i * m + j) by (simpl; lia).
    rewrite IH by lia. f_equal. f_equal. lia.
Qed.

Lemma nth_indices (s idx : list nat) (d : list nat) :
  valid_idx s idx -> nth (ravel s idx) (indices s) d = idx.
Proof.
  revert idx; induction s as [|n s IH]; intros [|i idx]; simpl; try tauto.
  intros [Hi Hv].
  rewrite nth_flat_map_block with (m := numel s);
    [| intros; now rewrite length_map, length_indices | assumption
     | now apply ravel_lt ].
  simpl. rewrite nth_indep with (d' := i :: d)
    by (rewrite length_map, length_indices; now apply ravel_lt).
  rewrite map_nth. now rewrite IH.
Qed.

Lemma get_tabulate {A} (d : A) (s : list nat) (f : list nat -> A) (idx : list nat) :
  valid_idx s idx -> get d (tabulate s f) idx = f idx.
Proof.
  intros Hv. unfold get, tabulate; simpl.
  rewrite nth_indep with (d' := f [])
    by (rewrite length_map, length_indices; now apply ravel_lt).
  rewrite map_nth. now rewrite nth_indices.
Qed.

Lemma in_indices (s idx : list nat) : In idx (indices s) <-> valid_idx s idx.
Proof.
  revert idx; induction s as [|n s IH]; intros idx; simpl.
  - destruct idx; simpl; split; intros H; auto; try tauto.
    + destruct H as [H|[]]; discriminate.
  - rewrite in_flat_map. split.
    + intros (i & Hi & Hin). apply in_map_iff in Hin as (idx' & <- & Hin').
      apply in_seq in Hi. split; [lia|]. now apply IH.
    + destruct idx as [|i idx]; [tauto|]. intros [Hi Hv].
      exists i. split; [apply in_seq; lia|]. apply in_map. now apply IH.
Qed.

Lemma tabulate_ext {A} (s : list nat) (f g : list nat -> A) :
  (forall idx, valid_idx s idx -> f idx = g idx) -> tabulate s f = tabulate s g.
Proof.
  intros H. unfold tabulate. f_equal. apply map_ext_in.
  intros idx Hin. apply H. now apply in_indices.
Qed.

Lemma map_add_seq (a b m : nat) : map (Nat.add a) (seq b m) = seq (a + b) m.
Proof.
  revert b; induction m as [|m IH]; intros b; simpl; [reflexivity|].
  f_equal. rewrite IH. f_equal. lia.
Qed.

Lemma map_ravel_indices (s : list nat) :
  map (ravel s) (indices s) = seq 0 (numel s).
Proof.
  induction s as [|n s IH]; simpl; [reflexivity|].
  assert (H : forall k, map (ravel (n :: s))
                (flat_map (fun i => map (cons i) (indices s)) (seq k n))
              = seq (k * numel s) (n * numel s)).
  { induction n as [|n IHn]; intros k; simpl; [reflexivity|].
    rewrite map_app, IHn, map_map. simpl.
    rewrite seq_app. f_equal; [|f_equal; lia].
    rewrite <- (map_map (ravel s) (Nat.add (k * numel s))), IH, map_add_seq.
    f_equal. lia. }
  specialize (H 0). simpl in H. exact H.
Qed.

Lemma map_nth_seq {A} (l : list A) (d : A) :
  map (fun k => nth k l d) (seq 0 (length l)) = l.
Proof.
  induction l as [|x l IH]; simpl; [reflexivity|].
  f_equal. rewrite <- seq_shift, map_map. exact IH.
Qed.

Lemma nth_map_seq {A} (f : nat -> A) (a n k : nat) (d : A) :
  k < n -> nth k (map f (seq a n)) d = f (a + k).
Proof.
  intros H. rewrite nth_indep with (d' := f 0) by (rewrite length_map, length_seq; lia).
  rewrite map_nth, seq_nth by lia. reflexivity.
Qed.

Lemma tabulate_get {A} (d : A) (t : tensor A) :
  wf t -> tabulate (shape t) (get d t) = t.
Proof.
  intros Hw. destruct t as [s l]; unfold wf, tabulate, get in *; simpl in *.
  f_equal.
  rewrite <- (map_map (ravel s) (fun k => nth k l d)), map_ravel_indices, <- Hw.
  apply map_nth_seq.
Qed.

Lemma valid_idx_length (s idx : list nat) : valid_idx s idx -> length idx = length s.
Proof.
  revert idx; induction s as [|n s IH]; intros [|i idx]; simpl; try tauto.
  intros [_ H]. f_equal. now apply IH.
Qed.

Lemma list_eqb_refl (a : list nat) : list_eqb a a = true.
Proof. unfold list_eqb. destruct (list_eq_dec Nat.eq_dec a a); congruence. Qed.

Lemma list_eqb_eq (a b : list nat) : list_eqb a b = true <-> a = b.
Proof.
  unfold list_eqb. destruct (list_eq_dec Nat.eq_dec a b); split; congruence.
Qed.

Lemma rbind_ret_r {A} (m : result A) : rbind m Ok = m.
Proof. now destruct m. Qed.

Lemma rbind_ok_inv {A B} (m : result A) (k : A -> result B) (b : B) :
  rbind m k = Ok b -> exists a, m = Ok a /\ k a = Ok b.
Proof. destruct m as [a|e]; simpl; [eauto|discriminate]. Qed.

Lemma is_ok_rbind {A B} (m : result A) (k : A -> result B) :
  is_ok (rbind m k) = match m with Ok a => is_ok (k a) | Raise _ => false end.
Proof. now destruct m. Qed.

(** ** The value interpretation computes with values *)

Section PureSpecs.
Context {F : Type} {SF : Scalar F}.

Lemma pure_fresh1 (f : tensor F -> result (tensor F)) (a : tensor F) :
  fresh1 (TT := PureTorch F) f a = f a.
Proof. unfold fresh1; simpl. now destruct (f a). Qed.

Lemma pure_fresh2 (f : tensor F -> tensor F -> result (tensor F)) (a b : tensor F) :
  fresh2 (TT := PureTorch F) f a b = f a b.
Proof. unfold fresh2; simpl. now destruct (f a b). Qed.
End PureSpecs.

(** Runs a program of the value interpretation as far as its operations
    are creations and views. *)
Ltac pure_run :=
  repeat first
    [ rewrite pure_fresh1
    | rewrite pure_fresh2
    | progress cbn [rbind bind ret raise peek alloc view update lift PureTorch] ].

(** ** Shapes produced by the value operations *)

Lemma list_eqb_length (a b : list nat) : length a <> length b -> list_eqb a b = false.
Proof.
  intros H. destruct (list_eqb a b) eqn:E; [|reflexivity].
  apply list_eqb_eq in E. subst. congruence.
Qed.

Lemma shape_v_cat {A} (d : A) (a b r : tensor A) (k : nat) (s : list nat) :
  shape a = s -> 2 <= length s -> length (shape b) = length s ->
  v_cat d a b (Z.of_nat k) = Ok r -> k < length s ->
  shape r = set_nth k (dim s k + dim (shape b) k) s.
Proof.
  intros Ha Hl Hb H Hk. subst s. unfold v_cat in H.
  rewrite !list_eqb_length in H by (simpl; lia).
  unfold norm_dim, rank in H.
  replace ((0 <=? Z.of_nat k)%Z && (Z.of_nat k <? Z.of_nat (length (shape a)))%Z)
    with true in H by (symmetry; apply andb_true_iff; split; [apply Z.leb_le|apply Z.ltb_lt]; lia).
  simpl in H. rewrite Nat2Z.id in H.
  destruct (list_eqb _ _); [|discriminate]. inversion H. reflexivity.
Qed.

Lemma norm_dim_last (r : nat) : r <> 0 -> norm_dim r (-1) = Ok (r - 1).
Proof.
  intros H. unfold norm_dim. simpl.
  destruct (- Z.of_nat r <=? -1)%Z eqn:E; [|apply Z.leb_gt in E; lia].
  f_equal. lia.
Qed.

(** ** Construction under the value interpretation *)

Section InitLemmas.
Context {F : Type} {SF : Scalar F}.
Variable init : list nat -> list nat -> F.

Local Abbreviation PT := (PureTorch F).

Lemma select_norm_pure (dim_ : nat) (eps : F) (nt : string) :
  select_norm (TT := PT) dim_ eps nt =
    if String.eqb "layer_norm" nt then Ok (LayerNorm eps (v_ones [dim_]) (v_zeros [dim_]))
    else if String.eqb "rms" nt then Ok (RMSNorm eps (v_ones [dim_]))
    else Raise KeyError.
Proof.
  unfold select_norm, LayerNorm_init, RMSNorm_init; cbn -[String.eqb].
  destruct (String.eqb "layer_norm" nt); [reflexivity|].
  destruct (String.eqb "rms" nt); reflexivity.
Qed.

Lemma select_norm_error (dim_ : nat) (eps : F) (nt : string) :
  error_of (select_norm (TT := PT) dim_ eps nt) =
    if known_norm nt then None else Some KeyError.
Proof.
  rewrite select_norm_pure. unfold known_norm.
  destruct (String.eqb "layer_norm" nt); [reflexivity|].
  destruct (String.eqb "rms" nt); reflexivity.
Qed.

Lemma select_norm_eps (dim_ : nat) (eps : F) (nt : string) (n : Norm) :
  select_norm (TT := PT) dim_ eps nt = Ok n -> norm_eps n = eps.
Proof.
  rewrite select_norm_pure.
  destruct (String.eqb "layer_norm" nt); [intros [= <-]; reflexivity|].
  destruct (String.eqb "rms" nt); [intros [= <-]; reflexivity|discriminate].
Qed.

(** The angles [idx * inv_freq] of the rotary tables, as they stand
    after [torch.cat((freqs, freqs), dim=-1)]. *)
Lemma rotary_mat_pure (hidden_size num_heads n : nat) :
  num_heads <> 0 ->
  exists fr : tensor F,
    rotary_mat (TT := PT) hidden_size num_heads n = Ok (tmap fcos fr, tmap fsin fr)
    /\ shape fr = [n; arange2_len hidden_size num_heads + arange2_len hidden_size num_heads]
    /\ wf fr
    /\ forall p j, p < n ->
         j < arange2_len hidden_size num_heads + arange2_len hidden_size num_heads ->
         exists f, get fzero fr [p; j] = fmul (of_Z (Z.of_nat p)) f.
Proof.
  intros Hh. unfold rotary_mat.
  destruct (num_heads =? 0) eqn:E; [apply Nat.eqb_eq in E; contradiction|].
  set (len := arange2_len hidden_size num_heads).
  unfold t_to, t_outer, t_cat, t_map.
  pure_run. unfold v_outer. cbn [shape tmap v_arange v_arange2].
  fold len. pure_run. unfold v_cat.
  cbn [shape tabulate].
  rewrite !list_eqb_length by (simpl; lia).
  unfold rank; cbn [shape tabulate length].
  rewrite norm_dim_last by lia. cbn [rbind Nat.sub].
  rewrite list_eqb_refl. pure_run.
  eexists. split; [reflexivity|].
  split; [reflexivity|]. split; [apply wf_tabulate|].
  intros p j Hp Hj.
  rewrite get_tabulate by (simpl; unfold dim; simpl; lia).
  cbn [nth dim set_nth].
  destruct (j <? len) eqn:Ej.
  - apply Nat.ltb_lt in Ej. rewrite get_tabulate by (simpl; lia).
    cbn [nth]. eexists. f_equal.
    unfold get, v_arange; cbn [shape data ravel numel fold_right].
    rewrite Nat.mul_1_r, Nat.add_0_r.
    rewrite nth_map_seq by lia. reflexivity.
  - apply Nat.ltb_ge in Ej. rewrite get_tabulate by (simpl; lia).
    cbn [nth]. eexists. f_equal.
    unfold get, v_arange; cbn [shape data ravel numel fold_right].
    rewrite Nat.mul_1_r, Nat.add_0_r.
    rewrite nth_map_seq by lia. reflexivity.
Qed.

Lemma SelfAttention_init_pure (hidden_size num_heads kv : nat) (st : string) :
  match SelfAttention_init (TT := PT) init hidden_size num_heads kv st with
  | Ok sa =>
      num_heads <> 0 /\ known_scale st = true /\
      sa_num_heads sa = num_heads /\ sa_num_key_value_heads sa = kv /\
      head_dim sa = hidden_size / num_heads /\ sa_hidden_size sa = hidden_size
  | Raise e =>
      (num_heads = 0 /\ e = ZeroDivisionError) \/
      (num_heads <> 0 /\ known_scale st = false /\ e = ValueError)
  end.
Proof.
  unfold SelfAttention_init, known_scale.
  destruct (num_heads =? 0) eqn:E.
  - apply Nat.eqb_eq in E. cbn. auto.
  - apply Nat.eqb_neq in E. unfold Linear_init. pure_run.
    destruct (String.eqb st "HeadDim") eqn:E1.
    + apply String.eqb_eq in E1; subst st. cbn. auto 10.
    + rewrite String.eqb_sym in E1. rewrite E1.
      destruct (String.eqb st "SquareRootHeadDim") eqn:E2.
      * apply String.eqb_eq in E2; subst st. cbn. auto 10.
      * rewrite String.eqb_sym in E2. rewrite E2. cbn. auto.
Qed.

Lemma TransformerLayer_init_pure (hidden_size inter num_heads kv : nat)
    (st nt : string) (eps : F) :
  match TransformerLayer_init (TT := PT) init hidden_size inter num_heads kv st nt eps with
  | Ok l =>
      construction_error 1 num_heads st nt = None /\
      norm_eps (input_layernorm l) = eps /\
      norm_eps (post_attention_layernorm l) = eps /\
      rotary_mat (TT := PT) hidden_size num_heads rotary_max_seq_len
        = Ok (layer_cos l, layer_sin l) /\
      sa_num_heads (self_attn l) = num_heads /\
      sa_num_key_value_heads (self_attn l) = kv /\
      head_dim (self_attn l) = hidden_size / num_heads
  | Raise e => construction_error 1 num_heads st nt = Some e
  end.
Proof.
  unfold TransformerLayer_init, construction_error.
  cbn [bind PureTorch].
  pose proof (select_norm_error hidden_size eps nt) as Hn.
  destruct (select_norm hidden_size eps nt) as [n1|e1] eqn:E1; cbn [rbind];
    cbn [error_of] in Hn.
  2:{ destruct (known_norm nt); [discriminate|]. cbn. congruence. }
  destruct (known_norm nt); [|discriminate]. cbn [negb Nat.eqb].
  destruct (num_heads =? 0) eqn:Eh.
  { apply Nat.eqb_eq in Eh; subst. reflexivity. }
  apply Nat.eqb_neq in Eh.
  destruct (rotary_mat_pure hidden_size rotary_max_seq_len Eh) as (fr & Hr & _).
  rewrite Hr. cbn [rbind].
  pose proof (SelfAttention_init_pure hidden_size num_heads kv st) as Hs.
  destruct (SelfAttention_init init hidden_size num_heads kv st) as [sa|e]; cbn [rbind].
  - destruct Hs as (_ & Hk & H1 & H2 & H3 & _). rewrite Hk.
    unfold ProjLayerSiluMatMul_init, Linear_init. pure_run. cbn.
    repeat split; auto; eapply select_norm_eps; eassumption.
  - destruct Hs as [[Hz _]|(_ & Hk & ->)]; [contradiction|]. now rewrite Hk.
Qed.

Lemma make_layers_pure (n : nat) (mk : result TransformerLayer) :
  make_layers (TT := PT) n mk =
    match n, mk with
    | 0, _ => Ok []
    | S _, Ok l => Ok (repeat l n)
    | S _, Raise e => Raise e
    end.
Proof.
  induction n as [|n IH]; [reflexivity|].
  cbn [make_layers bind PureTorch]. destruct mk as [l|e]; cbn [rbind]; [|reflexivity].
  rewrite IH. destruct n; reflexivity.
Qed.

Lemma construction_error_layers (n num_heads : nat) (st nt : string) :
  construction_error (S n) num_heads st nt = construction_error 1 num_heads st nt.
Proof. reflexivity. Qed.

Lemma Model_init_pure (n_layers vocab hidden_size inter num_heads kv : nat)
    (st nt : string) (eps : F) :
  match Model_init (TT := PT) init n_layers vocab hidden_size inter num_heads kv st nt eps with
  | Ok m =>
      construction_error n_layers num_heads st nt = None /\
      select_norm (TT := PT) hidden_size f_1e_5 nt = Ok (norm m) /\
      length (layers m) = n_layers /\
      Forall (fun l =>
                TransformerLayer_init (TT := PT) init hidden_size inter num_heads kv st nt eps
                  = Ok l) (layers m)
  | Raise e => construction_error n_layers num_heads st nt = Some e
  end.
Proof.
  unfold Model_init. cbn [bind alloc PureTorch rbind].
  pose proof (select_norm_error hidden_size f_1e_5 nt) as Hn.
  destruct (select_norm hidden_size f_1e_5 nt) as [nrm|e1] eqn:E1; cbn [rbind];
    cbn [error_of] in Hn.
  2:{ unfold construction_error. destruct (known_norm nt); [discriminate|]. cbn. congruence. }
  rewrite make_layers_pure.
  destruct n_layers as [|n].
  { cbn [rbind ret PureTorch layers norm length]. unfold construction_error.
    destruct (known_norm nt); [|discriminate]. cbn. auto. }
  rewrite construction_error_layers.
  pose proof (TransformerLayer_init_pure hidden_size inter num_heads kv st nt eps) as Hl.
  destruct (TransformerLayer_init init hidden_size inter num_heads kv st nt eps) as [l|e];
    cbn [rbind ret PureTorch layers norm]; [|exact Hl].
  destruct Hl as (Hc & _). repeat split; auto.
  - apply repeat_length.
  - apply Forall_forall. intros x Hx. apply repeat_spec in Hx. now subst.
Qed.

Lemma DecoderModel_init_pure (n_layers vocab hidden_size inter num_heads kv : nat)
    (st nt : string) (eps : F) :
  match DecoderModel_init (TT := PT) init n_layers vocab hidden_size inter num_heads kv st nt eps with
  | Ok dm =>
      Model_init (TT := PT) init n_layers vocab hidden_size inter num_heads kv st nt eps
        = Ok (model dm)
  | Raise e =>
      Model_init (TT := PT) init n_layers vocab hidden_size inter num_heads kv st nt eps
        = Raise e
  end.
Proof.
  unfold DecoderModel_init. cbn [bind PureTorch].
  destruct (Model_init init n_layers vocab hidden_size inter num_heads kv st nt eps);
    cbn [rbind]; [|reflexivity].
  unfold Linear_init. pure_run. reflexivity.
Qed.

Lemma DecoderModel_init_succeeds (n_layers vocab hidden_size inter num_heads kv : nat)
    (st nt : string) (eps : F) :
  construction_error n_layers num_heads st nt = None ->
  exists dm,
    DecoderModel_init (TT := PT) init n_layers vocab hidden_size inter num_heads kv st nt eps
      = Ok dm.
Proof.
  intros Hc.
  pose proof (DecoderModel_init_pure n_layers vocab hidden_size inter num_heads kv st nt eps) as Hd.
  pose proof (Model_init_pure n_layers vocab hidden_size inter num_heads kv st nt eps) as Hm.
  destruct (DecoderModel_init _ _ _ _ _ _ _ _ _ _) as [dm|e]; [eauto|].
  rewrite Hd in Hm. congruence.
Qed.
End InitLemmas.

(** ** Row numbers outside the rotary tables *)

Lemma shape_v_slice {A} (d : A) (t r : tensor A) (k lo hi : nat) :
  v_slice d t k lo hi = Ok r -> shape r = set_nth k (hi - lo) (shape t).
Proof.
  unfold v_slice. destruct (k <? rank t); [|discriminate].
  intros [= <-]. reflexivity.
Qed.

Lemma v_index_rows_out_of_range {A} (d : A) (table : tensor A) (ids : tensor Z)
    (n : nat) (rest : list nat) (z : Z) :
  shape table = n :: rest -> In z (data ids) -> row_of n z = None ->
  v_index_rows d table ids = Raise IndexError.
Proof.
  intros Hs Hin Hz. unfold v_index_rows. rewrite Hs.
  destruct (forallb _ (data ids)) eqn:E; [|reflexivity].
  rewrite forallb_forall in E. specialize (E z Hin). now rewrite Hz in E.
Qed.

Lemma row_of_too_large (n : nat) (z : Z) : (Z.of_nat n <= z)%Z -> row_of n z = None.
Proof.
  intros H. unfold row_of.
  destruct (z <? Z.of_nat n)%Z eqn:E1; [apply Z.ltb_lt in E1; lia|].
  destruct (z <? 0)%Z eqn:E2; [apply Z.ltb_lt in E2; lia|].
  now rewrite andb_false_r.
Qed.

(** Discharges one step of a program that is bound to fail later. *)
Ltac skip_step :=
  rewrite is_ok_rbind;
  match goal with
  | |- match ?m with Ok _ => _ | Raise _ => false end = false =>
      destruct m; [|reflexivity]
  end.

Section RopeFails.
Context {F : Type} {SF : Scalar F}.

Local Abbreviation PT := (PureTorch F).

Lemma apply_rope_out_of_range (x cos sin : tensor F) (position_ids : tensor Z)
    (n : nat) (rest : list nat) (z : Z) :
  shape cos = n :: rest -> In z (data position_ids) -> row_of n z = None ->
  is_ok (apply_rope (TT := PT) x cos sin position_ids) = false.
Proof.
  intros Hs Hin Hz. unfold apply_rope, t_shape, t_slice_axis, t_index_rows.
  pure_run.
  destruct (shape_last (shape x)) as [hd|e]; pure_run; [|reflexivity].
  destruct (py_slice (dim (shape cos) 1) None (Some (Z.of_nat hd))) as [lo hi].
  destruct (v_slice fzero cos 1 lo hi) as [c|e] eqn:Ec; pure_run; [|reflexivity].
  skip_step. pure_run.
  rewrite (@v_index_rows_out_of_range F fzero c position_ids n
             (set_nth 0 (hi - lo) rest) z); auto.
  apply shape_v_slice in Ec. rewrite Ec, Hs. reflexivity.
Qed.

Lemma SelfAttention_forward_out_of_range (sa : SelfAttention) (use_cache : bool)
    (x : tensor F) (position_ids : tensor Z) (attn_mask cos sin k_cache v_cache : tensor F)
    (n : nat) (rest : list nat) (z : Z) :
  shape cos = n :: rest -> In z (data position_ids) -> row_of n z = None ->
  is_ok (SelfAttention_forward (TT := PT) sa use_cache x position_ids attn_mask
           cos sin k_cache v_cache) = false.
Proof.
  intros Hs Hin Hz. unfold SelfAttention_forward, RotaryEmbedding_forward.
  cbn [bind PureTorch].
  do 12 skip_step.
  rewrite is_ok_rbind.
  match goal with
  | |- context [apply_rope ?q cos sin position_ids] =>
      pose proof (@apply_rope_out_of_range q cos sin position_ids n rest z Hs Hin Hz) as H;
      destruct (apply_rope q cos sin position_ids); [discriminate|reflexivity]
  end.
Qed.

Lemma TransformerLayer_forward_out_of_range (l : TransformerLayer) (use_cache : bool)
    (x : tensor F) (position_ids : tensor Z) (attn_mask k_cache v_cache : tensor F)
    (n : nat) (rest : list nat) (z : Z) :
  shape (layer_cos l) = n :: rest -> In z (data position_ids) -> row_of n z = None ->
  is_ok (TransformerLayer_forward (TT := PT) l use_cache x position_ids attn_mask
           k_cache v_cache) = false.
Proof.
  intros Hs Hin Hz. unfold TransformerLayer_forward. cbn [bind PureTorch].
  skip_step. rewrite is_ok_rbind.
  match goal with
  | |- context [SelfAttention_forward ?sa ?u ?y ?p ?m ?c ?s ?k ?v] =>
      pose proof (@SelfAttention_forward_out_of_range sa u y p m c s k v n rest z
                    Hs Hin Hz) as H;
      destruct (SelfAttention_forward sa u y p m c s k v); [discriminate|reflexivity]
  end.
Qed.

Lemma Model_layers_out_of_range (l : TransformerLayer) (ls : list TransformerLayer)
    (layer_idx : nat) (use_cache : bool) (x : tensor F) (position_ids : tensor Z)
    (attn_mask : tensor F) (cache : list cache_entry)
    (n : nat) (rest : list nat) (z : Z) :
  shape (layer_cos l) = n :: rest -> In z (data position_ids) -> row_of n z = None ->
  is_ok (Model_layers (TT := PT) (l :: ls) layer_idx use_cache x position_ids
           attn_mask cache) = false.
Proof.
  intros Hs Hin Hz. cbn [Model_layers].
  destruct (nth_error cache layer_idx) as [c|]; [|reflexivity].
  unfold t_clone, t_detach. pure_run. rewrite is_ok_rbind.
  match goal with
  | |- context [TransformerLayer_forward l ?u ?y ?p ?m ?k ?v] =>
      pose proof (@TransformerLayer_forward_out_of_range l u y p m k v n rest z
                    Hs Hin Hz) as H;
      destruct (TransformerLayer_forward l u y p m k v); [discriminate|reflexivity]
  end.
Qed.

Lemma forward_common_out_of_range (dm : DecoderModel) (l : TransformerLayer)
    (ls : list TransformerLayer) (use_cache : bool) (tokens position_ids : tensor Z)
    (attn_mask : tensor F) (cache : list cache_entry)
    (n : nat) (rest : list nat) (z : Z) :
  layers (model dm) = l :: ls ->
  shape (layer_cos l) = n :: rest -> In z (data position_ids) -> row_of n z = None ->
  is_ok (forward_common (TT := PT) dm use_cache tokens position_ids attn_mask cache)
    = false.
Proof.
  intros Hl Hs Hin Hz. unfold forward_common, Model_forward. cbn [bind PureTorch].
  rewrite !is_ok_rbind.
  destruct (t_embedding (embed_tokens (model dm)) tokens) as [x|e]; cbn [rbind]; [|reflexivity].
  rewrite Hl.
  pose proof (@Model_layers_out_of_range l ls 0 use_cache x position_ids attn_mask
                cache n rest z Hs Hin Hz) as H.
  destruct (Model_layers (l :: ls) 0 use_cache x position_ids attn_mask cache);
    [discriminate|reflexivity].
Qed.
End RopeFails.

(** ** Shapes of results *)

Lemma shape_v_reshape {A} (t r : tensor A) (s : list nat) :
  v_reshape t s = Ok r -> shape r = s.
Proof. unfold v_reshape. destruct (_ =? _); [intros [= <-]; reflexivity|discriminate]. Qed.

Lemma shape_v_transpose_1_2 {A} (d : A) (t r : tensor A) (a b c e : nat) :
  shape t = [a; b; c; e] -> v_transpose d t 1 2 = Ok r -> shape r = [a; c; b; e].
Proof.
  intros Hs. unfold v_transpose, v_permute, rank. rewrite Hs. cbn.
  intros [= <-]. reflexivity.
Qed.

Lemma shape_v_permute4 {A} (d : A) (t r : tensor A) (a b c e : nat) (p : list nat) :
  shape t = [a; b; c; e] -> v_permute d t p = Ok r ->
  shape r = map (dim [a; b; c; e]) p.
Proof.
  intros Hs. unfold v_permute. destruct (is_perm _ _); [|discriminate].
  intros [= <-]. cbn [shape tabulate]. now rewrite Hs.
Qed.

Lemma shape_v_unsqueeze {A} (t r : tensor A) (k : nat) :
  v_unsqueeze t k = Ok r -> shape r = insert_at k 1 (shape t) /\ data r = data t.
Proof.
  unfold v_unsqueeze. destruct (_ <=? _); [intros [= <-]; auto|discriminate].
Qed.

Lemma shape_v_index_rows {A} (d : A) (table r : tensor A) (ids : tensor Z) :
  v_index_rows d table ids = Ok r -> shape r = shape ids ++ tl (shape table).
Proof.
  unfold v_index_rows. destruct (shape table) as [|n rest]; [discriminate|].
  destruct (forallb _ _); [intros [= <-]; reflexivity|discriminate].
Qed.

Lemma shape_v_embedding {A} (d : A) (w r : tensor A) (ids : tensor Z) :
  v_embedding d w ids = Ok r -> exists h, shape r = shape ids ++ [h].
Proof.
  unfold v_embedding. destruct (shape w) as [|n [|h [|? ?]]]; cbn; try discriminate.
  destruct (forallb _ _); [intros [= <-]; exists h; reflexivity|discriminate].
Qed.

Lemma shape_v_binop {A} (d : A) (f : A -> A -> A) (a b r : tensor A) :
  v_binop d f a b = Ok r -> broadcast_shapes (shape a) (shape b) = Some (shape r).
Proof.
  unfold v_binop. destruct (broadcast_shapes _ _); [intros [= <-]; reflexivity|discriminate].
Qed.

(** Broadcasting keeps the leading axes on which the operands agree. *)
Ltac split_eqb H :=
  repeat match type of H with
         | context [?a =? ?b] => destruct (a =? b) eqn:?
         end.

Lemma broadcast_3_3 (b n h1 h2 : nat) (s : list nat) :
  broadcast_shapes [b; n; h1] [b; n; h2] = Some s -> exists h, s = [b; n; h].
Proof.
  unfold broadcast_shapes. cbn. rewrite !Nat.eqb_refl. intros H.
  split_eqb H; inversion H; eauto.
Qed.

Lemma broadcast_1_3 (w b n h : nat) (s : list nat) :
  broadcast_shapes [w] [b; n; h] = Some s -> exists h', s = [b; n; h'].
Proof.
  unfold broadcast_shapes. cbn. intros H. split_eqb H; inversion H; eauto.
Qed.

Lemma broadcast_3_1 (w b n h : nat) (s : list nat) :
  broadcast_shapes [b; n; h] [w] = Some s -> exists h', s = [b; n; h'].
Proof.
  unfold broadcast_shapes. cbn. intros H. split_eqb H; inversion H; eauto.
Qed.

Lemma broadcast_4_4 (b1 b2 h n d1 d2 : nat) (s : list nat) :
  broadcast_shapes [b1; h; n; d1] [b2; 1; n; d2] = Some s ->
  exists b' d', s = [b'; h; n; d'].
Proof.
  unfold broadcast_shapes. cbn. rewrite !Nat.eqb_refl. intros H.
  destruct (h =? 1) eqn:Eh; [apply Nat.eqb_eq in Eh; subst|];
    split_eqb H; inversion H; eauto.
Qed.

Lemma broadcast_4_same (b1 b2 h n d1 d2 : nat) (s : list nat) :
  broadcast_shapes [b1; h; n; d1] [b2; h; n; d2] = Some s ->
  exists b' d', s = [b'; h; n; d'].
Proof.
  unfold broadcast_shapes. cbn. rewrite !Nat.eqb_refl. intros H.
  split_eqb H; inversion H; eauto.
Qed.

Section FloatShapes.
Context {F : Type} {SF : Scalar F}.

Lemma shape_v_linear3 (x w r : tensor F) (b n h : nat) :
  shape x = [b; n; h] -> v_linear x w = Ok r -> exists o, shape r = [b; n; o].
Proof.
  intros Hs. unfold v_linear. rewrite Hs. cbn [rev app].
  destruct (shape w) as [|o [|i [|? ?]]]; cbn; try discriminate.
  destruct (h =? i); [intros [= <-]; exists o; reflexivity|discriminate].
Qed.

Lemma shape_v_mean_last3 (x r : tensor F) (b n h : nat) :
  shape x = [b; n; h] -> v_mean_last x = Ok r -> shape r = [b; n; 1].
Proof.
  intros Hs. unfold v_mean_last. rewrite Hs. cbn [rev app].
  intros [= <-]. reflexivity.
Qed.
End FloatShapes.

(** ** Shapes along the forward pass *)

Ltac pure_run_in H :=
  repeat first
    [ rewrite pure_fresh1 in H
    | rewrite pure_fresh2 in H
    | progress cbn [rbind bind ret raise peek alloc view update lift PureTorch] in H ].

(** Splits a successful run into its successful steps. *)
Ltac inv_run H :=
  repeat (pure_run_in H;
          match type of H with
          | rbind _ _ = Ok _ =>
              let x := fresh "t" in
              let Hx := fresh "E" in
              apply rbind_ok_inv in H; destruct H as (x & Hx & H)
          end);
  pure_run_in H.

Lemma shape_v_cat_last {A} (d : A) (a b r : tensor A) (s1 s2 : list nat) (x y : nat) :
  shape a = s1 ++ [x] -> shape b = s2 ++ [y] -> length s1 = length s2 ->
  1 <= length s1 ->
  v_cat d a b (-1) = Ok r -> shape r = s1 ++ [x + y].
Proof.
  intros Ha Hb Hl H1 H. unfold v_cat in H.
  rewrite !list_eqb_length in H by (rewrite ?Ha, ?Hb, ?length_app; simpl; lia).
  rewrite norm_dim_last in H by (unfold rank; rewrite Ha, length_app; simpl; lia).
  cbn [rbind] in H. destruct (list_eqb _ _); [|discriminate].
  injection H as <-. cbn [shape tabulate]. unfold rank, dim. rewrite Ha, Hb.
  rewrite !length_app. cbn [length].
  replace (length s1 + 1 - 1) with (length s1) by lia.
  rewrite app_nth2 by lia. rewrite Hl at 2. rewrite app_nth2 by lia.
  rewrite <- Hl, !Nat.sub_diag. cbn [nth].
  clear. induction s1 as [|z s1 IH]; [reflexivity|]. simpl. now rewrite IH.
Qed.

Section ForwardShapes.
Context {F : Type} {SF : Scalar F}.

Local Abbreviation PT := (PureTorch F).

Lemma shape_rank1 {A} (t : tensor A) : rank t = 1 -> exists w, shape t = [w].
Proof.
  unfold rank. destruct (shape t) as [|w [|? ?]]; try discriminate. eauto.
Qed.

Lemma shape_rank2 {A} (t : tensor A) : rank t = 2 -> exists a b, shape t = [a; b].
Proof.
  unfold rank. destruct (shape t) as [|a [|b [|? ?]]]; try discriminate. eauto.
Qed.

Lemma shape_rank4 {A} (t : tensor A) :
  rank t = 4 -> exists a b c e, shape t = [a; b; c; e].
Proof.
  unfold rank. destruct (shape t) as [|a [|b [|c [|e [|? ?]]]]]; try discriminate.
  eauto 6.
Qed.

Lemma Norm_forward_shape (nm : Norm) (x r : tensor F) (b n h : nat) :
  norm_ok nm -> shape x = [b; n; h] ->
  Norm_forward (TT := PT) nm x = Ok r -> exists h', shape r = [b; n; h'].
Proof.
  intros Hok Hs H. destruct nm as [eps w bias|eps w]; cbn [Norm_forward norm_ok] in *.
  - destruct Hok as [Hw Hb].
    apply shape_rank1 in Hw as [ww Hw]. apply shape_rank1 in Hb as [wb Hb].
    unfold LayerNorm_forward, t_mean_last, t_sub, t_map, t_div, t_mul, t_add in H.
    inv_run H.
    apply shape_v_mean_last3 with (1 := Hs) in E.
    apply shape_v_binop in E0. rewrite Hs, E in E0.
    apply broadcast_3_3 in E0 as [h1 E0].
    assert (Hsq : shape (tmap (fun v => fmul v v) t0) = [b; n; h1]) by exact E0.
    apply shape_v_mean_last3 with (1 := Hsq) in E1.
    apply shape_v_binop in E2. cbn [shape tmap] in E2. rewrite E0, E1 in E2.
    apply broadcast_3_3 in E2 as [h2 E2].
    apply shape_v_binop in E3. rewrite Hw, E2 in E3.
    apply broadcast_1_3 in E3 as [h3 E3].
    apply shape_v_binop in H. rewrite E3, Hb in H.
    apply broadcast_3_1 in H as [h4 H]. eauto.
  - apply shape_rank1 in Hok as [ww Hw].
    unfold RMSNorm_forward, t_to, t_mean_last, t_map, t_mul in H.
    inv_run H.
    assert (Hsq : shape (tmap (fun v => fmul v v) x) = [b; n; h]) by exact Hs.
    apply shape_v_mean_last3 with (1 := Hsq) in E.
    apply shape_v_binop in E0. cbn [shape tmap] in E0. rewrite Hs, E in E0.
    apply broadcast_3_3 in E0 as [h1 E0].
    apply shape_v_binop in H. rewrite Hw, E0 in H.
    apply broadcast_1_3 in H as [h2 H]. eauto.
Qed.

Lemma ProjLayerSiluMatMul_forward_shape (m : ProjLayerSiluMatMul) (x r : tensor F)
    (b n h : nat) :
  shape x = [b; n; h] ->
  ProjLayerSiluMatMul_forward (TT := PT) m x = Ok r -> exists o, shape r = [b; n; o].
Proof.
  intros Hs H.
  unfold ProjLayerSiluMatMul_forward, Linear_forward, t_linear, t_map, t_mul in H.
  inv_run H.
  apply shape_v_linear3 with (1 := Hs) in E as [i1 E].
  apply shape_v_binop in E0. cbn [shape tmap] in E0. rewrite E in E0.
  apply broadcast_3_3 in E0 as [i2 E0].
  apply shape_v_linear3 with (1 := Hs) in E1 as [i3 E1].
  apply shape_v_binop in E2. rewrite E0, E1 in E2.
  apply broadcast_3_3 in E2 as [i4 E2].
  apply shape_v_linear3 with (1 := E2) in H. exact H.
Qed.
End ForwardShapes.

(** ** Shapes through the rotary embedding *)

Section RopeShapes.
Context {F : Type} {SF : Scalar F}.

Local Abbreviation PT := (PureTorch F).

Lemma rotate_half_shape (x r : tensor F) (a b c e : nat) :
  shape x = [a; b; c; e] ->
  rotate_half (TT := PT) x = Ok r -> exists e', shape r = [a; b; c; e'].
Proof.
  intros Hs H.
  unfold rotate_half, t_shape, t_slice_last, t_neg, t_map, t_cat in H.
  pure_run_in H. unfold rank in H. rewrite !Hs in H.
  cbn [shape_last rev app length Nat.sub] in H.
  inv_run H.
  apply shape_v_slice in E, E0. rewrite Hs in E, E0. cbn [set_nth] in E, E0.
  eexists.
  eapply shape_v_cat_last with (s1 := [a; b; c]) (s2 := [a; b; c]) (5 := H);
    [exact E0|exact E|reflexivity|simpl; lia].
Qed.

Lemma apply_rope_shape (x cos sin r : tensor F) (position_ids : tensor Z)
    (b b' h n e : nat) :
  shape x = [b; h; n; e] -> shape position_ids = [b'; n] ->
  rank cos = 2 -> rank sin = 2 ->
  apply_rope (TT := PT) x cos sin position_ids = Ok r ->
  exists b'' e', shape r = [b''; h; n; e'].
Proof.
  intros Hs Hp Hc Hsn H.
  apply shape_rank2 in Hc as (c1 & c2 & Hc). apply shape_rank2 in Hsn as (s1 & s2 & Hsn).
  unfold apply_rope, t_shape, t_slice_axis, t_index_rows, t_unsqueeze, t_mul, t_add in H.
  pure_run_in H. rewrite !Hs in H. cbn [shape_last rev app] in H.
  inv_run H.
  apply shape_v_slice in E, E0. rewrite Hc in E. rewrite Hsn in E0.
  apply shape_v_index_rows in E1, E3. rewrite Hp, E in E1. rewrite Hp, E0 in E3.
  apply shape_v_unsqueeze in E2 as [E2 _], E4 as [E4 _].
  rewrite E1 in E2. rewrite E3 in E4. cbn in E2, E4.
  apply shape_v_binop in E5. rewrite Hs, E2 in E5.
  apply broadcast_4_4 in E5 as (b1 & e1 & E5).
  apply rotate_half_shape with (1 := Hs) in E6 as [e2 E6].
  apply shape_v_binop in E7. rewrite E6, E4 in E7.
  apply broadcast_4_4 in E7 as (b2 & e3 & E7).
  apply shape_v_binop in H. rewrite E5, E7 in H.
  apply broadcast_4_same in H as (b3 & e4 & H). eauto.
Qed.
End RopeShapes.

(** ** The caches a layer returns *)

Section CacheShapes.
Context {F : Type} {SF : Scalar F}.

Local Abbreviation PT := (PureTorch F).

Lemma SelfAttention_forward_shapes (sa : SelfAttention) (use_cache : bool)
    (x : tensor F) (position_ids : tensor Z)
    (attn_mask cos sin k_cache v_cache out k' v' : tensor F) (b b' n h : nat) :
  shape x = [b; n; h] -> shape position_ids = [b'; n] ->
  rank cos = 2 -> rank sin = 2 -> rank k_cache = 4 -> rank v_cache = 4 ->
  SelfAttention_forward (TT := PT) sa use_cache x position_ids attn_mask cos sin
    k_cache v_cache = Ok (out, k', v') ->
  (exists o, shape out = [b; n; o]) /\
  shape k' = set_nth 2 (seq_len k_cache + n) (shape k_cache) /\
  shape v' = set_nth 2 (seq_len v_cache + n) (shape v_cache).
Proof.
  intros Hs Hp Hc Hsn Hk Hv H.
  unfold SelfAttention_forward, RotaryEmbedding_forward, Linear_forward, t_linear,
    t_shape, t_reshape, t_transpose, t_cat, t_permute, t_matmul, t_map,
    t_softmax_last in H.
  pure_run_in H. rewrite !Hs in H. cbn [shape_at nth_error] in H.
  inv_run H.
  injection H as <- <- <-.
  apply shape_v_reshape in E4, E6, E19.
  apply shape_v_transpose_1_2 with (1 := E4) in E5.
  apply shape_v_transpose_1_2 with (1 := E6) in E7.
  apply apply_rope_shape with (1 := E5) (2 := Hp) (3 := Hc) (4 := Hsn) in E9
    as (b1 & e1 & E9).
  unfold rank in Hk, Hv.
  split; [|split].
  - eapply shape_v_linear3; eassumption.
  - unfold seq_len.
    replace n with (dim (shape t9) 2) at 1 by (rewrite E9; reflexivity).
    apply shape_v_cat with (k := 2) (4 := E10); auto;
      rewrite ?E9, ?Hk; simpl; lia.
  - unfold seq_len.
    replace n with (dim (shape t7) 2) at 1 by (rewrite E7; reflexivity).
    apply shape_v_cat with (k := 2) (4 := E11); auto;
      rewrite ?E7, ?Hv; simpl; lia.
Qed.
End CacheShapes.

(** ** The caches a forward call returns *)

Lemma nth_error_skipn {A} (l : list A) (i : nat) (c : A) :
  nth_error l i = Some c -> skipn i l = c :: skipn (S i) l.
Proof.
  revert i; induction l as [|a l IH]; intros [|i]; simpl; try discriminate.
  - now intros [= ->].
  - intros H. now apply IH.
Qed.

Lemma Forall_skipn {A} (P : A -> Prop) (l : list A) (i : nat) :
  Forall P l -> Forall P (skipn i l).
Proof.
  revert i; induction l as [|a l IH]; intros [|i] H; simpl; auto.
  inversion H; auto.
Qed.

Section ModelShapes.
Context {F : Type} {SF : Scalar F}.

Local Abbreviation PT := (PureTorch F).

Lemma TransformerLayer_forward_shapes (l : TransformerLayer) (use_cache : bool)
    (x : tensor F) (position_ids : tensor Z)
    (attn_mask k_cache v_cache out k' v' : tensor F) (b b' n h : nat) :
  layer_ok l -> shape x = [b; n; h] -> shape position_ids = [b'; n] ->
  rank k_cache = 4 -> rank v_cache = 4 ->
  TransformerLayer_forward (TT := PT) l use_cache x position_ids attn_mask
    k_cache v_cache = Ok (out, k', v') ->
  (exists h', shape out = [b; n; h']) /\
  shape k' = set_nth 2 (seq_len k_cache + n) (shape k_cache) /\
  shape v' = set_nth 2 (seq_len v_cache + n) (shape v_cache).
Proof.
  intros (Hn1 & Hn2 & Hc & Hsn) Hs Hp Hk Hv H.
  unfold TransformerLayer_forward in H. cbn [bind PureTorch] in H.
  apply rbind_ok_inv in H as (nx & E1 & H).
  apply rbind_ok_inv in H as ([[a k0] v0] & E2 & H).
  unfold t_add in H. inv_run H. injection H as <- <- <-.
  apply Norm_forward_shape with (1 := Hn1) (2 := Hs) in E1 as [h1 E1].
  apply SelfAttention_forward_shapes with (1 := E1) (2 := Hp) in E2
    as ([o Ho] & Hk' & Hv'); auto.
  split; [|auto].
  apply shape_v_binop in E. rewrite Hs, Ho in E.
  apply broadcast_3_3 in E as [h2 E].
  apply Norm_forward_shape with (1 := Hn2) (2 := E) in E0 as [h3 E0].
  apply ProjLayerSiluMatMul_forward_shape with (1 := E0) in E3 as [h4 E3].
  apply shape_v_binop in E4. rewrite E, E3 in E4.
  apply broadcast_3_3 in E4 as [h5 E4]. eauto.
Qed.

Lemma Model_layers_shapes (ls : list TransformerLayer) :
  forall (layer_idx : nat) (use_cache : bool) (x : tensor F) (position_ids : tensor Z)
         (attn_mask : tensor F) (cache : list cache_entry) (y : tensor F)
         (ks vs : list (tensor F)) (b b' n h : nat),
  Forall layer_ok ls -> shape x = [b; n; h] -> shape position_ids = [b'; n] ->
  Forall cache_4d cache ->
  Model_layers (TT := PT) ls layer_idx use_cache x position_ids attn_mask cache
    = Ok (y, ks, vs) ->
  (exists h', shape y = [b; n; h']) /\
  Forall2 (grown n) (firstn (length ls) (skipn layer_idx cache))
          (unpack_caches (interleave ks vs)).
Proof.
  induction ls as [|l rest IH]; intros idx uc x pos mask cache y ks vs b b' n h
    Hok Hs Hp Hc H.
  - cbn in H. injection H as <- <- <-. split; [eauto|constructor].
  - cbn [Model_layers] in H.
    destruct (nth_error cache idx) as [c|] eqn:Ec; [|discriminate].
    unfold t_clone, t_detach in H. pure_run_in H.
    apply rbind_ok_inv in H as ([[x' k0] v0] & E1 & H).
    apply rbind_ok_inv in H as ([[y' ks'] vs'] & E2 & H).
    cbn in H. injection H as <- <- <-.
    inversion Hok as [|? ? Hl Hrest]; subst.
    assert (H4 : cache_4d c).
    { rewrite Forall_forall in Hc. apply Hc. eapply nth_error_In; eassumption. }
    destruct H4 as [Hk4 Hv4].
    apply TransformerLayer_forward_shapes with (1 := Hl) (2 := Hs) (3 := Hp) in E1
      as ([h1 Hx'] & Hk' & Hv'); auto.
    apply IH with (2 := Hx') (3 := Hp) in E2 as [Hy Hall]; auto.
    split; [exact Hy|].
    rewrite (nth_error_skipn _ _ Ec). cbn [length firstn interleave unpack_caches].
    constructor; [split; assumption|exact Hall].
Qed.

Lemma forward_common_caches (dm : DecoderModel) (use_cache : bool)
    (tokens position_ids : tensor Z) (attn_mask : tensor F)
    (cache : list cache_entry) (outs : list (tensor F)) (b b' n : nat) :
  model_shapes_ok dm -> shape tokens = [b; n] -> shape position_ids = [b'; n] ->
  Forall cache_4d cache ->
  forward_common (TT := PT) dm use_cache tokens position_ids attn_mask cache = Ok outs ->
  Forall2 (grown n) (firstn (length (layers (model dm))) cache) (next_cache outs).
Proof.
  intros Hok Ht Hp Hc H. unfold forward_common, Model_forward in H.
  cbn [bind PureTorch] in H.
  apply rbind_ok_inv in H as ([[hs ks] vs] & E & H).
  apply rbind_ok_inv in E as (x & Ex & E).
  apply rbind_ok_inv in E as ([[x' ks'] vs'] & El & E).
  apply rbind_ok_inv in E as (y & _ & E). cbn in E. injection E as <- <- <-.
  apply rbind_ok_inv in H as (logits & _ & H). cbn in H. injection H as <-.
  unfold t_embedding in Ex. pure_run_in Ex.
  apply shape_v_embedding in Ex as [h Ex]. rewrite Ht in Ex. cbn [app] in Ex.
  apply Model_layers_shapes with (2 := Ex) (3 := Hp) in El as [_ Hall]; auto.
Qed.
End ModelShapes.

(** ** Decoding step by step *)

Lemma set_nth_2_rank4 {A} (t t' : tensor A) (m : nat) :
  rank t = 4 -> shape t' = set_nth 2 m (shape t) -> rank t' = 4 /\ seq_len t' = m.
Proof.
  unfold rank, seq_len. intros H4 H. rewrite H.
  destruct (shape t) as [|a [|b [|c [|e [|? ?]]]]]; try discriminate.
  split; reflexivity.
Qed.

Lemma grown_len {F} (L n : nat) (c c' : cache_entry (T := tensor F)) :
  cache_len L c -> grown n c c' -> cache_len (L + n) c'.
Proof.
  intros ((Hk & Hv) & Lk & Lv) (Gk & Gv).
  apply set_nth_2_rank4 in Gk as [Rk Sk]; [|exact Hk].
  apply set_nth_2_rank4 in Gv as [Rv Sv]; [|exact Hv].
  repeat split; congruence.
Qed.

Lemma Forall2_grown_len {F} (L n : nat) (cs cs' : list (cache_entry (T := tensor F))) :
  Forall (cache_len L) cs -> Forall2 (grown n) cs cs' -> Forall (cache_len (L + n)) cs'.
Proof.
  intros Hc H. induction H as [|c c' cs cs' Hg _ IH]; [constructor|].
  inversion Hc; subst. constructor; [eapply grown_len; eassumption|auto].
Qed.

Lemma Forall_firstn {A} (P : A -> Prop) (l : list A) (n : nat) :
  Forall P l -> Forall P (firstn n l).
Proof.
  revert n; induction l as [|a l IH]; intros [|n] H; simpl; auto.
  inversion H; auto.
Qed.

Lemma length_unpack_interleave {T} (ks vs : list T) :
  length ks = length vs -> length (unpack_caches (interleave ks vs)) = length ks.
Proof.
  revert vs; induction ks as [|k ks IH]; intros [|v vs]; simpl; try discriminate; auto.
Qed.

Section Decoding.
Context {F : Type} {SF : Scalar F}.

Local Abbreviation PT := (PureTorch F).

Lemma Model_layers_length (ls : list TransformerLayer) :
  forall (layer_idx : nat) (use_cache : bool) (x : tensor F) (position_ids : tensor Z)
         (attn_mask : tensor F) (cache : list cache_entry) (y : tensor F)
         (ks vs : list (tensor F)),
  Model_layers (TT := PT) ls layer_idx use_cache x position_ids attn_mask cache
    = Ok (y, ks, vs) ->
  length ks = length ls /\ length vs = length ls.
Proof.
  induction ls as [|l rest IH]; intros idx uc x pos mask cache y ks vs H.
  - cbn in H. injection H as <- <- <-. auto.
  - cbn [Model_layers] in H.
    destruct (nth_error cache idx) as [c|]; [|discriminate].
    unfold t_clone, t_detach in H. pure_run_in H.
    apply rbind_ok_inv in H as ([[x' k0] v0] & _ & H).
    apply rbind_ok_inv in H as ([[y' ks'] vs'] & E2 & H).
    cbn in H. injection H as <- <- <-.
    apply IH in E2 as [Hk Hv]. cbn [length]. auto.
Qed.

Lemma forward_common_cache_count (dm : DecoderModel) (use_cache : bool)
    (tokens position_ids : tensor Z) (attn_mask : tensor F)
    (cache : list cache_entry) (outs : list (tensor F)) :
  forward_common (TT := PT) dm use_cache tokens position_ids attn_mask cache = Ok outs ->
  length (next_cache outs) = length (layers (model dm)).
Proof.
  intros H. unfold forward_common, Model_forward in H. cbn [bind PureTorch] in H.
  apply rbind_ok_inv in H as ([[hs ks] vs] & E & H).
  apply rbind_ok_inv in E as (x & _ & E).
  apply rbind_ok_inv in E as ([[x' ks'] vs'] & El & E).
  apply rbind_ok_inv in E as (y & _ & E). cbn in E. injection E as <- <- <-.
  apply rbind_ok_inv in H as (logits & _ & H). cbn in H. injection H as <-.
  apply Model_layers_length in El as [Hk Hv].
  unfold next_cache. cbn [tl]. rewrite length_unpack_interleave; congruence.
Qed.

Lemma decode_steps_len (dm : DecoderModel) (steps : list (tensor Z * tensor Z * tensor F)) :
  model_shapes_ok dm -> Forall single_token steps ->
  forall (cache cache' : list cache_entry) (L : nat),
  Forall (cache_len L) cache ->
  decode_steps (TT := PT) dm steps cache = Ok cache' ->
  Forall (cache_len (L + length steps)) cache' /\
  (steps <> [] -> length cache' = length (layers (model dm))).
Proof.
  intros Hok Hst. induction Hst as [|[[tokens pos] mask] rest (b & Ht & Hp) _ IH];
    intros cache cache' L Hc H.
  - cbn in H. injection H as <-. rewrite Nat.add_0_r. split; [exact Hc|congruence].
  - cbn [decode_steps bind PureTorch] in H.
    apply rbind_ok_inv in H as (outs & E & H). cbn [fst snd] in Ht, Hp.
    pose proof (forward_common_cache_count _ _ _ _ _ _ E) as Hlen.
    apply forward_common_caches with (1 := Hok) (2 := Ht) (3 := Hp) in E.
    2:{ eapply Forall_impl; [|exact Hc]. intros c Hcl. apply Hcl. }
    apply Forall2_grown_len with (L := L) in E; [|now apply Forall_firstn].
    destruct (IH _ _ _ E H) as [Hall Hl].
    cbn [length]. replace (L + S (length rest)) with (L + 1 + length rest) by lia.
    split; [exact Hall|]. intros _.
    destruct rest as [|s rest]; [|apply Hl; discriminate].
    cbn in H. congruence.
Qed.
End Decoding.

(** ** Constructed models have the expected weight shapes *)

Section InitShapes.
Context {F : Type} {SF : Scalar F}.
Variable init : list nat -> list nat -> F.

Local Abbreviation PT := (PureTorch F).

Lemma select_norm_ok (dim_ : nat) (eps : F) (nt : string) (nm : Norm) :
  select_norm (TT := PT) dim_ eps nt = Ok nm -> norm_ok nm.
Proof.
  rewrite select_norm_pure.
  destruct (String.eqb "layer_norm" nt); [intros [= <-]; split; reflexivity|].
  destruct (String.eqb "rms" nt); [intros [= <-]; reflexivity|discriminate].
Qed.

Lemma TransformerLayer_init_ok (hidden_size inter num_heads kv : nat)
    (st nt : string) (eps : F) (l : TransformerLayer) :
  TransformerLayer_init (TT := PT) init hidden_size inter num_heads kv st nt eps = Ok l ->
  layer_ok l.
Proof.
  intros H. unfold TransformerLayer_init in H. cbn [bind PureTorch] in H.
  apply rbind_ok_inv in H as (n1 & E1 & H).
  apply rbind_ok_inv in H as (n2 & E2 & H).
  apply rbind_ok_inv in H as (cs & E3 & H).
  apply rbind_ok_inv in H as (sa & _ & H).
  apply rbind_ok_inv in H as (m & _ & H).
  cbn in H. injection H as <-. unfold layer_ok. cbn.
  apply select_norm_ok in E1, E2.
  destruct (Nat.eq_dec num_heads 0) as [->|Hh]; [cbn in E3; discriminate|].
  destruct (rotary_mat_pure (F := F) hidden_size rotary_max_seq_len Hh)
    as (fr & Hr & Hs & _).
  rewrite Hr in E3. injection E3 as <-. cbn [fst snd].
  unfold rank. cbn [shape tmap]. rewrite Hs. auto.
Qed.

Lemma DecoderModel_init_shapes_ok (n_layers vocab hidden_size inter num_heads kv : nat)
    (st nt : string) (eps : F) (dm : DecoderModel) :
  DecoderModel_init (TT := PT) init n_layers vocab hidden_size inter num_heads kv st nt eps
    = Ok dm ->
  model_shapes_ok dm.
Proof.
  intros Hd.
  pose proof (DecoderModel_init_pure init n_layers vocab hidden_size inter num_heads
                kv st nt eps) as Hp.
  rewrite Hd in Hp.
  pose proof (Model_init_pure init n_layers vocab hidden_size inter num_heads
                kv st nt eps) as Hm.
  rewrite Hp in Hm. destruct Hm as (_ & _ & _ & Hall).
  unfold model_shapes_ok. eapply Forall_impl; [|exact Hall].
  intros l Hl. eapply TransformerLayer_init_ok. exact Hl.
Qed.
End InitShapes.

(** ** Expanding a tensor to its own shape *)

Lemma bidx_id (s idx : list nat) : valid_idx s idx -> bidx s idx = idx.
Proof.
  intros H. unfold bidx. rewrite (valid_idx_length _ _ H), Nat.sub_diag. cbn [skipn].
  revert idx H; induction s as [|n s IH]; intros [|i idx]; simpl; try tauto.
  intros [Hi Hv]. rewrite (IH _ Hv). f_equal.
  destruct (n =? 1) eqn:E; [|reflexivity]. apply Nat.eqb_eq in E. lia.
Qed.

Lemma expand_rev_same (s : list nat) : expand_rev s (map Z.of_nat s) = Ok s.
Proof.
  induction s as [|n s IH]; [reflexivity|].
  cbn [map expand_rev]. rewrite IH. cbn [rbind].
  destruct (Z.of_nat n =? -1)%Z eqn:E1; [reflexivity|].
  destruct (Z.of_nat n <? 0)%Z eqn:E2; [apply Z.ltb_lt in E2; lia|].
  now rewrite Nat2Z.id, Nat.eqb_refl.
Qed.

Lemma v_expand_same {A} (d : A) (t : tensor A) :
  wf t -> v_expand d t (map Z.of_nat (shape t)) = Ok t.
Proof.
  intros Hw. unfold v_expand. rewrite <- map_rev, expand_rev_same. cbn [rbind].
  rewrite rev_involutive. unfold v_broadcast_to. f_equal.
  etransitivity; [|apply (tabulate_get d Hw)]. apply tabulate_ext.
  intros idx Hv. now rewrite bidx_id.
Qed.

Section Broadcast.
Context {F : Type} {SF : Scalar F}.

Local Abbreviation PT := (PureTorch F).

Lemma broadcast_key_value_1 (t : tensor F) :
  rank t = 4 -> wf t -> broadcast_key_value (TT := PT) t 1 = Ok t.
Proof.
  intros H4 Hw. apply shape_rank4 in H4 as (b & k & s & e & Hs).
  unfold broadcast_key_value, t_shape, t_unsqueeze, t_expand, t_reshape.
  pure_run. rewrite Hs. pure_run.
  unfold v_unsqueeze, rank. rewrite Hs. cbn [length Nat.leb insert_at rbind].
  set (u := mkT [b; k; 1; s; e] (data t)).
  assert (Hu : wf u).
  { unfold wf in *. rewrite Hs in Hw. subst u. cbn [shape data numel fold_right] in *.
    rewrite Hw. ring. }
  change [Z.of_nat b; Z.of_nat k; Z.of_nat 1; Z.of_nat s; Z.of_nat e]
    with (map Z.of_nat (shape u)).
  rewrite (v_expand_same fzero Hu). cbn [rbind].
  unfold v_reshape. cbn [shape u numel fold_right].
  replace (b * (k * 1 * (s * (e * 1))) =? b * (k * (1 * (s * (e * 1)))))
    with true by (symmetry; apply Nat.eqb_eq; ring).
  rewrite Nat.mul_1_r. destruct t as [sh dt]. cbn in *. now subst.
Qed.

Lemma broadcast_heads_same (sa : SelfAttention) (key value : tensor F) :
  sa_num_heads sa = sa_num_key_value_heads sa ->
  broadcast_heads (TT := PT) sa key value = Ok (key, value).
Proof.
  intros H. unfold broadcast_heads. now rewrite H, Nat.eqb_refl.
Qed.
End Broadcast.

(** ** Tensors given by their entries *)

Lemma tmap_tabulate {A B} (f : A -> B) (s : list nat) (g : list nat -> A) :
  tmap f (tabulate s g) = tabulate s (fun idx => f (g idx)).
Proof. unfold tmap, tabulate. cbn [shape data]. now rewrite map_map. Qed.

Lemma broadcast_rev_same (s : list nat) : broadcast_rev s s = Some s.
Proof.
  induction s as [|n s IH]; [reflexivity|]. cbn [broadcast_rev].
  destruct s; cbn in *; rewrite ?IH, Nat.eqb_refl; reflexivity.
Qed.

Lemma broadcast_shapes_same (s : list nat) : broadcast_shapes s s = Some s.
Proof.
  unfold broadcast_shapes. rewrite broadcast_rev_same. cbn. now rewrite rev_involutive.
Qed.

Lemma v_binop_same_shape {A} (d : A) (f : A -> A -> A) (a b : tensor A) :
  shape b = shape a ->
  v_binop d f a b = Ok (tabulate (shape a) (fun idx => f (get d a idx) (get d b idx))).
Proof.
  intros Hs. unfold v_binop. rewrite Hs, broadcast_shapes_same. f_equal.
  apply tabulate_ext. intros idx Hv. now rewrite bidx_id.
Qed.

Lemma v_masked_fill_same_shape {A} (d : A) (a : tensor A) (m : tensor bool) (v : A) :
  shape m = shape a ->
  v_masked_fill d a m v =
    Ok (tabulate (shape a) (fun idx => if get false m idx then v else get d a idx)).
Proof.
  intros Hs. unfold v_masked_fill. rewrite Hs, broadcast_shapes_same, list_eqb_refl.
  f_equal. apply tabulate_ext. intros idx Hv. now rewrite bidx_id.
Qed.

Lemma valid_idx4 (a b c e : nat) (idx : list nat) :
  valid_idx [a; b; c; e] idx ->
  exists i j k l, idx = [i; j; k; l] /\ i < a /\ j < b /\ k < c /\ l < e.
Proof.
  destruct idx as [|i [|j [|k [|l [|? ?]]]]]; cbn; try tauto.
  intros (Hi & Hj & Hk & Hl & _). exists i, j, k, l. auto.
Qed.

Lemma valid_idx4_intro (a b c e i j k l : nat) :
  i < a -> j < b -> k < c -> l < e -> valid_idx [a; b; c; e] [i; j; k; l].
Proof. cbn. auto. Qed.

(** Reading an operand of a broadcast: an axis of size 1 is read at 0. *)
Lemma bsel (n i : nat) : i < n -> (if n =? 1 then 0 else i) = i.
Proof. intros H. destruct (n =? 1) eqn:E; [apply Nat.eqb_eq in E; lia|reflexivity]. Qed.

Lemma bidx4 (a b c e i j k l : nat) :
  bidx [a; b; c; e] [i; j; k; l] =
    [if a =? 1 then 0 else i; if b =? 1 then 0 else j;
     if c =? 1 then 0 else k; if e =? 1 then 0 else l].
Proof. reflexivity. Qed.

(** Sizes of [expand]. *)
Lemma expand_axis_keep (n : nat) (r : list nat) :
  (if (-1 =? -1)%Z then Ok (n :: r) else @Raise (list nat) RuntimeError) = Ok (n :: r).
Proof. reflexivity. Qed.

Lemma expand_axis_one (z : nat) (r : list nat) :
  (if (Z.of_nat z =? -1)%Z then Ok (1 :: r)
   else if (Z.of_nat z <? 0)%Z then Raise RuntimeError
   else if Z.to_nat (Z.of_nat z) =? 1 then Ok (1 :: r)
   else if 1 =? 1 then Ok (Z.to_nat (Z.of_nat z) :: r)
   else Raise RuntimeError) = Ok (z :: r).
Proof.
  destruct (Z.of_nat z =? -1)%Z eqn:E1; [apply Z.eqb_eq in E1; lia|].
  destruct (Z.of_nat z <? 0)%Z eqn:E2; [apply Z.ltb_lt in E2; lia|].
  rewrite Nat2Z.id. destruct (z =? 1) eqn:E3; [apply Nat.eqb_eq in E3; now subst|].
  reflexivity.
Qed.

Ltac expand_run :=
  cbn [rev app expand_rev];
  repeat first
    [ rewrite expand_axis_one
    | progress change (-1 =? -1)%Z with true
    | progress cbn [rbind rev app] ].

Lemma v_expand_heads {A} (d : A) (t : tensor A) (b n m h : nat) :
  shape t = [b; 1; n; m] ->
  v_expand d t [(-1)%Z; Z.of_nat h; (-1)%Z; (-1)%Z] =
    Ok (tabulate [b; h; n; m] (fun idx => get d t (bidx [b; 1; n; m] idx))).
Proof.
  intros Hs. unfold v_expand, v_broadcast_to. rewrite Hs.
  expand_run. reflexivity.
Qed.

Lemma v_expand_rows {A} (d : A) (t : tensor A) (b n m : nat) :
  shape t = [b; 1; 1; m] ->
  v_expand d t [(-1)%Z; 1%Z; Z.of_nat n; (-1)%Z] =
    Ok (tabulate [b; 1; n; m] (fun idx => get d t (bidx [b; 1; 1; m] idx))).
Proof.
  intros Hs. unfold v_expand, v_broadcast_to. rewrite Hs.
  change 1%Z with (Z.of_nat 1). expand_run. reflexivity.
Qed.

(** ** The value of ApplyMask.forward *)

Lemma py_slice_last_rows (m n : nat) :
  1 <= n <= m -> py_slice m (Some (- Z.of_nat n)%Z) None = (m - n, m).
Proof.
  intros H. unfold py_slice, clamp_bound.
  destruct (- Z.of_nat n <? 0)%Z eqn:E; [|apply Z.ltb_ge in E; lia].
  f_equal; lia.
Qed.

Section MaskValue.
Context {F : Type} {SF : Scalar F}.

Local Abbreviation PT := (PureTorch F).

(** [x.masked_fill(x.to(torch.bool), -10000.0)] for [x = 1.0 - t]. *)
Lemma inverted_fill (s : list nat) (g : list nat -> F) :
  v_masked_fill fzero (tmap (fun v => fsub fone v) (tabulate s g))
    (v_to_bool (tmap (fun v => fsub fone v) (tabulate s g))) f_minus_10000
    = Ok (tabulate s (fun idx => to_bias (g idx))).
Proof.
  unfold v_to_bool. rewrite !tmap_tabulate.
  rewrite v_masked_fill_same_shape by reflexivity. cbn [shape tabulate].
  f_equal. apply tabulate_ext. intros idx Hv.
  rewrite !get_tabulate by exact Hv. reflexivity.
Qed.

Lemma get_heads (G : list nat -> F) (b h n m i j k l : nat) :
  i < b -> j < h -> k < n -> l < m ->
  get fzero (tabulate [b; 1; n; m] G) (bidx [b; 1; n; m] [i; j; k; l]) = G [i; 0; k; l].
Proof.
  intros Hi Hj Hk Hl. rewrite bidx4. cbn [Nat.eqb]. rewrite !bsel by assumption.
  apply get_tabulate. cbn. repeat split; auto.
Qed.

Lemma get_mask4 (attn_mask : tensor F) (b m i q j : nat) :
  shape attn_mask = [b; m] -> i < b -> j < m ->
  get fzero (mkT [b; 1; 1; m] (data attn_mask)) (bidx [b; 1; 1; m] [i; 0; q; j])
    = get fzero attn_mask [i; j].
Proof.
  intros Hm Hi Hj. rewrite bidx4. cbn [Nat.eqb]. rewrite !bsel by assumption.
  unfold get. rewrite Hm. cbn [shape data ravel numel fold_right]. f_equal. ring.
Qed.

Lemma ApplyMask_forward_value (use_cache : bool) (score attn_mask : tensor F)
    (b h n m : nat) :
  shape attn_mask = [b; m] -> shape score = [b; h; n; m] ->
  (use_cache = false -> 1 <= n <= m) ->
  ApplyMask_forward (TT := PT) use_cache score attn_mask n h =
    Ok (tabulate [b; h; n; m] (fun idx =>
          fadd (get fzero score idx)
               (attention_bias use_cache attn_mask m n
                  (nth 0 idx 0) (nth 2 idx 0) (nth 3 idx 0)))).
Proof.
  intros Hm Hs Hn.
  unfold ApplyMask_forward, t_index_colon_none_none_colon, t_expand, t_to, t_map,
    t_to_bool, t_masked_fill, t_shape, t_tril, t_slice_axis, t_iadd, t_add.
  pure_run. unfold rank at 1. rewrite Hm. cbn [length Nat.leb].
  unfold v_unsqueeze at 1 2. unfold rank. rewrite Hm.
  cbn [length Nat.leb insert_at rbind shape data].
  rewrite v_expand_rows with (b := b) (m := m) by reflexivity.
  pure_run.
  rewrite inverted_fill. pure_run.
  destruct use_cache; cbn [negb rbind].
  - rewrite v_expand_heads with (b := b) (n := n) (m := m) by reflexivity.
    pure_run. unfold v_add. rewrite v_binop_same_shape by (now rewrite Hs).
    rewrite Hs. f_equal. apply tabulate_ext. intros idx Hv.
    apply valid_idx4 in Hv as (i & j & k & l & -> & Hi & Hj & Hk & Hl).
    f_equal. rewrite get_tabulate by (now apply valid_idx4_intro).
    rewrite get_heads with (h := h) by assumption. cbn [nth attention_bias].
    unfold padding_bias. f_equal. now apply get_mask4.
  -
    specialize (Hn eq_refl).
    unfold v_tril, v_ones, rank. cbn [shape tabulate length Nat.leb Nat.sub rbind].
    unfold dim. cbn [nth]. rewrite py_slice_last_rows by exact Hn.
    unfold v_slice, rank. cbn [shape tabulate length Nat.ltb Nat.leb set_nth rbind].
    replace (m - (m - n)) with n by lia.
    pure_run. rewrite inverted_fill. pure_run.
    unfold v_add at 1. rewrite v_binop_same_shape by reflexivity.
    cbn [shape tabulate rbind]. rewrite list_eqb_refl. pure_run.
    rewrite v_expand_heads with (b := b) (n := n) (m := m) by reflexivity.
    pure_run. unfold v_add. rewrite v_binop_same_shape by (now rewrite Hs).
    rewrite Hs. f_equal. apply tabulate_ext. intros idx Hv.
    apply valid_idx4 in Hv as (i & j & k & l & -> & Hi & Hj & Hk & Hl).
    f_equal. rewrite get_tabulate by (now apply valid_idx4_intro).
    rewrite get_heads with (h := h) by assumption. cbn [nth attention_bias].
    assert (Hv0 : valid_idx [b; 1; n; m] [i; 0; k; l]) by (apply valid_idx4_intro; lia).
    rewrite !get_tabulate by exact Hv0.
    unfold padding_bias, causal_bias. f_equal; f_equal.
    + now apply get_mask4.
    + cbn [nth set_nth].
      rewrite !get_tabulate by (apply valid_idx4_intro; lia).
      cbn [nth]. reflexivity.
Qed.
End MaskValue.

(** ** The rotary tables read at position 0 *)

Lemma get_tmap {A B} (f : A -> B) (d : A) (d' : B) (t : tensor A) (idx : list nat) :
  wf t -> valid_idx (shape t) idx -> get d' (tmap f t) idx = f (get d t idx).
Proof.
  intros Hw Hv. unfold get, tmap. cbn [shape data].
  rewrite nth_indep with (d' := f d).
  - apply map_nth.
  - rewrite length_map, Hw. now apply ravel_lt.
Qed.

Lemma broadcast_over_heads (b h s e : nat) :
  broadcast_shapes [b; h; s; e] [b; 1; s; e] = Some [b; h; s; e].
Proof.
  unfold broadcast_shapes. cbn. rewrite !Nat.eqb_refl.
  destruct (h =? 1) eqn:E; [apply Nat.eqb_eq in E; now subst|reflexivity].
Qed.

Lemma py_slice_prefix (n k : nat) :
  k <= n -> py_slice n None (Some (Z.of_nat k)) = (0, k).
Proof.
  intros H. unfold py_slice, clamp_bound.
  destruct (Z.of_nat k <? 0)%Z eqn:E; [apply Z.ltb_lt in E; lia|].
  rewrite Nat2Z.id. f_equal. lia.
Qed.

Lemma py_slice_suffix (n k : nat) :
  k <= n -> py_slice n (Some (Z.of_nat k)) None = (k, n).
Proof.
  intros H. unfold py_slice, clamp_bound.
  destruct (Z.of_nat k <? 0)%Z eqn:E; [apply Z.ltb_lt in E; lia|].
  rewrite Nat2Z.id. f_equal; lia.
Qed.

Lemma all_zero_get (ids : tensor Z) (idx : list nat) :
  Forall (fun z => z = 0%Z) (data ids) -> get 0%Z ids idx = 0%Z.
Proof.
  intros H. unfold get. destruct (nth_in_or_default (ravel (shape ids) idx) (data ids) 0%Z)
    as [Hin|Hd]; [|exact Hd].
  rewrite Forall_forall in H. now apply H.
Qed.

Lemma get_unsqueeze_1 {A} (d : A) (dt : list A) (b s e i k l : nat) :
  get d (mkT [b; 1; s; e] dt) [i; 0; k; l] = get d (mkT [b; s; e] dt) [i; k; l].
Proof.
  unfold get. cbn [shape data ravel numel fold_right]. f_equal. ring.
Qed.

(** [table[:, :e][ids].unsqueeze(1)] when every id is 0. *)
Lemma table_at_zero {A} (d : A) (table : tensor A) (ids : tensor Z)
    (rows w b s e : nat) :
  shape table = [rows; w] -> 1 <= rows -> e <= w ->
  shape ids = [b; s] -> Forall (fun z => z = 0%Z) (data ids) ->
  exists c c' c'',
    (let '(lo, hi) := py_slice (dim (shape table) 1) None (Some (Z.of_nat e)) in
     v_slice d table 1 lo hi) = Ok c /\
    v_index_rows d c ids = Ok c' /\
    v_unsqueeze c' 1 = Ok c'' /\
    shape c'' = [b; 1; s; e] /\
    forall i k l, i < b -> k < s -> l < e ->
      get d c'' [i; 0; k; l] = get d table [0; l].
Proof.
  intros Ht Hr He Hi Hz.
  rewrite Ht. unfold dim. cbn [nth]. rewrite py_slice_prefix by exact He.
  unfold v_slice, rank. rewrite Ht. cbn [length Nat.ltb Nat.leb set_nth].
  rewrite Nat.sub_0_r. eexists. eexists. eexists. split; [reflexivity|].
  unfold v_index_rows. cbn [shape tabulate]. rewrite Hi.
  replace (forallb _ (data ids)) with true.
  2:{ symmetry. apply forallb_forall. intros z Hin.
      rewrite Forall_forall in Hz. rewrite (Hz z Hin).
      unfold row_of. cbn [Z.leb Z.compare andb].
      destruct (0 <? Z.of_nat rows)%Z eqn:E; [reflexivity|apply Z.ltb_ge in E; lia]. }
  split; [reflexivity|].
  unfold v_unsqueeze, rank. cbn [shape tabulate length app Nat.leb insert_at].
  split; [reflexivity|]. split; [reflexivity|].
  intros i k l Hib Hk Hl. cbn [data]. rewrite get_unsqueeze_1.
  change (mkT [b; s; e] (data (tabulate [b; s; e] ?g))) with (tabulate [b; s; e] g).
  rewrite get_tabulate by (cbn; auto).
  cbn [length firstn skipn]. rewrite all_zero_get by exact Hz.
  unfold row_of. cbn [Z.leb Z.compare andb].
  destruct (0 <? Z.of_nat rows)%Z eqn:E; [|apply Z.ltb_ge in E; lia].
  cbn [Z.to_nat]. rewrite get_tabulate by (cbn; repeat split; auto; lia).
  cbn [nth set_nth]. now rewrite Nat.add_0_r.
Qed.

(** ** apply_rope with the first row of the tables *)

Section RotateHalf.
Context {F : Type} {SF : Scalar F}.

Lemma rotate_half_ok (x : tensor F) (a b c e : nat) :
  shape x = [a; b; c; e] ->
  exists r, rotate_half (TT := PureTorch F) x = Ok r /\ shape r = [a; b; c; e].
Proof.
  intros Hs. unfold rotate_half, t_shape, t_slice_last, t_neg, t_map, t_cat.
  pure_run. unfold rank. rewrite !Hs. cbn [shape_last rev app length Nat.sub].
  pure_run.
  assert (He : e / 2 <= e) by (apply Nat.Div0.div_le_upper_bound; lia).
  rewrite py_slice_prefix, py_slice_suffix by exact He.
  unfold v_slice, rank. rewrite Hs. cbn [length Nat.ltb Nat.leb set_nth].
  pure_run. unfold v_cat. cbn [shape tmap tabulate].
  rewrite !list_eqb_length by (cbn; lia).
  unfold rank. cbn [shape tmap tabulate length]. rewrite norm_dim_last by lia.
  cbn [rbind Nat.sub set_nth]. rewrite list_eqb_refl.
  eexists. split; [reflexivity|]. cbn [shape tabulate]. unfold dim. cbn [nth].
  rewrite Nat.sub_0_r, Nat.sub_add by exact He. reflexivity.
Qed.
End RotateHalf.

Section RopeIdentity.

Local Abbreviation PT := (PureTorch R).

Lemma apply_rope_at_zero (x cos sin : tensor R) (position_ids : tensor Z)
    (rows w b h s e : nat) :
  shape cos = [rows; w] -> shape sin = [rows; w] ->
  (forall l, l < w -> get 0%R cos [0; l] = 1%R) ->
  (forall l, l < w -> get 0%R sin [0; l] = 0%R) ->
  1 <= rows -> e <= w ->
  shape x = [b; h; s; e] -> wf x ->
  shape position_ids = [b; s] -> Forall (fun z => z = 0%Z) (data position_ids) ->
  apply_rope (TT := PT) x cos sin position_ids = Ok x.
Proof.
  intros Hc Hsn Gc Gs Hr He Hx Hw Hp Hz.
  destruct (@table_at_zero R 0%R cos position_ids rows w b s e Hc Hr He Hp Hz)
    as (c1 & c2 & c3 & E1 & E2 & E3 & S1 & V1).
  destruct (@table_at_zero R 0%R sin position_ids rows w b s e Hsn Hr He Hp Hz)
    as (s1 & s2 & s3 & F1 & F2 & F3 & S2 & V2).
  destruct (@rotate_half_ok R RScalar x b h s e Hx) as (rh & Er & Sr).
  unfold apply_rope, t_shape, t_slice_axis, t_index_rows, t_unsqueeze, t_mul, t_add.
  pure_run. rewrite Hx. cbn [shape_last rev app]. pure_run.
  change (@fzero R RScalar) with 0%R.
  rewrite E1. pure_run. rewrite F1. pure_run. rewrite E2. pure_run.
  rewrite E3. pure_run. rewrite F2. pure_run. rewrite F3. pure_run.
  unfold v_mul at 1. unfold v_binop at 1. rewrite Hx, S1, broadcast_over_heads.
  pure_run. rewrite Er. pure_run.
  unfold v_mul at 1. unfold v_binop at 1. rewrite Sr, S2, broadcast_over_heads.
  pure_run. unfold v_add. rewrite v_binop_same_shape by reflexivity.
  cbn [shape tabulate]. f_equal.
  etransitivity; [|apply (tabulate_get 0%R Hw)]. rewrite Hx.
  apply tabulate_ext. intros idx Hv.
  rewrite !get_tabulate by exact Hv.
  rewrite (bidx_id _ _ Hv).
  apply valid_idx4 in Hv as (i & j & k & l & -> & Hi & Hj & Hk & Hl).
  rewrite bidx4. cbn [Nat.eqb]. rewrite !bsel by assumption.
  change (@fzero R RScalar) with 0%R.
  rewrite V1, V2 by assumption. rewrite Gc, Gs by lia.
  cbn [fadd fmul RScalar]. ring.
Qed.
End RopeIdentity.

(** ** Failures of the forward call and the list it returns *)

Lemma v_embedding_out_of_range {A} (d : A) (w : tensor A) (ids : tensor Z)
    (vocab hidden : nat) (z : Z) :
  shape w = [vocab; hidden] -> In z (data ids) ->
  (z < 0 \/ Z.of_nat vocab <= z)%Z ->
  v_embedding d w ids = Raise IndexError.
Proof.
  intros Hs Hin Hz. unfold v_embedding. rewrite Hs.
  destruct (forallb _ (data ids)) eqn:E; [|reflexivity].
  rewrite forallb_forall in E. specialize (E z Hin).
  apply andb_true_iff in E as [E1 E2].
  apply Z.leb_le in E1. apply Z.ltb_lt in E2. lia.
Qed.

Lemma v_embedding_error {A} (d : A) (w : tensor A) (ids : tensor Z)
    (vocab hidden : nat) (e : exn) :
  shape w = [vocab; hidden] -> v_embedding d w ids = Raise e -> e = IndexError.
Proof.
  intros Hs. unfold v_embedding. rewrite Hs.
  destruct (forallb _ (data ids)); [discriminate|]. now intros [= <-].
Qed.

Lemma nth_error_firstn_lt {A} (l : list A) (k i : nat) :
  i < k -> nth_error (firstn k l) i = nth_error l i.
Proof.
  revert k i; induction l as [|a l IH]; intros [|k] [|i] H; simpl; auto; try lia.
  apply IH. lia.
Qed.

Lemma length_interleave {T} (ks vs : list T) :
  length ks = length vs -> length (interleave ks vs) = 2 * length ks.
Proof.
  revert vs; induction ks as [|k ks IH]; intros [|v vs]; simpl; try discriminate; auto.
  intros [= H]. rewrite (IH _ H). lia.
Qed.

Section ForwardErrors.
Context {F : Type} {SF : Scalar F}.
Variable init : list nat -> list nat -> F.

Local Abbreviation PT := (PureTorch F).

Lemma DecoderModel_init_embed_shape (n_layers vocab hidden_size inter num_heads kv : nat)
    (st nt : string) (eps : F) (dm : DecoderModel) :
  DecoderModel_init (TT := PT) init n_layers vocab hidden_size inter num_heads kv st nt eps
    = Ok dm ->
  shape (embed_tokens (model dm)) = [vocab; hidden_size] /\
  shape (lin_weight (lm_head dm)) = [vocab; hidden_size] /\
  length (layers (model dm)) = n_layers /\
  norm_ok (norm (model dm)).
Proof.
  intros Hd.
  pose proof (Model_init_pure init n_layers vocab hidden_size inter num_heads
                kv st nt eps) as Hm.
  unfold DecoderModel_init in Hd. cbn [bind PureTorch] in Hd.
  destruct (Model_init init n_layers vocab hidden_size inter num_heads kv st nt eps)
    as [m|e] eqn:Em; [|discriminate].
  destruct Hm as (_ & Hn & Hlen & _).
  unfold Linear_init in Hd. pure_run_in Hd. injection Hd as <-. cbn [model lm_head lin_weight].
  repeat split; auto.
  - unfold Model_init in Em. cbn [bind alloc PureTorch rbind] in Em.
    apply rbind_ok_inv in Em as (nrm & _ & Em).
    apply rbind_ok_inv in Em as (ls & _ & Em).
    cbn in Em. injection Em as <-. reflexivity.
  - eapply select_norm_ok. exact Hn.
Qed.

Lemma Model_layers_needs_cache (ls : list TransformerLayer) :
  forall (layer_idx : nat) (use_cache : bool) (x : tensor F) (position_ids : tensor Z)
         (attn_mask : tensor F) (cache : list cache_entry) r,
  Model_layers (TT := PT) ls layer_idx use_cache x position_ids attn_mask cache = Ok r ->
  layer_idx + length ls <= length cache \/ ls = [].
Proof.
  induction ls as [|l rest IH]; intros idx uc x pos mask cache r H; [auto|left].
  cbn [Model_layers] in H.
  destruct (nth_error cache idx) as [c|] eqn:Ec; [|discriminate].
  assert (Hi : idx < length cache) by (apply nth_error_Some; congruence).
  unfold t_clone, t_detach in H. pure_run_in H.
  apply rbind_ok_inv in H as ([[x' k0] v0] & _ & H).
  apply rbind_ok_inv in H as (r' & E2 & _).
  apply IH in E2 as [E2| ->]; cbn [length]; lia.
Qed.

Lemma Model_layers_firstn (ls : list TransformerLayer) :
  forall (layer_idx : nat) (use_cache : bool) (x : tensor F) (position_ids : tensor Z)
         (attn_mask : tensor F) (cache : list cache_entry) (k : nat),
  layer_idx + length ls <= k ->
  Model_layers (TT := PT) ls layer_idx use_cache x position_ids attn_mask (firstn k cache)
    = Model_layers (TT := PT) ls layer_idx use_cache x position_ids attn_mask cache.
Proof.
  induction ls as [|l rest IH]; intros idx uc x pos mask cache k Hk; [reflexivity|].
  cbn [Model_layers length] in *.
  rewrite nth_error_firstn_lt by lia.
  destruct (nth_error cache idx) as [c|]; [|reflexivity].
  unfold t_clone, t_detach. pure_run.
  destruct (TransformerLayer_forward l uc x pos mask (key c) (value c))
    as [[[x' k0] v0]|e]; cbn [rbind]; [|reflexivity].
  rewrite IH by lia. reflexivity.
Qed.
End ForwardErrors.

(** ** The rotary tables over the reals *)

Section RotaryTables.

Local Abbreviation PT := (PureTorch R).

Lemma rotary_mat_tables (hidden_size num_heads rows : nat) (cos sin : tensor R) :
  rotary_mat (TT := PT) hidden_size num_heads rows = Ok (cos, sin) ->
  exists fr : tensor R,
    cos = tmap Rtrigo_def.cos fr /\ sin = tmap Rtrigo_def.sin fr /\
    shape fr = [rows; arange2_len hidden_size num_heads + arange2_len hidden_size num_heads] /\
    wf fr /\
    forall j, 0 < rows ->
      j < arange2_len hidden_size num_heads + arange2_len hidden_size num_heads ->
      get 0%R fr [0; j] = 0%R.
Proof.
  intros H.
  destruct (Nat.eq_dec num_heads 0) as [->|Hh]; [cbn in H; discriminate|].
  destruct (rotary_mat_pure (F := R) hidden_size rows Hh) as (fr & Hr & Hs & Hw & Hv).
  rewrite Hr in H. injection H as <- <-.
  exists fr. repeat split; auto.
  intros j Hrows Hj. destruct (Hv 0 j Hrows Hj) as [f Hf].
  change (@fzero R RScalar) with 0%R in Hf. rewrite Hf. cbn. ring.
Qed.

Lemma get_table (f : R -> R) (fr : tensor R) (rows w p j : nat) :
  shape fr = [rows; w] -> wf fr -> p < rows -> j < w ->
  get 0%R (tmap f fr) [p; j] = f (get 0%R fr [p; j]).
Proof.
  intros Hs Hw Hp Hj. apply get_tmap; [exact Hw|]. rewrite Hs. cbn. auto.
Qed.
End RotaryTables.

Section RotaryHalves.
Context {F : Type} {SF : Scalar F}.

Lemma wf_tmap {A B} (f : A -> B) (t : tensor A) : wf t -> wf (tmap f t).
Proof. unfold wf, tmap. cbn [shape data]. now rewrite length_map. Qed.

(** [torch.cat((freqs, freqs), dim=-1)]: the second half of every row
    repeats the first. *)
Lemma rotary_mat_halves (hidden_size num_heads rows : nat) :
  num_heads <> 0 ->
  exists fr : tensor F,
    rotary_mat (TT := PureTorch F) hidden_size num_heads rows
      = Ok (tmap fcos fr, tmap fsin fr) /\
    shape fr = [rows; arange2_len hidden_size num_heads + arange2_len hidden_size num_heads] /\
    wf fr /\
    forall p j, p < rows -> j < arange2_len hidden_size num_heads ->
      get fzero fr [p; j + arange2_len hidden_size num_heads] = get fzero fr [p; j].
Proof.
  intros Hh. unfold rotary_mat.
  destruct (num_heads =? 0) eqn:E; [apply Nat.eqb_eq in E; contradiction|].
  set (len := arange2_len hidden_size num_heads).
  unfold t_to, t_outer, t_cat, t_map.
  pure_run. unfold v_outer. cbn [shape tmap v_arange v_arange2].
  fold len. pure_run. unfold v_cat.
  cbn [shape tabulate].
  rewrite !list_eqb_length by (simpl; lia).
  unfold rank; cbn [shape tabulate length].
  rewrite norm_dim_last by lia. cbn [rbind Nat.sub].
  rewrite list_eqb_refl. pure_run.
  eexists. split; [reflexivity|].
  split; [reflexivity|]. split; [apply wf_tabulate|].
  intros p j Hp Hj.
  rewrite get_tabulate with (idx := [p; j + len]) by (simpl; unfold dim; simpl; lia).
  rewrite get_tabulate with (idx := [p; j]) by (simpl; unfold dim; simpl; lia).
  cbn [nth dim set_nth].
  destruct (j + len <? len) eqn:E1; [apply Nat.ltb_lt in E1; lia|].
  destruct (j <? len) eqn:E2; [|apply Nat.ltb_ge in E2; lia].
  now rewrite Nat.add_sub.
Qed.
End RotaryHalves.

(** ** broadcast_key_value entry by entry *)

Lemma expand_axis_same (x : nat) (r : list nat) :
  (if (Z.of_nat x =? -1)%Z then Ok (x :: r)
   else if (Z.of_nat x <? 0)%Z then Raise RuntimeError
   else if Z.to_nat (Z.of_nat x) =? x then Ok (x :: r)
   else if x =? 1 then Ok (Z.to_nat (Z.of_nat x) :: r)
   else Raise RuntimeError) = Ok (x :: r).
Proof.
  destruct (Z.of_nat x =? -1)%Z; [reflexivity|].
  destruct (Z.of_nat x <? 0)%Z eqn:E2; [apply Z.ltb_lt in E2; lia|].
  now rewrite Nat2Z.id, Nat.eqb_refl.
Qed.

Lemma ravel_repeat (b k n s e i j q l : nat) :
  n <> 0 ->
  ravel [b; k * n; s; e] [i; j; q; l] = ravel [b; k; n; s; e] [i; j / n; j mod n; q; l].
Proof.
  intros Hn. cbn [ravel numel fold_right].
  rewrite (Nat.div_mod_eq j n) at 1. ring.
Qed.

Lemma get_unsqueeze_2 {A} (d : A) (dt : list A) (b k s e i j q l : nat) :
  get d (mkT [b; k; 1; s; e] dt) [i; j; 0; q; l] = get d (mkT [b; k; s; e] dt) [i; j; q; l].
Proof.
  unfold get. cbn [shape data ravel numel fold_right]. f_equal. ring.
Qed.

Section RepeatHeads.
Context {F : Type} {SF : Scalar F}.

Lemma broadcast_key_value_value (t : tensor F) (n b k s e : nat) :
  shape t = [b; k; s; e] -> 1 <= n ->
  exists r,
    broadcast_key_value (TT := PureTorch F) t n = Ok r /\
    shape r = [b; k * n; s; e] /\
    forall i j q l, i < b -> j < k * n -> q < s -> l < e ->
      get fzero r [i; j; q; l] = get fzero t [i; j / n; q; l].
Proof.
  intros Hs Hn.
  unfold broadcast_key_value, t_shape, t_unsqueeze, t_expand, t_reshape.
  pure_run. rewrite Hs. pure_run.
  unfold v_unsqueeze, rank. rewrite Hs. cbn [length Nat.leb insert_at rbind].
  unfold v_expand, v_broadcast_to. cbn [shape rev app expand_rev].
  repeat first [ rewrite expand_axis_same | rewrite expand_axis_one
               | progress cbn [rbind rev app] ].
  unfold v_reshape. cbn [shape tabulate numel fold_right].
  replace (b * (k * n * (s * (e * 1))) =? b * (k * (n * (s * (e * 1)))))
    with true by (symmetry; apply Nat.eqb_eq; ring).
  eexists. split; [reflexivity|]. split; [reflexivity|].
  intros i j q l Hi Hj Hq Hl.
  assert (Hn0 : n <> 0) by lia.
  assert (Ha : j / n < k) by (apply Nat.Div0.div_lt_upper_bound; lia).
  assert (Hc : j mod n < n) by (now apply Nat.mod_upper_bound).
  unfold get at 1. cbn [shape data]. rewrite ravel_repeat by exact Hn0.
  change (nth (ravel [b; k; n; s; e] ?ix) (data (tabulate [b; k; n; s; e] ?g)) fzero)
    with (get fzero (tabulate [b; k; n; s; e] g) ix).
  rewrite get_tabulate by (cbn; auto 10).
  unfold bidx. cbn [length Nat.sub skipn combine map fst snd Nat.eqb].
  rewrite !bsel by assumption.
  rewrite get_unsqueeze_2. f_equal. destruct t as [sh dt]. cbn in *. now subst.
Qed.
End RepeatHeads.

(** ** rotate_half entry by entry *)

Section RotateHalfValue.
Context {F : Type} {SF : Scalar F}.

Lemma rotate_half_value (x : tensor F) (a b c e : nat) :
  shape x = [a; b; c; e] ->
  rotate_half (TT := PureTorch F) x = Ok (tabulate [a; b; c; e] (rotate_half_entry x e)).
Proof.
  intros Hs. unfold rotate_half, t_shape, t_slice_last, t_neg, t_map, t_cat.
  pure_run. unfold rank. rewrite !Hs. cbn [shape_last rev app length Nat.sub].
  pure_run.
  assert (He : e / 2 <= e) by (apply Nat.Div0.div_le_upper_bound; lia).
  set (h := e / 2) in *.
  rewrite py_slice_prefix, py_slice_suffix by exact He.
  unfold v_slice, rank. rewrite Hs. cbn [length Nat.ltb Nat.leb set_nth].
  pure_run. rewrite tmap_tabulate. unfold v_cat. cbn [shape tabulate].
  rewrite !list_eqb_length by (cbn; lia).
  unfold rank. cbn [shape tabulate length]. rewrite norm_dim_last by lia.
  cbn [rbind Nat.sub set_nth]. rewrite list_eqb_refl.
  unfold dim. cbn [nth]. rewrite Nat.sub_0_r, Nat.sub_add by exact He.
  f_equal. apply tabulate_ext. intros idx Hv.
  apply valid_idx4 in Hv as (i & j & k & l & -> & Hi & Hj & Hk & Hl).
  unfold rotate_half_entry. fold h. cbn [nth set_nth].
  destruct (l <? e - h) eqn:E.
  - apply Nat.ltb_lt in E. rewrite get_tabulate by (apply valid_idx4_intro; lia).
    cbn [nth]. reflexivity.
  - apply Nat.ltb_ge in E. rewrite get_tabulate by (apply valid_idx4_intro; lia).
    cbn [nth]. now rewrite Nat.add_0_r.
Qed.

Lemma tmap_as_tabulate {A B} (f : A -> B) (d : A) (t : tensor A) :
  wf t -> tmap f t = tabulate (shape t) (fun idx => f (get d t idx)).
Proof.
  intros Hw. rewrite <- (tabulate_get d Hw) at 1. apply tmap_tabulate.
Qed.

Lemma rotate_half_twice (x : tensor F) (a b c e : nat) :
  shape x = [a; b; c; e] -> wf x -> Nat.even e = true ->
  rbind (rotate_half (TT := PureTorch F) x) (rotate_half (TT := PureTorch F))
    = Ok (tmap fneg x).
Proof.
  intros Hs Hw He.
  rewrite (@rotate_half_value x a b c e Hs). cbn [rbind].
  rewrite (@rotate_half_value (tabulate [a; b; c; e] (rotate_half_entry x e))
             a b c e eq_refl).
  rewrite (tmap_as_tabulate fneg fzero Hw), Hs. f_equal.
  apply tabulate_ext. intros idx Hv.
  apply valid_idx4 in Hv as (i & j & k & l & -> & Hi & Hj & Hk & Hl).
  apply Nat.even_spec in He as [h ->].
  assert (Hh : 2 * h / 2 = h) by (rewrite Nat.mul_comm; apply Nat.div_mul; lia).
  unfold rotate_half_entry. cbn [nth set_nth]. rewrite Hh.
  replace (2 * h - h) with h by lia.
  destruct (l <? h) eqn:E.
  - apply Nat.ltb_lt in E. rewrite get_tabulate by (apply valid_idx4_intro; lia).
    cbn [nth set_nth].
    destruct (l + h <? h) eqn:E1; [apply Nat.ltb_lt in E1; lia|].
    now rewrite Nat.add_sub.
  - apply Nat.ltb_ge in E. rewrite get_tabulate by (apply valid_idx4_intro; lia).
    cbn [nth set_nth].
    destruct (l - h <? h) eqn:E1; [|apply Nat.ltb_ge in E1; lia].
    now rewrite Nat.sub_add.
Qed.
End RotateHalfValue.

(** ** Rules for the footprint *)

Lemma firstn_set_nth_ge {A} (n k : nat) (v : A) (s : list A) :
  n <= k -> firstn n (set_nth k v s) = firstn n s.
Proof.
  revert n k; induction s as [|a s IH]; intros [|n] [|k] H; simpl; auto; try lia.
  f_equal. apply IH. lia.
Qed.

Lemma length_set_nth {A} (k : nat) (v : A) (s : list A) :
  length (set_nth k v s) = length s.
Proof.
  revert k; induction s as [|a s IH]; intros [|k]; simpl; auto.
Qed.

Section FrameRules.
Context {F : Type} {SF : Scalar F}.

Local Abbreviation RT := (StoreTorch F).

Lemma frames_weaken {A} (n : nat) (m : ST F A) (Q Q' : A -> Prop) :
  frames n m Q -> (forall a, Q a -> Q' a) -> frames n m Q'.
Proof.
  intros H HQ s a s' Hn E. destruct (H s a s' Hn E) as (H1 & H2 & H3). auto.
Qed.

Lemma frames_ret {A} (n : nat) (a : A) (Q : A -> Prop) :
  Q a -> frames n (ret (Torch := RT) a) Q.
Proof. intros HQ s b s' Hn [= <- <-]. auto. Qed.

Lemma frames_raise {A} (n : nat) (e : exn) (Q : A -> Prop) :
  frames n (raise (Torch := RT) e) Q.
Proof. intros s b s' Hn E. discriminate. Qed.

Lemma frames_bind {A B} (n : nat) (m : ST F A) (k : A -> ST F B)
    (Q : A -> Prop) (Q' : B -> Prop) :
  frames n m Q -> (forall a, Q a -> frames n (k a) Q') ->
  frames n (bind (Torch := RT) m k) Q'.
Proof.
  intros Hm Hk s b s' Hn E. cbn [bind StoreTorch] in E.
  apply rbind_ok_inv in E as ([a s1] & E1 & E2). cbn [fst snd] in E2.
  destruct (Hm s a s1 Hn E1) as (L1 & F1 & Qa).
  destruct (Hk a Qa s1 b s' L1 E2) as (L2 & F2 & Qb).
  repeat split; auto. congruence.
Qed.

Lemma frames_lift {A} (n : nat) (r : result A) :
  frames n (lift (TT := RT) r) (fun _ => True).
Proof. destruct r; [now apply frames_ret|apply frames_raise]. Qed.

Lemma frames_peek (n : nat) (h : handle F) :
  frames n (peek (Torch := RT) h) (fun _ => True).
Proof.
  intros s a s' Hn E. cbn [peek StoreTorch] in E. unfold st_peek in E.
  destruct (nth_error s (cell h)); [|discriminate].
  destruct (lens h).
  - apply rbind_ok_inv in E as (w & _ & [= <- <-]). auto.
  - injection E as <- <-. auto.
Qed.

Lemma frames_alloc (n : nat) (v : tensor F) :
  frames n (alloc (Torch := RT) v) (owned n).
Proof.
  intros s a s' Hn [= <- <-]. rewrite length_app. repeat split; cbn; try lia.
  rewrite firstn_app. replace (n - length s) with 0 by lia.
  cbn [firstn]. now rewrite app_nil_r.
Qed.

Lemma frames_view (n : nat) (h : handle F) (f : tensor F -> result (tensor F)) :
  frames n (view (Torch := RT) h f) (fun _ => True).
Proof.
  intros s a s' Hn E. cbn [view StoreTorch] in E. unfold st_view in E.
  apply rbind_ok_inv in E as ([v s1] & E1 & E).
  apply rbind_ok_inv in E as (w & _ & [= <- <-]).
  destruct (frames_peek h (n := n) s Hn E1) as (L & Fr & _). auto.
Qed.

Lemma frames_update (n : nat) (h : handle F) (v : tensor F) :
  owned n h -> frames n (update (Torch := RT) h v) (owned n).
Proof.
  intros [Hc Hl] s a s' Hn E. cbn [update StoreTorch] in E. unfold st_update in E.
  rewrite Hl in E. destruct (cell h <? length s); [|discriminate].
  injection E as <- <-. rewrite length_set_nth, firstn_set_nth_ge by exact Hc.
  repeat split; auto.
Qed.
End FrameRules.

(** ** Footprint of the torch operations and of the modules *)

Ltac frames_last tac :=
  eapply frames_weaken; [tac | cbn; intros; auto].

Section FrameOps.
Context {F : Type} {SF : Scalar F}.

Local Abbreviation RT := (StoreTorch F).

Lemma frames_fresh1 (n : nat) (f : tensor F -> result (tensor F)) (a : handle F) :
  frames n (fresh1 (TT := RT) f a) (owned n).
Proof.
  unfold fresh1.
  eapply frames_bind; [apply frames_peek|intros x _].
  eapply frames_bind; [apply frames_lift|intros y _].
  apply frames_alloc.
Qed.

Lemma frames_fresh2 (n : nat) (f : tensor F -> tensor F -> result (tensor F))
    (a b : handle F) :
  frames n (fresh2 (TT := RT) f a b) (owned n).
Proof.
  unfold fresh2.
  eapply frames_bind; [apply frames_peek|intros x _].
  eapply frames_bind; [apply frames_peek|intros y _].
  eapply frames_bind; [apply frames_lift|intros z _].
  apply frames_alloc.
Qed.

Lemma frames_t_shape (n : nat) (a : handle F) :
  frames n (t_shape (TT := RT) a) (fun _ => True).
Proof.
  unfold t_shape. eapply frames_bind; [apply frames_peek|intros x _].
  now apply frames_ret.
Qed.

Lemma frames_t_to_bool (n : nat) (a : handle F) :
  frames n (t_to_bool (TT := RT) a) (fun _ => True).
Proof.
  unfold t_to_bool. eapply frames_bind; [apply frames_peek|intros x _].
  now apply frames_ret.
Qed.

(** [a += b] writes the storage of [a]: it stays clear of the first [n]
    cells when [a] was created after them. *)
Lemma frames_t_iadd (n : nat) (a b : handle F) :
  owned n a -> frames n (t_iadd (TT := RT) a b) (owned n).
Proof.
  intros Ha. unfold t_iadd.
  eapply frames_bind; [apply frames_peek|intros x _].
  eapply frames_bind; [apply frames_peek|intros y _].
  eapply frames_bind; [apply frames_lift|intros z _].
  now apply frames_update.
Qed.
End FrameOps.

Ltac frames_op :=
  first [ apply frames_fresh1 | apply frames_fresh2 | apply frames_view
        | apply frames_peek | apply frames_alloc | apply frames_lift
        | apply frames_raise | apply frames_t_shape | apply frames_t_to_bool
        | solve [eauto 2 with frames] ].

Ltac frames_unfold :=
  unfold t_map, t_add, t_sub, t_mul, t_div, t_neg, t_matmul, t_linear, t_cat,
    t_clone, t_mean_last, t_softmax_last, t_tril, t_outer, t_masked_fill,
    t_index_rows, t_embedding, t_detach, t_to, t_reshape, t_permute, t_transpose,
    t_unsqueeze, t_index_colon_none_none_colon, t_expand, t_slice_last,
    t_slice_axis, Linear_forward in *.

Ltac frames_go :=
  repeat match goal with
         | |- frames _ (bind _ _) _ => eapply frames_bind; [frames_op|intros ? ?]
         | |- frames _ (match ?x with _ => _ end) _ => destruct x
         end.

Create HintDb frames.

Section FrameModules.
Context {F : Type} {SF : Scalar F}.

Local Abbreviation RT := (StoreTorch F).

Lemma frames_Norm_forward (n : nat) (nm : Norm) (x : handle F) :
  frames n (Norm_forward (TT := RT) nm x) (owned n).
Proof.
  destruct nm; cbn [Norm_forward]; unfold LayerNorm_forward, RMSNorm_forward;
    frames_unfold; frames_go; frames_op.
Qed.

Lemma frames_ProjLayerSiluMatMul_forward (n : nat) (m : ProjLayerSiluMatMul)
    (x : handle F) :
  frames n (ProjLayerSiluMatMul_forward (TT := RT) m x) (owned n).
Proof.
  unfold ProjLayerSiluMatMul_forward; frames_unfold; frames_go; frames_op.
Qed.

Lemma frames_rotate_half (n : nat) (x : handle F) :
  frames n (rotate_half (TT := RT) x) (owned n).
Proof.
  unfold rotate_half; frames_unfold; frames_go; frames_op.
Qed.

Lemma frames_apply_rope (n : nat) (x cos sin : handle F) (position_ids : tensor Z) :
  frames n (apply_rope (TT := RT) x cos sin position_ids) (owned n).
Proof.
  unfold apply_rope; frames_unfold.
  pose proof frames_rotate_half as Hr.
  frames_go; try frames_op; apply Hr.
Qed.

Lemma frames_broadcast_key_value (n : nat) (x : handle F) (n_rep : nat) :
  frames n (broadcast_key_value (TT := RT) x n_rep) (fun _ => True).
Proof.
  unfold broadcast_key_value; frames_unfold; frames_go; frames_op.
Qed.
End FrameModules.

(** ** Footprint of the forward pass *)

Section FrameForward.
Context {F : Type} {SF : Scalar F}.

Local Abbreviation RT := (StoreTorch F).

(** The only in-place operation of the source, [mask_score += ...],
    writes a tensor that [masked_fill] has just created. *)
Lemma frames_ApplyMask_forward (n : nat) (use_cache : bool) (score attn_mask : handle F)
    (seq_len num_heads : nat) :
  frames n (ApplyMask_forward (TT := RT) use_cache score attn_mask seq_len num_heads)
    (owned n).
Proof.
  unfold ApplyMask_forward.
  eapply frames_bind; [frames_unfold; frames_op|intros m4 _].
  eapply frames_bind; [frames_unfold; frames_op|intros ex _].
  eapply frames_bind; [frames_unfold; frames_op|intros em _].
  eapply frames_bind; [frames_unfold; frames_op|intros im _].
  eapply frames_bind; [frames_op|intros bm _].
  eapply frames_bind; [frames_unfold; apply frames_fresh1|intros mask_score Hm].
  eapply frames_bind with (Q := owned n).
  - destruct use_cache; cbn [negb]; [now apply frames_ret|].
    eapply frames_bind; [frames_op|intros s _].
    destruct s as [|b [|m [|? ?]]]; try apply frames_raise.
    eapply frames_bind; [frames_op|intros ones _].
    eapply frames_bind; [frames_unfold; frames_op|intros cm _].
    eapply frames_bind; [frames_unfold; frames_op|intros cm' _].
    eapply frames_bind; [frames_unfold; frames_op|intros icm _].
    eapply frames_bind; [frames_op|intros bc _].
    eapply frames_bind; [frames_unfold; frames_op|intros filled _].
    now apply frames_t_iadd.
  - intros ms _.
    eapply frames_bind; [frames_unfold; frames_op|intros ms' _].
    frames_unfold. frames_op.
Qed.

Lemma frames_broadcast_heads (n : nat) (sa : SelfAttention) (key value : handle F) :
  owned n key -> owned n value ->
  frames n (broadcast_heads (TT := RT) sa key value) (fun _ => True).
Proof.
  intros Hk Hv. unfold broadcast_heads.
  destruct (negb _); [|now apply frames_ret].
  destruct (_ =? 0); [apply frames_raise|].
  eapply frames_bind; [apply frames_broadcast_key_value|intros k' _].
  eapply frames_bind; [apply frames_broadcast_key_value|intros v' _].
  now apply frames_ret.
Qed.

Lemma frames_SelfAttention_forward (n : nat) (sa : SelfAttention) (use_cache : bool)
    (x : handle F) (position_ids : tensor Z)
    (attn_mask cos sin k_cache v_cache : handle F) :
  frames n (SelfAttention_forward (TT := RT) sa use_cache x position_ids attn_mask
              cos sin k_cache v_cache) (caches_owned n).
Proof.
  unfold SelfAttention_forward, RotaryEmbedding_forward.
  pose proof frames_apply_rope as Hr.
  pose proof frames_ApplyMask_forward as Hm.
  pose proof frames_broadcast_heads as Hb.
  frames_unfold.
  do 12 (eapply frames_bind; [frames_op|intros ? ?]).
  eapply frames_bind; [apply Hr|intros q Hq].
  eapply frames_bind; [apply Hr|intros k Hk].
  eapply frames_bind; [frames_op|intros kc Hkc].
  eapply frames_bind; [frames_op|intros vc Hvc].
  eapply frames_bind; [now apply Hb|intros kv _].
  eapply frames_bind; [frames_op|intros kt _].
  eapply frames_bind; [frames_op|intros qk _].
  eapply frames_bind; [frames_op|intros sc _].
  eapply frames_bind; [apply Hm|intros sc' _].
  eapply frames_bind; [frames_op|intros prob _].
  eapply frames_bind; [frames_op|intros attn _].
  eapply frames_bind; [frames_op|intros attn1 _].
  eapply frames_bind; [frames_op|intros attn2 _].
  eapply frames_bind; [frames_op|intros out Ho].
  apply frames_ret. repeat split; cbn; apply Ho || apply Hkc || apply Hvc.
Qed.

Lemma frames_TransformerLayer_forward (n : nat) (l : TransformerLayer)
    (use_cache : bool) (x : handle F) (position_ids : tensor Z)
    (attn_mask k_cache v_cache : handle F) :
  frames n (TransformerLayer_forward (TT := RT) l use_cache x position_ids attn_mask
              k_cache v_cache) (caches_owned n).
Proof.
  unfold TransformerLayer_forward.
  eapply frames_bind; [apply frames_Norm_forward|intros nx _].
  eapply frames_bind; [apply frames_SelfAttention_forward|intros [[h k] v] (_ & Hk & Hv)].
  cbn [fst snd] in Hk, Hv. frames_unfold.
  eapply frames_bind; [frames_op|intros h' _].
  eapply frames_bind; [apply frames_Norm_forward|intros nh _].
  eapply frames_bind; [apply frames_ProjLayerSiluMatMul_forward|intros mo _].
  eapply frames_bind; [frames_op|intros out Ho].
  apply frames_ret. repeat split; cbn; apply Ho || apply Hk || apply Hv.
Qed.

Lemma frames_Model_layers (n : nat) (ls : list TransformerLayer) :
  forall (layer_idx : nat) (use_cache : bool) (x : handle F) (position_ids : tensor Z)
         (attn_mask : handle F) (cache : list cache_entry),
  frames n (Model_layers (TT := RT) ls layer_idx use_cache x position_ids attn_mask cache)
    (fun r => Forall (owned n) (snd (fst r)) /\ Forall (owned n) (snd r)).
Proof.
  induction ls as [|l rest IH]; intros idx uc x pos mask cache; cbn [Model_layers].
  - apply frames_ret. cbn. auto.
  - destruct (nth_error cache idx) as [c|]; [|apply frames_raise].
    frames_unfold.
    eapply frames_bind; [frames_op|intros kc _].
    eapply frames_bind; [frames_op|intros kc' _].
    eapply frames_bind; [frames_op|intros vc _].
    eapply frames_bind; [frames_op|intros vc' _].
    eapply frames_bind; [apply frames_TransformerLayer_forward
                        |intros [[x' k] v] (_ & Hk & Hv)].
    cbn [fst snd] in Hk, Hv.
    eapply frames_bind; [apply IH|intros [[y ks] vs] [Hks Hvs]].
    cbn [fst snd] in Hks, Hvs. apply frames_ret. cbn. auto.
Qed.

Lemma Forall_interleave {T} (P : T -> Prop) (ks vs : list T) :
  Forall P ks -> Forall P vs -> Forall P (interleave ks vs).
Proof.
  intros Hk; revert vs; induction Hk as [|k ks Pk _ IH]; intros vs Hv; [constructor|].
  destruct Hv as [|v vs Pv Hv]; cbn; auto.
Qed.

Lemma frames_forward_common (n : nat) (dm : DecoderModel) (use_cache : bool)
    (tokens position_ids : tensor Z) (attn_mask : handle F) (cache : list cache_entry) :
  frames n (forward_common (TT := RT) dm use_cache tokens position_ids attn_mask cache)
    (Forall (owned n)).
Proof.
  unfold forward_common, Model_forward.
  eapply frames_bind with (Q := fun r => Forall (owned n) (snd (fst r)) /\
                                         Forall (owned n) (snd r)).
  - frames_unfold.
    eapply frames_bind; [frames_op|intros x _].
    eapply frames_bind; [apply frames_Model_layers|intros [[y ks] vs] [Hks Hvs]].
    cbn [fst snd] in Hks, Hvs.
    eapply frames_bind; [apply frames_Norm_forward|intros y' _].
    apply frames_ret. cbn. auto.
  - intros [[hs ks] vs] [Hks Hvs]. cbn [fst snd] in Hks, Hvs. frames_unfold.
    eapply frames_bind; [frames_op|intros logits Hl].
    apply frames_ret. constructor; [exact Hl|now apply Forall_interleave].
Qed.
End FrameForward.

(** ** One new position: the causal term vanishes *)

Section SingleToken.

Local Abbreviation PT := (PureTorch R).

Lemma to_bias_one : to_bias (F := R) 1%R = 0%R.
Proof.
  unfold to_bias. cbn [fsub fone nonzero RScalar].
  destruct (Req_dec_T (1 - 1) 0) as [_|H]; [lra|exfalso; apply H; lra].
Qed.

Lemma ApplyMask_forward_single (score attn_mask : tensor R) (b m h : nat) :
  shape attn_mask = [b; m] -> 1 <= m ->
  ApplyMask_forward (TT := PT) false score attn_mask 1 h
    = ApplyMask_forward (TT := PT) true score attn_mask 1 h.
Proof.
  intros Hm H1.
  unfold ApplyMask_forward, t_index_colon_none_none_colon, t_expand, t_to, t_map,
    t_to_bool, t_masked_fill, t_shape, t_tril, t_slice_axis, t_iadd, t_add.
  pure_run. unfold rank. rewrite !Hm. cbn [length Nat.leb].
  unfold v_unsqueeze, rank. rewrite !Hm.
  cbn [length Nat.leb insert_at rbind shape data].
  rewrite v_expand_rows with (b := b) (m := m) by reflexivity.
  pure_run. rewrite inverted_fill. pure_run. cbn [negb].
  unfold v_tril, v_ones, rank. cbn [shape tabulate length Nat.leb Nat.sub rbind].
  unfold dim. cbn [nth].
  rewrite (@py_slice_last_rows m 1) by lia.
  unfold v_slice, rank. cbn [shape tabulate length Nat.ltb Nat.leb set_nth rbind].
  replace (m - (m - 1)) with 1 by lia.
  pure_run. rewrite inverted_fill. pure_run.
  unfold v_add at 1. rewrite v_binop_same_shape by reflexivity.
  cbn [shape tabulate rbind]. rewrite list_eqb_refl. pure_run.
  match goal with
  | |- rbind (v_expand _ ?t1 _) _ = rbind (v_expand _ ?t2 _) _ =>
      replace t1 with t2; [reflexivity|]
  end.
  apply tabulate_ext. intros idx Hv.
  apply valid_idx4 in Hv as (i & j & k & l & -> & Hi & Hj & Hk & Hl).
  rewrite !get_tabulate by (apply valid_idx4_intro; lia).
  cbn [nth set_nth]. rewrite !get_tabulate by (apply valid_idx4_intro; lia).
  cbn [nth].
  replace (l <=? k + (m - 1)) with true by (symmetry; apply Nat.leb_le; lia).
  change (@fone R RScalar) with 1%R. rewrite to_bias_one.
  cbn [fadd RScalar]. ring.
Qed.
End SingleToken.

Lemma rbind_ext {A B} (m : result A) (k1 k2 : A -> result B) :
  (forall a, k1 a = k2 a) -> rbind m k1 = rbind m k2.
Proof. intros H. destruct m; [apply H|reflexivity]. Qed.

Section SingleTokenModes.

Local Abbreviation PT := (PureTorch R).

Lemma SelfAttention_forward_single (sa : SelfAttention) (x : tensor R)
    (position_ids : tensor Z) (attn_mask cos sin k_cache v_cache : tensor R)
    (b h bm m : nat) :
  shape x = [b; 1; h] -> shape attn_mask = [bm; m] -> 1 <= m ->
  SelfAttention_forward (TT := PT) sa false x position_ids attn_mask cos sin
    k_cache v_cache
  = SelfAttention_forward (TT := PT) sa true x position_ids attn_mask cos sin
      k_cache v_cache.
Proof.
  intros Hs Hm H1. unfold SelfAttention_forward. cbn [bind PureTorch].
  do 3 (apply rbind_ext; intros ?).
  unfold t_shape. pure_run. rewrite Hs. cbn [shape_at nth_error]. pure_run.
  do 14 (apply rbind_ext; intros ?).
  now rewrite (@ApplyMask_forward_single _ attn_mask bm m (sa_num_heads sa) Hm H1).
Qed.

Lemma TransformerLayer_forward_single (l : TransformerLayer) (x : tensor R)
    (position_ids : tensor Z) (attn_mask k_cache v_cache : tensor R)
    (b h bm m : nat) :
  norm_ok (input_layernorm l) ->
  shape x = [b; 1; h] -> shape attn_mask = [bm; m] -> 1 <= m ->
  TransformerLayer_forward (TT := PT) l false x position_ids attn_mask k_cache v_cache
  = TransformerLayer_forward (TT := PT) l true x position_ids attn_mask k_cache v_cache.
Proof.
  intros Hn Hs Hm H1. unfold TransformerLayer_forward. cbn [bind PureTorch].
  destruct (Norm_forward (input_layernorm l) x) as [nx|e] eqn:E; cbn [rbind];
    [|reflexivity].
  destruct (@Norm_forward_shape R RScalar (input_layernorm l) x nx b 1 h Hn Hs E)
    as [h' Hnx].
  now rewrite (@SelfAttention_forward_single (self_attn l) nx position_ids attn_mask
                 (layer_cos l) (layer_sin l) k_cache v_cache b h' bm m Hnx Hm H1).
Qed.

Lemma Model_layers_single (ls : list TransformerLayer) :
  forall (layer_idx : nat) (x : tensor R) (position_ids : tensor Z)
         (attn_mask : tensor R) (cache : list cache_entry) (b b' h bm m : nat),
  Forall layer_ok ls -> shape x = [b; 1; h] -> shape position_ids = [b'; 1] ->
  Forall cache_4d cache -> shape attn_mask = [bm; m] -> 1 <= m ->
  Model_layers (TT := PT) ls layer_idx false x position_ids attn_mask cache
  = Model_layers (TT := PT) ls layer_idx true x position_ids attn_mask cache.
Proof.
  induction ls as [|l rest IH]; intros idx x pos mask cache b b' h bm m
    Hok Hs Hp Hc Hm H1; [reflexivity|].
  cbn [Model_layers]. inversion Hok as [|? ? Hl Hrest]; subst.
  destruct (nth_error cache idx) as [c|] eqn:Ec; [|reflexivity].
  assert (H4 : cache_4d c).
  { rewrite Forall_forall in Hc. apply Hc. eapply nth_error_In; eassumption. }
  destruct H4 as [Hk4 Hv4].
  unfold t_clone, t_detach. pure_run.
  rewrite (@TransformerLayer_forward_single l x pos mask (key c) (value c) b h bm m
             (proj1 Hl) Hs Hm H1).
  destruct (TransformerLayer_forward l true x pos mask (key c) (value c))
    as [[[x' k0] v0]|e] eqn:E; cbn [rbind]; [|reflexivity].
  destruct (@TransformerLayer_forward_shapes R RScalar l true x pos mask (key c)
              (value c) x' k0 v0 b b' 1 h Hl Hs Hp Hk4 Hv4 E) as ([h1 Hx'] & _).
  now rewrite (IH (S idx) x' pos mask cache b b' h1 bm m Hrest Hx' Hp Hc Hm H1).
Qed.

Lemma forward_common_single (dm : DecoderModel) (tokens position_ids : tensor Z)
    (attn_mask : tensor R) (cache : list cache_entry) (b b' bm m : nat) :
  model_shapes_ok dm -> shape tokens = [b; 1] -> shape position_ids = [b'; 1] ->
  Forall cache_4d cache -> shape attn_mask = [bm; m] -> 1 <= m ->
  forward_common (TT := PT) dm false tokens position_ids attn_mask cache
  = forward_common (TT := PT) dm true tokens position_ids attn_mask cache.
Proof.
  intros Hok Ht Hp Hc Hm H1. unfold forward_common, Model_forward.
  cbn [bind PureTorch]. unfold t_embedding. pure_run.
  destruct (v_embedding fzero (embed_tokens (model dm)) tokens) as [x|e] eqn:E;
    cbn [rbind]; [|reflexivity].
  apply shape_v_embedding in E as [h E]. rewrite Ht in E. cbn [app] in E.
  now rewrite (@Model_layers_single (layers (model dm)) 0 x position_ids attn_mask
                 cache b b' h bm m Hok E Hp Hc Hm H1).
Qed.
End SingleTokenModes.

(** ** Shape of the logits *)

Section LogitsShape.
Context {F : Type} {SF : Scalar F}.

Lemma shape_v_linear3_out (x w r : tensor F) (b n h o i : nat) :
  shape x = [b; n; h] -> shape w = [o; i] -> v_linear x w = Ok r ->
  shape r = [b; n; o] /\ h = i.
Proof.
  intros Hs Hw. unfold v_linear. rewrite Hs, Hw. cbn [rev app].
  destruct (h =? i) eqn:E; [|discriminate]. apply Nat.eqb_eq in E.
  intros [= <-]. auto.
Qed.

Lemma forward_common_logits (dm : DecoderModel) (use_cache : bool)
    (tokens position_ids : tensor Z) (attn_mask : tensor F)
    (cache : list cache_entry) (outs : list (tensor F)) (b b' n vocab hidden : nat) :
  model_shapes_ok dm -> norm_ok (norm (model dm)) ->
  shape (lin_weight (lm_head dm)) = [vocab; hidden] ->
  shape tokens = [b; n] -> shape position_ids = [b'; n] -> Forall cache_4d cache ->
  forward_common (TT := PureTorch F) dm use_cache tokens position_ids attn_mask cache
    = Ok outs ->
  exists logits rest, outs = logits :: rest /\ shape logits = [b; n; vocab].
Proof.
  intros Hok Hn Hw Ht Hp Hc H. unfold forward_common, Model_forward in H.
  cbn [bind PureTorch] in H.
  apply rbind_ok_inv in H as ([[hs ks] vs] & E & H).
  apply rbind_ok_inv in E as (x & Ex & E).
  apply rbind_ok_inv in E as ([[x' ks'] vs'] & El & E).
  apply rbind_ok_inv in E as (y & Ey & E). cbn in E. injection E as <- <- <-.
  apply rbind_ok_inv in H as (logits & Elog & H). cbn in H. injection H as <-.
  unfold t_embedding in Ex. pure_run_in Ex.
  apply shape_v_embedding in Ex as [h Ex]. rewrite Ht in Ex. cbn [app] in Ex.
  apply Model_layers_shapes with (2 := Ex) (3 := Hp) in El as [[h1 Hx'] _]; auto.
  apply Norm_forward_shape with (1 := Hn) (2 := Hx') in Ey as [h2 Hy].
  unfold Linear_forward, t_linear in Elog. pure_run_in Elog.
  destruct (shape_v_linear3_out _ _ Hy Hw Elog) as [Hl _].
  eauto.
Qed.
End LogitsShape.

(** ** A hidden size that the number of heads does not divide *)

Lemma broadcast_keepdim (b n h : nat) :
  broadcast_shapes [b; n; h] [b; n; 1] = Some [b; n; h].
Proof.
  unfold broadcast_shapes. cbn. rewrite !Nat.eqb_refl.
  destruct (h =? 1) eqn:E; [apply Nat.eqb_eq in E; now subst|reflexivity].
Qed.

Lemma broadcast_vector_l (b n h : nat) :
  broadcast_shapes [h] [b; n; h] = Some [b; n; h].
Proof. unfold broadcast_shapes. cbn. now rewrite Nat.eqb_refl. Qed.

Lemma broadcast_vector_r (b n h : nat) :
  broadcast_shapes [b; n; h] [h] = Some [b; n; h].
Proof. unfold broadcast_shapes. cbn. now rewrite Nat.eqb_refl. Qed.

Lemma shape_v_embedding_width {A} (d : A) (w r : tensor A) (ids : tensor Z)
    (vocab h : nat) :
  shape w = [vocab; h] -> v_embedding d w ids = Ok r -> shape r = shape ids ++ [h].
Proof.
  intros Hw. unfold v_embedding. rewrite Hw.
  destruct (forallb _ _); [intros [= <-]; reflexivity|discriminate].
Qed.

Section HeadSplit.
Context {F : Type} {SF : Scalar F}.
Variable init : list nat -> list nat -> F.

Local Abbreviation PT := (PureTorch F).

Lemma shape_binop_exact (f : F -> F -> F) (a b r : tensor F) (s : list nat) :
  broadcast_shapes (shape a) (shape b) = Some s ->
  v_binop fzero f a b = Ok r -> shape r = s.
Proof. intros Hb. unfold v_binop. rewrite Hb. now intros [= <-]. Qed.

Lemma Norm_forward_width (nm : Norm) (x r : tensor F) (b n h : nat) :
  norm_width h nm -> shape x = [b; n; h] ->
  Norm_forward (TT := PT) nm x = Ok r -> shape r = [b; n; h].
Proof.
  intros Hok Hs H. destruct nm as [eps w bias|eps w]; cbn [Norm_forward norm_width] in *.
  - destruct Hok as [Hw Hb].
    unfold LayerNorm_forward, t_mean_last, t_sub, t_map, t_div, t_mul, t_add in H.
    inv_run H.
    apply shape_v_mean_last3 with (1 := Hs) in E.
    apply shape_binop_exact with (s := [b; n; h]) in E0;
      [|rewrite Hs, E; apply broadcast_keepdim].
    assert (Hsq : shape (tmap (fun v => fmul v v) t0) = [b; n; h]) by exact E0.
    apply shape_v_mean_last3 with (1 := Hsq) in E1.
    apply shape_binop_exact with (s := [b; n; h]) in E2;
      [|cbn [shape tmap]; rewrite E0, E1; apply broadcast_keepdim].
    apply shape_binop_exact with (s := [b; n; h]) in E3;
      [|rewrite Hw, E2; apply broadcast_vector_l].
    apply shape_binop_exact with (s := [b; n; h]) in H;
      [exact H|rewrite E3, Hb; apply broadcast_vector_r].
  - unfold RMSNorm_forward, t_to, t_mean_last, t_map, t_mul in H.
    inv_run H.
    assert (Hsq : shape (tmap (fun v => fmul v v) x) = [b; n; h]) by exact Hs.
    apply shape_v_mean_last3 with (1 := Hsq) in E.
    apply shape_binop_exact with (s := [b; n; h]) in E0;
      [|cbn [shape tmap]; rewrite Hs, E; apply broadcast_keepdim].
    apply shape_binop_exact with (s := [b; n; h]) in H;
      [exact H|rewrite Hok, E0; apply broadcast_vector_l].
Qed.

Lemma not_divisible (hidden heads : nat) :
  hidden mod heads <> 0 -> heads * (hidden / heads) <> hidden.
Proof.
  intros H E. apply H. rewrite (Nat.div_mod_eq hidden heads) in E at 2. lia.
Qed.

(** The head split [reshape(query, [b, n, num_heads, head_dim])]. *)
Lemma SelfAttention_forward_head_split (sa : SelfAttention) (use_cache : bool)
    (x : tensor F) (position_ids : tensor Z)
    (attn_mask cos sin k_cache v_cache : tensor F) (b n hidden : nat) :
  shape x = [b; n; hidden] ->
  shape (lin_weight (q_proj sa)) = [hidden; hidden] ->
  sa_num_heads sa * head_dim sa <> hidden -> b <> 0 -> n <> 0 ->
  is_ok (SelfAttention_forward (TT := PT) sa use_cache x position_ids attn_mask
           cos sin k_cache v_cache) = false.
Proof.
  intros Hs Hq Hd Hb Hn. unfold SelfAttention_forward. cbn [bind PureTorch].
  rewrite is_ok_rbind.
  destruct (Linear_forward (q_proj sa) x) as [q|e] eqn:Eq; [|reflexivity].
  unfold Linear_forward, t_linear in Eq. pure_run_in Eq.
  destruct (shape_v_linear3_out _ _ Hs Hq Eq) as [Hqs _].
  do 2 skip_step.
  unfold t_shape. pure_run. rewrite Hs. cbn [shape_at nth_error]. pure_run.
  unfold t_reshape at 1. pure_run. unfold v_reshape at 1. rewrite Hqs.
  cbn [numel fold_right].
  destruct (_ =? _) eqn:E; [|reflexivity].
  apply Nat.eqb_eq in E. exfalso. apply Hd.
  rewrite !Nat.mul_1_r in E. apply Nat.mul_cancel_l in E; [|exact Hb].
  apply Nat.mul_cancel_l in E; [|exact Hn]. exact E.
Qed.

Lemma select_norm_width (dim_ : nat) (eps : F) (nt : string) (nm : Norm) :
  select_norm (TT := PT) dim_ eps nt = Ok nm -> norm_width dim_ nm.
Proof.
  rewrite select_norm_pure.
  destruct (String.eqb "layer_norm" nt); [intros [= <-]; split; reflexivity|].
  destruct (String.eqb "rms" nt); [intros [= <-]; reflexivity|discriminate].
Qed.

Lemma TransformerLayer_init_dims (hidden_size inter num_heads kv : nat)
    (st nt : string) (eps : F) (l : TransformerLayer) :
  TransformerLayer_init (TT := PT) init hidden_size inter num_heads kv st nt eps = Ok l ->
  norm_width hidden_size (input_layernorm l) /\
  shape (lin_weight (q_proj (self_attn l))) = [hidden_size; hidden_size] /\
  sa_num_heads (self_attn l) = num_heads /\
  head_dim (self_attn l) = hidden_size / num_heads.
Proof.
  intros H. unfold TransformerLayer_init in H. cbn [bind PureTorch] in H.
  apply rbind_ok_inv in H as (n1 & E1 & H).
  apply rbind_ok_inv in H as (n2 & _ & H).
  apply rbind_ok_inv in H as (cs & _ & H).
  apply rbind_ok_inv in H as (sa & Esa & H).
  apply rbind_ok_inv in H as (m & _ & H).
  cbn in H. injection H as <-. cbn [input_layernorm self_attn].
  split; [eapply select_norm_width; exact E1|].
  unfold SelfAttention_init in Esa.
  destruct (num_heads =? 0); [discriminate|].
  unfold Linear_init in Esa. pure_run_in Esa.
  destruct (String.eqb st "HeadDim");
    [|destruct (String.eqb st "SquareRootHeadDim"); [|discriminate]];
    injection Esa as <-; cbn; auto.
Qed.

Lemma TransformerLayer_forward_head_split (l : TransformerLayer) (use_cache : bool)
    (x : tensor F) (position_ids : tensor Z) (attn_mask k_cache v_cache : tensor F)
    (b n hidden : nat) :
  norm_width hidden (input_layernorm l) ->
  shape (lin_weight (q_proj (self_attn l))) = [hidden; hidden] ->
  sa_num_heads (self_attn l) * head_dim (self_attn l) <> hidden ->
  shape x = [b; n; hidden] -> b <> 0 -> n <> 0 ->
  is_ok (TransformerLayer_forward (TT := PT) l use_cache x position_ids attn_mask
           k_cache v_cache) = false.
Proof.
  intros Hw Hq Hd Hs Hb Hn. unfold TransformerLayer_forward. cbn [bind PureTorch].
  rewrite is_ok_rbind.
  destruct (Norm_forward (input_layernorm l) x) as [nx|e] eqn:E; [|reflexivity].
  pose proof (@Norm_forward_width (input_layernorm l) x nx b n hidden Hw Hs E) as Hnx.
  rewrite is_ok_rbind.
  pose proof (@SelfAttention_forward_head_split (self_attn l) use_cache nx position_ids
                attn_mask (layer_cos l) (layer_sin l) k_cache v_cache b n hidden
                Hnx Hq Hd Hb Hn) as Hf.
  destruct (SelfAttention_forward _ _ _ _ _ _ _ _ _); [discriminate|reflexivity].
Qed.
End HeadSplit.

(** ** Negative row numbers *)

Lemma row_of_wrap (n : nat) (z : Z) :
  (- Z.of_nat n <= z)%Z -> row_of n (wrap_position n z) = row_of n z.
Proof.
  intros H. unfold wrap_position, row_of.
  destruct (z <? 0)%Z eqn:E.
  - apply Z.ltb_lt in E.
    replace (0 <=? z)%Z with false by (symmetry; apply Z.leb_gt; lia).
    replace (- Z.of_nat n <=? z)%Z with true by (symmetry; apply Z.leb_le; lia).
    replace (0 <=? z + Z.of_nat n)%Z with true by (symmetry; apply Z.leb_le; lia).
    replace (z + Z.of_nat n <? Z.of_nat n)%Z with true by (symmetry; apply Z.ltb_lt; lia).
    cbn [andb]. f_equal. f_equal. lia.
  - now rewrite E.
Qed.

Lemma get_wrap (n : nat) (ids : tensor Z) (idx : list nat) :
  get 0%Z (tmap (wrap_position n) ids) idx = wrap_position n (get 0%Z ids idx).
Proof.
  unfold get, tmap. cbn [shape data].
  change 0%Z with (wrap_position n 0) at 1. apply map_nth.
Qed.

Lemma get_lower_bound (n : nat) (ids : tensor Z) (idx : list nat) :
  Forall (fun z => (- Z.of_nat n <= z)%Z) (data ids) ->
  (- Z.of_nat n <= get 0%Z ids idx)%Z.
Proof.
  intros H. unfold get.
  destruct (nth_in_or_default (ravel (shape ids) idx) (data ids) 0%Z) as [Hin | Hd]; [|rewrite Hd; lia].
  rewrite Forall_forall in H. now apply H.
Qed.

Lemma forallb_map_in {A B} (f : B -> bool) (g : A -> B) (h : A -> bool) (l : list A) :
  (forall x, In x l -> f (g x) = h x) -> forallb f (map g l) = forallb h l.
Proof.
  induction l as [|a l IH]; intros H; cbn; [reflexivity|].
  rewrite H by (now left). rewrite IH; [reflexivity|].
  intros x Hx. apply H. now right.
Qed.

Lemma v_index_rows_wrap {A} (d : A) (table : tensor A) (ids : tensor Z)
    (n : nat) (rest : list nat) :
  shape table = n :: rest ->
  Forall (fun z => (- Z.of_nat n <= z)%Z) (data ids) ->
  v_index_rows d table (tmap (wrap_position n) ids) = v_index_rows d table ids.
Proof.
  intros Hs Hl. unfold v_index_rows. rewrite Hs. cbn [shape data tmap].
  rewrite (forallb_map_in _ (wrap_position n)
             (fun z => match row_of n z with Some _ => true | None => false end)).
  2:{ intros z Hin. rewrite Forall_forall in Hl.
      now rewrite row_of_wrap by (now apply Hl). }
  destruct (forallb _ (data ids)); [|reflexivity].
  f_equal. apply tabulate_ext. intros idx _.
  change (mkT (shape ids) (map (wrap_position n) (data ids)))
    with (tmap (wrap_position n) ids).
  now rewrite get_wrap, row_of_wrap by (now apply get_lower_bound).
Qed.

Lemma rbind_ext_l {A B} (m1 m2 : result A) (k : A -> result B) :
  m1 = m2 -> rbind m1 k = rbind m2 k.
Proof. now intros ->. Qed.

Section WrapForward.
Context {F : Type} {SF : Scalar F}.

Local Abbreviation PT := (PureTorch F).

Lemma apply_rope_wrap (x cos sin : tensor F) (position_ids : tensor Z)
    (rows : nat) (r1 r2 : list nat) :
  shape cos = rows :: r1 -> shape sin = rows :: r2 ->
  Forall (fun z => (- Z.of_nat rows <= z)%Z) (data position_ids) ->
  apply_rope (TT := PT) x cos sin (tmap (wrap_position rows) position_ids)
  = apply_rope (TT := PT) x cos sin position_ids.
Proof.
  intros Hc Hs Hl. unfold apply_rope, t_shape, t_slice_axis, t_index_rows.
  pure_run. destruct (shape_last (shape x)) as [hd|e]; pure_run; [|reflexivity].
  destruct (py_slice (dim (shape cos) 1) None (Some (Z.of_nat hd))) as [lo1 hi1].
  destruct (py_slice (dim (shape sin) 1) None (Some (Z.of_nat hd))) as [lo2 hi2].
  destruct (v_slice fzero cos 1 lo1 hi1) as [c|e] eqn:Ec; pure_run; [|reflexivity].
  destruct (v_slice fzero sin 1 lo2 hi2) as [s|e] eqn:Es; pure_run; [|reflexivity].
  apply shape_v_slice in Ec, Es. rewrite Hc in Ec. rewrite Hs in Es.
  cbn [set_nth] in Ec, Es.
  rewrite (v_index_rows_wrap fzero c position_ids Ec Hl).
  destruct (v_index_rows fzero c position_ids); pure_run; [|reflexivity].
  apply rbind_ext. intros c'.
  rewrite (v_index_rows_wrap fzero s position_ids Es Hl). reflexivity.
Qed.

Lemma SelfAttention_forward_wrap (sa : SelfAttention) (use_cache : bool)
    (x : tensor F) (position_ids : tensor Z)
    (attn_mask cos sin k_cache v_cache : tensor F) (rows : nat) (r1 r2 : list nat) :
  shape cos = rows :: r1 -> shape sin = rows :: r2 ->
  Forall (fun z => (- Z.of_nat rows <= z)%Z) (data position_ids) ->
  SelfAttention_forward (TT := PT) sa use_cache x
    (tmap (wrap_position rows) position_ids) attn_mask cos sin k_cache v_cache
  = SelfAttention_forward (TT := PT) sa use_cache x position_ids attn_mask cos sin
      k_cache v_cache.
Proof.
  intros Hc Hs Hl. unfold SelfAttention_forward, RotaryEmbedding_forward.
  cbn [bind PureTorch].
  do 12 (apply rbind_ext; intros ?).
  rewrite !(fun y => @apply_rope_wrap y cos sin position_ids rows r1 r2 Hc Hs Hl).
  reflexivity.
Qed.

Lemma Model_layers_wrap (rows : nat) (ls : list TransformerLayer) :
  forall (layer_idx : nat) (use_cache : bool) (x : tensor F) (position_ids : tensor Z)
         (attn_mask : tensor F) (cache : list cache_entry),
  Forall (tables_have_rows rows) ls ->
  Forall (fun z => (- Z.of_nat rows <= z)%Z) (data position_ids) ->
  Model_layers (TT := PT) ls layer_idx use_cache x
    (tmap (wrap_position rows) position_ids) attn_mask cache
  = Model_layers (TT := PT) ls layer_idx use_cache x position_ids attn_mask cache.
Proof.
  induction ls as [|l rest IH]; intros idx uc x pos mask cache Hok Hl; [reflexivity|].
  cbn [Model_layers]. inversion Hok as [|? ? [[r1 Hc] [r2 Hs]] Hrest]; subst.
  destruct (nth_error cache idx) as [c|]; [|reflexivity].
  cbn [bind PureTorch]. do 4 (apply rbind_ext; intros ?).
  unfold TransformerLayer_forward. cbn [bind PureTorch].
  replace (rbind (Norm_forward (input_layernorm l) x) _)
    with (rbind (Norm_forward (TT := PT) (input_layernorm l) x) (fun nx =>
            rbind (SelfAttention_forward (TT := PT) (self_attn l) uc nx pos mask
                     (layer_cos l) (layer_sin l) a0 a2)
              (fun r => let '(h, k_out, v_out) := r in
                 rbind (t_add x h) (fun h0 =>
                 rbind (Norm_forward (post_attention_layernorm l) h0) (fun nh =>
                 rbind (ProjLayerSiluMatMul_forward (mlp l) nh) (fun mo =>
                 rbind (t_add h0 mo) (fun out => Ok (out, k_out, v_out)))))))).
  2:{ apply rbind_ext. intros nx.
      now rewrite (@SelfAttention_forward_wrap (self_attn l) uc nx pos mask
                     (layer_cos l) (layer_sin l) a0 a2 rows r1 r2 Hc Hs Hl). }
  apply rbind_ext. intros [[x' k0] v0]. now rewrite IH.
Qed.
End WrapForward.

Section WrapConstructed.
Context {F : Type} {SF : Scalar F}.
Variable init : list nat -> list nat -> F.

Lemma DecoderModel_init_tables (n_layers vocab hidden_size inter num_heads kv : nat)
    (st nt : string) (eps : F) (dm : DecoderModel) :
  DecoderModel_init (TT := PureTorch F) init n_layers vocab hidden_size inter num_heads
    kv st nt eps = Ok dm ->
  Forall (tables_have_rows rotary_max_seq_len) (layers (model dm)).
Proof.
  intros Hd.
  pose proof (DecoderModel_init_pure init n_layers vocab hidden_size inter num_heads
                kv st nt eps) as Hp.
  rewrite Hd in Hp.
  pose proof (Model_init_pure init n_layers vocab hidden_size inter num_heads
                kv st nt eps) as Hm.
  rewrite Hp in Hm. destruct Hm as (_ & _ & _ & Hall).
  eapply Forall_impl; [|exact Hall]. intros l Hl.
  pose proof (TransformerLayer_init_pure init hidden_size inter num_heads kv st nt eps)
    as Ht.
  rewrite Hl in Ht. destruct Ht as (Hc1 & _ & _ & Hr & _).
  assert (Hh : num_heads <> 0).
  { unfold construction_error in Hc1. destruct (negb _); [discriminate|].
    cbn [Nat.eqb] in Hc1. destruct (num_heads =? 0) eqn:E; [discriminate|].
    now apply Nat.eqb_neq in E. }
  destruct (rotary_mat_pure (F := F) hidden_size rotary_max_seq_len Hh)
    as (fr & Hr' & Hs & _).
  rewrite Hr in Hr'. unfold tables_have_rows. injection Hr' as -> ->.
  cbn [shape tmap]. split; eexists; exact Hs.
Qed.
End WrapConstructed.

(** ** Names of the cache inputs *)

Lemma py_str_inj (a b : Z) : py_str a = py_str b -> a = b.
Proof.
  unfold py_str. intros H.
  assert (Hn : forall z, Z.to_int z <> Decimal.Pos Decimal.Nil /\
                         Z.to_int z <> Decimal.Neg Decimal.Nil).
  { intros z. split; intros E; pose proof (f_equal Z.of_int E) as E';
      rewrite DecimalZ.of_to in E'; cbn in E'; subst z; cbn in E; discriminate. }
  apply (f_equal DecimalString.NilZero.int_of_string) in H.
  rewrite !DecimalString.NilZero.isi in H by apply Hn.
  injection H as H. apply (f_equal Z.of_int) in H.
  now rewrite !DecimalZ.of_to in H.
Qed.

Lemma string_length_append (a b : string) :
  String.length (a ++ b) = String.length a + String.length b.
Proof. induction a as [|c a IH]; cbn; [reflexivity|now rewrite IH]. Qed.

Lemma string_append_inj (a b s t : string) :
  String.length a = String.length b -> (a ++ s = b ++ t)%string -> a = b /\ s = t.
Proof.
  revert b; induction a as [|c a IH]; intros [|c' b] Hl H; cbn in *; try discriminate.
  - auto.
  - injection H as -> H. injection Hl as Hl. destruct (IH b Hl H) as [-> ->]. auto.
Qed.

Lemma string_append_cancel_r (a b s : string) :
  (a ++ s = b ++ s)%string -> a = b.
Proof.
  intros H. apply (string_append_inj a b s s); [|exact H].
  apply (f_equal String.length) in H. rewrite !string_length_append in H. lia.
Qed.

Lemma last_char_append (a t : string) :
  t <> EmptyString -> last_char (a ++ t) = last_char t.
Proof.
  intros Ht. induction a as [|x a IH]; [reflexivity|].
  cbn [append]. change (last_char (String x (a ++ t)))
    with (match (a ++ t)%string with
          | EmptyString => Some x
          | _ => last_char (a ++ t)
          end).
  destruct (a ++ t)%string eqn:E; [|exact IH].
  destruct a; [cbn in E; contradiction|discriminate].
Qed.

Lemma key_name_inj (p : string) (a b : Z) :
  (p ++ py_str a ++ ".key" = p ++ py_str b ++ ".key")%string -> a = b.
Proof.
  intros H. apply string_append_inj in H as [_ H]; [|reflexivity].
  apply string_append_cancel_r in H. now apply py_str_inj.
Qed.

Lemma value_name_inj (p : string) (a b : Z) :
  (p ++ py_str a ++ ".value" = p ++ py_str b ++ ".value")%string -> a = b.
Proof.
  intros H. apply string_append_inj in H as [_ H]; [|reflexivity].
  apply string_append_cancel_r in H. now apply py_str_inj.
Qed.

Lemma key_name_not_value (p : string) (a b : Z) :
  (p ++ py_str a ++ ".key")%string <> (p ++ py_str b ++ ".value")%string.
Proof.
  intros H. apply string_append_inj in H as [_ H]; [|reflexivity].
  apply (f_equal last_char) in H.
  rewrite !last_char_append in H by discriminate. discriminate.
Qed.

Lemma in_py_range (a b z : Z) : In z (py_range a b) <-> (a <= z < b)%Z.
Proof.
  unfold py_range. rewrite in_map_iff. split.
  - intros (k & <- & Hk). apply in_seq in Hk. lia.
  - intros H. exists (Z.to_nat (z - a)). split; [lia|]. apply in_seq. lia.
Qed.

Lemma name_in_spec (x : string) (names : list string) :
  name_in x names = true <-> In x names.
Proof.
  unfold name_in. rewrite existsb_exists. split.
  - intros (y & Hy & E). apply String.eqb_eq in E. now subst.
  - intros H. exists x. split; [exact H|apply String.eqb_refl].
Qed.

Lemma in_names_without (removed names : list string) (x : string) :
  In x (names_without removed names) <-> In x names /\ ~ In x removed.
Proof.
  unfold names_without. rewrite filter_In. split; intros [H1 H2]; split; auto.
  - intros Hin. apply name_in_spec in Hin. now rewrite Hin in H2.
  - destruct (name_in x removed) eqn:E; [|reflexivity].
    apply name_in_spec in E. contradiction.
Qed.

(** ** Deleting the dynamic axes *)

Section PruneLemmas.
Context {V : Type}.

Lemma has_key_filter (k k' : string) (d : json_object (V := V)) :
  has_key k (filter (fun p => negb (String.eqb (fst p) k')) d)
    = if String.eqb k k' then false else has_key k d.
Proof.
  unfold has_key. induction d as [|[k0 v] d IH]; cbn [filter existsb fst].
  - now destruct (String.eqb k k').
  - destruct (String.eqb k0 k') eqn:E0; cbn [negb existsb fst].
    + rewrite IH. apply String.eqb_eq in E0. subst k0.
      destruct (String.eqb k k') eqn:E; [reflexivity|].
      rewrite String.eqb_sym, E. reflexivity.
    + rewrite IH. destruct (String.eqb k k') eqn:E; [|reflexivity].
      apply String.eqb_eq in E. subst k. now rewrite E0.
Qed.

Lemma py_del_spec (k : string) (d : json_object (V := V)) :
  match py_del k d with
  | Ok d' => has_key k d = true /\
             forall k2, has_key k2 d' = if String.eqb k2 k then false else has_key k2 d
  | Raise e => has_key k d = false /\ e = KeyError
  end.
Proof.
  unfold py_del. destruct (has_key k d); [|auto].
  split; [reflexivity|]. intros k2. apply has_key_filter.
Qed.

Lemma del_dynamic_axes_ok (r : list Z) :
  forall d d' : json_object (V := V),
  del_dynamic_axes r d = Ok d' ->
  forall k, has_key k d' = true <->
            has_key k d = true /\
            forall idx, In idx r -> k <> cache_key_name idx /\ k <> cache_value_name idx.
Proof.
  induction r as [|i r IH]; intros d d' H k; cbn [del_dynamic_axes] in H.
  - injection H as <-. cbn. tauto.
  - apply rbind_ok_inv in H as (d1 & E1 & H).
    apply rbind_ok_inv in H as (d2 & E2 & H).
    pose proof (py_del_spec (cache_key_name i) d) as S1. rewrite E1 in S1.
    pose proof (py_del_spec (cache_value_name i) d1) as S2. rewrite E2 in S2.
    destruct S1 as [_ S1]. destruct S2 as [_ S2].
    rewrite (IH _ _ H k), S2, S1.
    destruct (String.eqb k (cache_value_name i)) eqn:Ev.
    { apply String.eqb_eq in Ev. split; [intros [? _]; discriminate|].
      intros [_ Hall]. destruct (Hall i (or_introl eq_refl)) as [_ Hn]. contradiction. }
    destruct (String.eqb k (cache_key_name i)) eqn:Ek.
    { apply String.eqb_eq in Ek. split; [intros [? _]; discriminate|].
      intros [_ Hall]. destruct (Hall i (or_introl eq_refl)) as [Hn _]. contradiction. }
    apply String.eqb_neq in Ev, Ek.
    split; intros [Hk Hall]; split; auto.
    + intros idx [<-|Hin]; auto.
    + intros idx Hin. apply Hall. now right.
Qed.

Lemma del_dynamic_axes_error (r : list Z) :
  forall (d : json_object (V := V)) (e : exn),
  del_dynamic_axes r d = Raise e -> e = KeyError.
Proof.
  induction r as [|i r IH]; intros d e H; cbn [del_dynamic_axes] in H; [discriminate|].
  pose proof (py_del_spec (cache_key_name i) d) as S1.
  destruct (py_del (cache_key_name i) d) as [d1|e1]; cbn [rbind] in H.
  2:{ destruct S1 as [_ ->]. congruence. }
  pose proof (py_del_spec (cache_value_name i) d1) as S2.
  destruct (py_del (cache_value_name i) d1) as [d2|e2]; cbn [rbind] in H.
  2:{ destruct S2 as [_ ->]. congruence. }
  eapply IH; eassumption.
Qed.

Lemma del_dynamic_axes_missing (r : list Z) :
  forall (d : json_object (V := V)) (k : string),
  has_key k d = false ->
  (exists idx, In idx r /\ (k = cache_key_name idx \/ k = cache_value_name idx)) ->
  is_ok (del_dynamic_axes r d) = false.
Proof.
  induction r as [|i r IH]; intros d k Hk (idx & Hin & Hname); [destruct Hin|].
  cbn [del_dynamic_axes].
  pose proof (py_del_spec (cache_key_name i) d) as S1.
  destruct (py_del (cache_key_name i) d) as [d1|e1]; cbn [rbind]; [|reflexivity].
  pose proof (py_del_spec (cache_value_name i) d1) as S2.
  destruct (py_del (cache_value_name i) d1) as [d2|e2]; cbn [rbind]; [|reflexivity].
  destruct S1 as [P1 S1]. destruct S2 as [P2 S2].
  assert (Hk1 : has_key k d1 = false).
  { rewrite S1. destruct (String.eqb k (cache_key_name i)); auto. }
  assert (Hk2 : has_key k d2 = false).
  { rewrite S2. destruct (String.eqb k (cache_value_name i)); auto. }
  destruct Hin as [<-|Hin].
  - exfalso. destruct Hname as [->| ->].
    + congruence.
    + rewrite Hk1 in P2. discriminate.
  - apply (IH d2 k Hk2). eauto.
Qed.

Lemma del_dynamic_axes_present (r : list Z) :
  NoDup r ->
  forall d : json_object (V := V),
  (forall idx, In idx r -> has_key (cache_key_name idx) d = true /\
                           has_key (cache_value_name idx) d = true) ->
  is_ok (del_dynamic_axes r d) = true.
Proof.
  intros Hnd. induction Hnd as [|i r Hni _ IH]; intros d Hall; [reflexivity|].
  cbn [del_dynamic_axes].
  destruct (Hall i (or_introl eq_refl)) as [Hk Hv].
  pose proof (py_del_spec (cache_key_name i) d) as S1.
  destruct (py_del (cache_key_name i) d) as [d1|e1]; cbn [rbind];
    [|destruct S1; congruence].
  destruct S1 as [_ S1].
  assert (Hv1 : has_key (cache_value_name i) d1 = true).
  { rewrite S1. destruct (String.eqb _ _) eqn:E; [|exact Hv].
    apply String.eqb_eq in E. symmetry in E.
    now apply (key_name_not_value "cache.") in E. }
  pose proof (py_del_spec (cache_value_name i) d1) as S2.
  destruct (py_del (cache_value_name i) d1) as [d2|e2]; cbn [rbind];
    [|destruct S2; congruence].
  destruct S2 as [_ S2]. apply IH. intros idx Hin.
  destruct (Hall idx (or_intror Hin)) as [Hk' Hv'].
  assert (Hne : idx <> i) by (intros ->; contradiction).
  rewrite !S2, !S1. split.
  - destruct (String.eqb (cache_key_name idx) (cache_value_name i)) eqn:E1.
    { apply String.eqb_eq in E1. now apply (key_name_not_value "cache.") in E1. }
    destruct (String.eqb (cache_key_name idx) (cache_key_name i)) eqn:E2; [|exact Hk'].
    apply String.eqb_eq in E2. apply (key_name_inj "cache.") in E2. contradiction.
  - destruct (String.eqb (cache_value_name idx) (cache_value_name i)) eqn:E1.
    { apply String.eqb_eq in E1. apply (value_name_inj "cache.") in E1. contradiction. }
    destruct (String.eqb (cache_value_name idx) (cache_key_name i)) eqn:E2; [|exact Hv'].
    apply String.eqb_eq in E2. symmetry in E2.
    now apply (key_name_not_value "cache.") in E2.
Qed.

Lemma NoDup_py_range (a b : Z) : NoDup (py_range a b).
Proof.
  unfold py_range. generalize (seq_NoDup (Z.to_nat (b - a)) 0).
  generalize (seq 0 (Z.to_nat (b - a))). intros l Hl.
  induction Hl as [|x l Hx _ IH]; cbn; constructor; [|exact IH].
  rewrite in_map_iff. intros (y & E & Hy).
  assert (y = x) by lia. now subst.
Qed.
End PruneLemmas.

(** ** Pruning the model components *)

Lemma names_without_pruned (n : Z) (key value : Z -> string) (names : list string) :
  names_pruned n key value names
    (names_without (map value (py_range n 32))
       (names_without (map key (py_range n 32)) names)).
Proof.
  intros x. rewrite !in_names_without, !in_map_iff. split.
  - intros [[Hin Hk] Hv]. split; [exact Hin|]. intros idx Hr.
    apply in_py_range in Hr. split; intros ->; [apply Hk|apply Hv]; eauto.
  - intros [Hin Hall]. repeat split; auto.
    + intros (idx & <- & Hr). apply in_py_range in Hr.
      destruct (Hall idx Hr) as [H1 _]. now apply H1.
    + intros (idx & <- & Hr). apply in_py_range in Hr.
      destruct (Hall idx Hr) as [_ H2]. now apply H2.
Qed.

Section PruneComponents.
Context {V : Type}.

Lemma prune_component_ok (n : Z) (c c' : io_config (V := V)) :
  prune_component n c = Ok c' -> component_pruned n c c'.
Proof.
  unfold prune_component. intros H.
  apply rbind_ok_inv in H as (axes & E & [= <-]). cbn [input_names output_names dynamic_axes].
  split; [apply names_without_pruned|]. split; [apply names_without_pruned|].
  intros k. rewrite (del_dynamic_axes_ok _ _ E k).
  split; intros [Hk Hall]; split; auto; intros idx Hr; apply Hall;
    now apply in_py_range.
Qed.

Lemma prune_component_is_ok (n : Z) (c : io_config (V := V)) :
  is_ok (prune_component n c) = true <-> axes_present n c.
Proof.
  unfold prune_component. rewrite is_ok_rbind. split.
  - intros H idx Hr.
    assert (Hmiss : forall k, has_key k (dynamic_axes c) = false ->
              (k = cache_key_name idx \/ k = cache_value_name idx) -> False).
    { intros k Hk Hname.
      assert (Hf : is_ok (del_dynamic_axes (py_range n 32) (dynamic_axes c)) = false).
      { apply (@del_dynamic_axes_missing V (py_range n 32) (dynamic_axes c) k Hk).
        exists idx. split; [now apply in_py_range|exact Hname]. }
      destruct (del_dynamic_axes (py_range n 32) (dynamic_axes c)); discriminate. }
    destruct (has_key (cache_key_name idx) (dynamic_axes c)) eqn:Ek;
      [|exfalso; eapply Hmiss; eauto].
    destruct (has_key (cache_value_name idx) (dynamic_axes c)) eqn:Ev;
      [auto|exfalso; eapply Hmiss; eauto].
  - intros Hp.
    pose proof (@del_dynamic_axes_present V (py_range n 32) (NoDup_py_range n 32)
                  (dynamic_axes c)) as Hd.
    destruct (del_dynamic_axes (py_range n 32) (dynamic_axes c)); [reflexivity|].
    apply Hd. intros idx Hr. apply Hp. now apply in_py_range.
Qed.

Lemma prune_component_error (n : Z) (c : io_config (V := V)) (e : exn) :
  prune_component n c = Raise e -> e = KeyError.
Proof.
  unfold prune_component. intros H.
  destruct (del_dynamic_axes (py_range n 32) (dynamic_axes c)) as [d|e'] eqn:E;
    cbn [rbind] in H; [discriminate|].
  injection H as <-. eapply del_dynamic_axes_error. exact E.
Qed.

Lemma prune_components_ok (n : Z) (cs : list (io_config (V := V))) :
  forall cs', prune_components n cs = Ok cs' -> Forall2 (component_pruned n) cs cs'.
Proof.
  induction cs as [|c cs IH]; intros cs' H; cbn [prune_components] in H.
  - injection H as <-. constructor.
  - apply rbind_ok_inv in H as (c' & Ec & H).
    apply rbind_ok_inv in H as (rest & Er & [= <-]).
    constructor; [now apply prune_component_ok|now apply IH].
Qed.

Lemma prune_components_is_ok (n : Z) (cs : list (io_config (V := V))) :
  is_ok (prune_components n cs) = true <-> Forall (axes_present n) cs.
Proof.
  induction cs as [|c cs IH]; cbn [prune_components].
  - split; [constructor|reflexivity].
  - rewrite is_ok_rbind.
    pose proof (prune_component_is_ok n c) as Hc.
    destruct (prune_component n c) as [c'|e]; cbn [is_ok] in Hc.
    + rewrite is_ok_rbind.
      destruct (prune_components n cs) as [rest|e]; cbn [is_ok] in IH |- *.
      * split; [intros _; constructor; [now apply Hc|now apply IH]|reflexivity].
      * split; [discriminate|]. intros H. inversion H; subst.
        now apply IH.
    + split; [discriminate|]. intros H. inversion H; subst. now apply Hc.
Qed.

Lemma prune_components_error (n : Z) (cs : list (io_config (V := V))) (e : exn) :
  prune_components n cs = Raise e -> e = KeyError.
Proof.
  induction cs as [|c cs IH]; cbn [prune_components]; [discriminate|].
  destruct (prune_component n c) as [c'|e'] eqn:Ec; cbn [rbind].
  - destruct (prune_components n cs) as [rest|e'']; cbn [rbind]; [discriminate|].
    intros [= <-]. now apply IH.
  - intros [= <-]. eapply prune_component_error. exact Ec.
Qed.
End PruneComponents.

(** ** Operations that succeed on fitting shapes *)

Lemma is_perm_0132 : is_perm 4 [0; 1; 3; 2] = true.
Proof. reflexivity. Qed.

Lemma is_perm_0213 : is_perm 4 [0; 2; 1; 3] = true.
Proof. reflexivity. Qed.

Lemma v_reshape_ok {A} (t : tensor A) (s : list nat) :
  numel s = numel (shape t) -> v_reshape t s = Ok (mkT s (data t)).
Proof. intros H. unfold v_reshape. now rewrite H, Nat.eqb_refl. Qed.

Lemma v_permute4_ok {A} (d : A) (t : tensor A) (a b c e : nat) (p : list nat) :
  shape t = [a; b; c; e] -> is_perm 4 p = true ->
  exists r, v_permute d t p = Ok r /\ shape r = map (dim [a; b; c; e]) p.
Proof.
  intros Hs Hp. unfold v_permute, rank. rewrite Hs. cbn [length]. rewrite Hp.
  eexists. split; reflexivity.
Qed.

Lemma v_transpose_1_2_ok {A} (d : A) (t : tensor A) (a b c e : nat) :
  shape t = [a; b; c; e] ->
  exists r, v_transpose d t 1 2 = Ok r /\ shape r = [a; c; b; e].
Proof.
  intros Hs. unfold v_transpose, v_permute, rank. rewrite Hs. cbn.
  eexists. split; reflexivity.
Qed.

Lemma v_binop_ok {A} (d : A) (f : A -> A -> A) (a b : tensor A) (s : list nat) :
  broadcast_shapes (shape a) (shape b) = Some s ->
  exists r, v_binop d f a b = Ok r /\ shape r = s.
Proof. intros H. unfold v_binop. rewrite H. eexists. split; reflexivity. Qed.

Lemma v_cat_axis2_ok {A} (d : A) (x y : tensor A) (b k L n e : nat) :
  shape x = [b; k; L; e] -> shape y = [b; k; n; e] ->
  exists r, v_cat d x y 2 = Ok r /\ shape r = [b; k; L + n; e].
Proof.
  intros Hx Hy. unfold v_cat. rewrite !list_eqb_length by (rewrite ?Hx, ?Hy; cbn; lia).
  unfold rank. rewrite Hx, Hy. cbn [length norm_dim]. cbn. rewrite list_eqb_refl.
  eexists. split; reflexivity.
Qed.

Lemma v_embedding_ok {A} (d : A) (w : tensor A) (ids : tensor Z) (vocab h : nat) :
  shape w = [vocab; h] -> ids_within 0 (Z.of_nat vocab) ids ->
  exists r, v_embedding d w ids = Ok r /\ shape r = shape ids ++ [h].
Proof.
  intros Hw Hi. unfold v_embedding. rewrite Hw.
  replace (forallb _ (data ids)) with true.
  - eexists. split; reflexivity.
  - symmetry. apply forallb_forall. intros z Hz.
    unfold ids_within in Hi. rewrite Forall_forall in Hi. specialize (Hi z Hz).
    apply andb_true_iff. split; [apply Z.leb_le|apply Z.ltb_lt]; lia.
Qed.

Lemma v_index_rows_ok {A} (d : A) (table : tensor A) (ids : tensor Z)
    (rows : nat) (rest : list nat) :
  shape table = rows :: rest ->
  ids_within (- Z.of_nat rows) (Z.of_nat rows) ids ->
  exists r, v_index_rows d table ids = Ok r /\ shape r = shape ids ++ rest.
Proof.
  intros Hs Hi. unfold v_index_rows. rewrite Hs.
  replace (forallb _ (data ids)) with true.
  - eexists. split; reflexivity.
  - symmetry. apply forallb_forall. intros z Hz.
    unfold ids_within in Hi. rewrite Forall_forall in Hi. specialize (Hi z Hz).
    unfold row_of.
    destruct (0 <=? z)%Z eqn:E0.
    + replace (z <? Z.of_nat rows)%Z with true by (symmetry; apply Z.ltb_lt; lia).
      reflexivity.
    + apply Z.leb_gt in E0. cbn [andb].
      replace (z <? 0)%Z with true by (symmetry; apply Z.ltb_lt; lia).
      replace (- Z.of_nat rows <=? z)%Z with true by (symmetry; apply Z.leb_le; lia).
      reflexivity.
Qed.

Section FloatSuccess.
Context {F : Type} {SF : Scalar F}.

Lemma v_linear3_ok (x w : tensor F) (b n h o : nat) :
  shape x = [b; n; h] -> shape w = [o; h] ->
  exists r, v_linear x w = Ok r /\ shape r = [b; n; o].
Proof.
  intros Hx Hw. unfold v_linear. rewrite Hx, Hw. cbn [rev app].
  rewrite Nat.eqb_refl. eexists. split; reflexivity.
Qed.

Lemma v_mean_last3_ok (x : tensor F) (b n h : nat) :
  shape x = [b; n; h] -> exists r, v_mean_last x = Ok r /\ shape r = [b; n; 1].
Proof.
  intros Hx. unfold v_mean_last. rewrite Hx. cbn [rev app].
  eexists. split; reflexivity.
Qed.

Lemma v_softmax_last4_ok (x : tensor F) (a b c e : nat) :
  shape x = [a; b; c; e] ->
  exists r, v_softmax_last x = Ok r /\ shape r = [a; b; c; e].
Proof.
  intros Hx. unfold v_softmax_last. rewrite Hx. cbn [rev app].
  eexists. split; reflexivity.
Qed.

Lemma v_matmul4_ok (x y : tensor F) (b h n k m : nat) :
  shape x = [b; h; n; k] -> shape y = [b; h; k; m] ->
  exists r, v_matmul x y = Ok r /\ shape r = [b; h; n; m].
Proof.
  intros Hx Hy. unfold v_matmul. rewrite Hx, Hy. cbn [rev app].
  rewrite Nat.eqb_refl. change (rev [h; b]) with [b; h].
  rewrite broadcast_shapes_same. eexists. split; reflexivity.
Qed.
End FloatSuccess.

(** ** Modules that succeed on fitting shapes *)

(** Runs the next operation of the goal with a lemma that says it
    succeeds; [tac] proves the lemma's shape conditions. *)
Ltac ok_with lem tac :=
  let t := fresh "t" in
  let E := fresh "E" in
  let S := fresh "S" in
  edestruct lem as (t & E & S); [tac .. | rewrite E; pure_run].

(** The same, reading the operation off the goal; [tac] proves that it
    succeeds, with the shape of its result. *)
Ltac ok_step tac :=
  match goal with
  | |- exists r, rbind ?m _ = Ok r /\ _ =>
      let t := fresh "t" in
      let E := fresh "E" in
      let S := fresh "S" in
      let s := fresh "s" in
      evar (s : list nat);
      assert (exists t, m = Ok t /\ shape t = s) as (t & E & S);
      [subst s; tac | subst s; rewrite E; pure_run]
  end.

Ltac shapes := cbn [shape tmap]; repeat match goal with
                                  | H : shape _ = _ |- _ => rewrite H
                                  end.

Section ModuleSuccess.
Context {F : Type} {SF : Scalar F}.

Local Abbreviation PT := (PureTorch F).

Lemma Norm_forward_ok (nm : Norm) (x : tensor F) (b n h : nat) :
  norm_width h nm -> shape x = [b; n; h] ->
  exists r, Norm_forward (TT := PT) nm x = Ok r /\ shape r = [b; n; h].
Proof.
  intros Hok Hs. destruct nm as [eps w bias|eps w]; cbn [Norm_forward norm_width] in *.
  - destruct Hok as [Hw Hb].
    unfold LayerNorm_forward, t_mean_last, t_sub, t_map, t_div, t_mul, t_add,
      v_sub, v_div, v_mul, v_add.
    pure_run.
    ok_with (v_mean_last3_ok x) ltac:(exact Hs).
    ok_with (v_binop_ok fzero fsub x t) ltac:(shapes; apply broadcast_keepdim).
    ok_with (v_mean_last3_ok (tmap (fun v => fmul v v) t0)) ltac:(exact S0).
    ok_with (v_binop_ok fzero fdiv t0 (tmap fsqrt (tmap (fun v => fadd v eps) t1)))
      ltac:(shapes; apply broadcast_keepdim).
    ok_with (v_binop_ok fzero fmul w t2) ltac:(shapes; apply broadcast_vector_l).
    ok_with (v_binop_ok fzero fadd t3 bias) ltac:(shapes; apply broadcast_vector_r).
    eauto.
  - unfold RMSNorm_forward, t_to, t_mean_last, t_map, t_mul, v_mul.
    pure_run.
    ok_with (v_mean_last3_ok (tmap (fun v => fmul v v) x)) ltac:(exact Hs).
    ok_with (v_binop_ok fzero fmul x (tmap frsqrt (tmap (fun v => fadd v eps) t)))
      ltac:(shapes; apply broadcast_keepdim).
    ok_with (v_binop_ok fzero fmul w t0) ltac:(shapes; apply broadcast_vector_l).
    eauto.
Qed.

Lemma ProjLayerSiluMatMul_forward_ok (m : ProjLayerSiluMatMul) (x : tensor F)
    (b n hidden inter : nat) :
  linear_fits inter hidden (gate_proj m) -> linear_fits hidden inter (down_proj m) ->
  linear_fits inter hidden (up_proj m) -> shape x = [b; n; hidden] ->
  exists r, ProjLayerSiluMatMul_forward (TT := PT) m x = Ok r /\
            shape r = [b; n; hidden].
Proof.
  unfold linear_fits. intros Hg Hd Hu Hs.
  unfold ProjLayerSiluMatMul_forward, Linear_forward, t_linear, t_map, t_mul, v_mul.
  pure_run.
  ok_with (v_linear3_ok x (lin_weight (gate_proj m))) ltac:(eassumption).
  ok_with (v_binop_ok fzero fmul t (tmap fsigmoid t))
    ltac:(shapes; apply broadcast_shapes_same).
  ok_with (v_linear3_ok x (lin_weight (up_proj m))) ltac:(eassumption).
  ok_with (v_binop_ok fzero fmul t0 t1) ltac:(shapes; apply broadcast_shapes_same).
  ok_with (v_linear3_ok t2 (lin_weight (down_proj m))) ltac:(eassumption).
  eauto.
Qed.

Lemma apply_rope_ok (x cos sin : tensor F) (position_ids : tensor Z)
    (rows w b h n e : nat) :
  shape x = [b; h; n; e] -> shape cos = [rows; w] -> shape sin = [rows; w] ->
  e <= w -> shape position_ids = [b; n] ->
  ids_within (- Z.of_nat rows) (Z.of_nat rows) position_ids ->
  exists r, apply_rope (TT := PT) x cos sin position_ids = Ok r /\
            shape r = [b; h; n; e].
Proof.
  intros Hs Hc Hsn He Hp Hin.
  unfold apply_rope, t_shape, t_slice_axis, t_index_rows, t_unsqueeze, t_mul, t_add,
    v_mul, v_add.
  pure_run. rewrite !Hs, !Hc, !Hsn. cbn [shape_last rev app dim nth]. pure_run.
  rewrite py_slice_prefix by exact He.
  unfold v_slice, rank. rewrite Hc, Hsn. cbn [length Nat.ltb Nat.leb set_nth].
  pure_run. rewrite Nat.sub_0_r.
  ok_step ltac:(eapply v_index_rows_ok; [reflexivity | exact Hin]).
  rewrite Hp in S. cbn [app] in S.
  unfold v_unsqueeze at 1, rank. rewrite S. cbn [length Nat.leb insert_at]. pure_run.
  ok_step ltac:(eapply v_index_rows_ok; [reflexivity | exact Hin]).
  rewrite Hp in S0. cbn [app] in S0.
  unfold v_unsqueeze, rank. rewrite S0. cbn [length Nat.leb insert_at]. pure_run.
  ok_step ltac:(eapply v_binop_ok; shapes; apply broadcast_over_heads).
  ok_step ltac:(eapply rotate_half_ok; exact Hs).
  ok_step ltac:(eapply v_binop_ok; shapes; apply broadcast_over_heads).
  eapply v_binop_ok. shapes. apply broadcast_shapes_same.
Qed.

Lemma v_reshape_shape_ok {A} (t : tensor A) (s : list nat) :
  numel s = numel (shape t) -> exists r, v_reshape t s = Ok r /\ shape r = s.
Proof. intros H. rewrite (v_reshape_ok _ _ H). eexists. split; reflexivity. Qed.

Lemma broadcast_heads_ok (sa : SelfAttention) (key value : tensor F)
    (b heads kv L e : nat) :
  sa_num_heads sa = heads -> sa_num_key_value_heads sa = kv ->
  heads = kv \/ (kv <> 0 /\ heads <> 0 /\ heads = kv * (heads / kv)) ->
  shape key = [b; kv; L; e] -> shape value = [b; kv; L; e] ->
  exists k v, broadcast_heads (TT := PT) sa key value = Ok (k, v) /\
              shape k = [b; heads; L; e] /\ shape v = [b; heads; L; e].
Proof.
  intros Hh Hkv Hd Hk Hv. unfold broadcast_heads. rewrite Hh, Hkv. clear Hh.
  destruct (heads =? kv) eqn:E; cbn [negb].
  - apply Nat.eqb_eq in E. subst heads. exists key, value. pure_run. subst kv. auto.
  - apply Nat.eqb_neq in E. destruct Hd as [Hd|(Hk0 & Hh0 & Hd)]; [contradiction|].
    apply Nat.eqb_neq in Hk0. rewrite Hk0.
    assert (Hn : 1 <= heads / kv).
    { destruct (heads / kv); [rewrite Nat.mul_0_r in Hd; contradiction|lia]. }
    destruct (@broadcast_key_value_value _ _ key (heads / kv) _ _ _ _ Hk Hn)
      as (k & Ek & Sk & _).
    destruct (@broadcast_key_value_value _ _ value (heads / kv) _ _ _ _ Hv Hn)
      as (v & Ev & Sv & _).
    pure_run. rewrite Ek. pure_run. rewrite Ev. pure_run.
    exists k, v. rewrite <- Hd in Sk, Sv. auto.
Qed.

Lemma SelfAttention_forward_ok (sa : SelfAttention) (use_cache : bool)
    (x : tensor F) (position_ids : tensor Z)
    (attn_mask cos sin k_cache v_cache : tensor F)
    (hidden heads kv hd rows w b n L : nat) :
  linear_fits hidden hidden (q_proj sa) ->
  linear_fits (kv * hd) hidden (k_proj sa) ->
  linear_fits (kv * hd) hidden (v_proj sa) ->
  linear_fits hidden hidden (o_proj sa) ->
  sa_hidden_size sa = hidden -> sa_num_heads sa = heads ->
  sa_num_key_value_heads sa = kv -> head_dim sa = hd ->
  heads_fit hidden heads kv hd ->
  shape cos = [rows; w] -> shape sin = [rows; w] -> hd <= w ->
  shape x = [b; n; hidden] -> shape position_ids = [b; n] ->
  ids_within (- Z.of_nat rows) (Z.of_nat rows) position_ids ->
  shape attn_mask = [b; L + n] ->
  shape k_cache = [b; kv; L; hd] -> shape v_cache = [b; kv; L; hd] ->
  (use_cache = false -> 1 <= n) ->
  exists r,
    SelfAttention_forward (TT := PT) sa use_cache x position_ids attn_mask cos sin
      k_cache v_cache = Ok r /\
    (shape (fst (fst r)) = [b; n; hidden] /\
     shape (snd (fst r)) = [b; kv; L + n; hd] /\
     shape (snd r) = [b; kv; L + n; hd]).
Proof.
  unfold linear_fits.
  intros Hq Hk Hv Ho Hsh Hsn Hskv Hshd [Hhid Hdiv] Hc Hs Hw Hx Hp Hin Hm Hkc Hvc Hn.
  unfold SelfAttention_forward, RotaryEmbedding_forward, Linear_forward, t_linear,
    t_shape, t_reshape, t_transpose, t_cat, t_permute, t_matmul, t_map,
    t_softmax_last.
  pure_run. rewrite !Hx. cbn [shape_at nth_error]. pure_run.
  rewrite Hsh, Hsn, Hskv, Hshd.
  ok_step ltac:(eapply v_linear3_ok; eassumption).
  ok_step ltac:(eapply v_linear3_ok; eassumption).
  ok_step ltac:(eapply v_linear3_ok; eassumption).
  ok_step ltac:(eapply v_reshape_shape_ok; rewrite S, Hhid; cbn [numel fold_right]; ring).
  ok_step ltac:(eapply v_transpose_1_2_ok; eassumption).
  ok_step ltac:(eapply v_reshape_shape_ok; rewrite S0; cbn [numel fold_right]; ring).
  ok_step ltac:(eapply v_transpose_1_2_ok; eassumption).
  ok_step ltac:(eapply v_reshape_shape_ok; rewrite S1; cbn [numel fold_right]; ring).
  ok_step ltac:(eapply v_transpose_1_2_ok; eassumption).
  ok_step ltac:(eapply apply_rope_ok; eassumption).
  ok_step ltac:(eapply apply_rope_ok; eassumption).
  ok_step ltac:(eapply v_cat_axis2_ok; eassumption).
  ok_step ltac:(eapply v_cat_axis2_ok; eassumption).
  destruct (@broadcast_heads_ok sa t10 t11 b heads kv (L + n) hd Hsn Hskv Hdiv S10 S11)
    as (k & v & Eb & Sk & Sv).
  rewrite Eb. pure_run.
  ok_step ltac:(eapply v_permute4_ok; [eassumption|reflexivity]).
  cbn [map dim nth] in S12.
  ok_step ltac:(eapply v_matmul4_ok; eassumption).
  rewrite ApplyMask_forward_value with (b := b) (h := heads) (n := n) (m := L + n);
    [|exact Hm|exact S13|intros Hu; specialize (Hn Hu); lia].
  pure_run.
  ok_step ltac:(eapply v_softmax_last4_ok; reflexivity).
  cbn [snd].
  ok_step ltac:(eapply v_matmul4_ok; eassumption).
  ok_step ltac:(eapply v_permute4_ok; [eassumption|reflexivity]).
  cbn [map dim nth] in S16.
  ok_step ltac:(eapply v_reshape_shape_ok; rewrite S16, Hhid; cbn [numel fold_right]; ring).
  ok_step ltac:(eapply v_linear3_ok; eassumption).
  eexists. split; [reflexivity|]. cbn [fst snd]. auto.
Qed.

Lemma TransformerLayer_forward_ok (l : TransformerLayer) (use_cache : bool)
    (x : tensor F) (position_ids : tensor Z) (attn_mask k_cache v_cache : tensor F)
    (hidden heads kv hd inter rows b n L : nat) :
  layer_fits hidden heads kv hd inter rows l -> heads_fit hidden heads kv hd ->
  shape x = [b; n; hidden] -> shape position_ids = [b; n] ->
  ids_within (- Z.of_nat rows) (Z.of_nat rows) position_ids ->
  shape attn_mask = [b; L + n] ->
  shape k_cache = [b; kv; L; hd] -> shape v_cache = [b; kv; L; hd] ->
  (use_cache = false -> 1 <= n) ->
  exists r,
    TransformerLayer_forward (TT := PT) l use_cache x position_ids attn_mask
      k_cache v_cache = Ok r /\
    (shape (fst (fst r)) = [b; n; hidden] /\
     shape (snd (fst r)) = [b; kv; L + n; hd] /\
     shape (snd r) = [b; kv; L + n; hd]).
Proof.
  intros (Hn1 & Hn2 & (w & Hc & Hs & Hw) & Hq & Hk & Hv & Ho & Hsh & Hsn & Hskv &
          Hshd & Hg & Hd & Hu) Hfit Hx Hp Hin Hm Hkc Hvc Hn.
  unfold TransformerLayer_forward, t_add, v_add. pure_run.
  ok_step ltac:(eapply Norm_forward_ok; eassumption).
  destruct (@SelfAttention_forward_ok (self_attn l) use_cache t position_ids attn_mask
              (layer_cos l) (layer_sin l) k_cache v_cache hidden heads kv hd rows w
              b n L Hq Hk Hv Ho Hsh Hsn Hskv Hshd Hfit Hc Hs Hw S Hp Hin Hm Hkc Hvc Hn)
    as ([[a k'] v'] & Ea & Sa & Sk & Sv).
  cbn [fst snd] in Sa, Sk, Sv. rewrite Ea. pure_run.
  ok_step ltac:(eapply v_binop_ok; shapes; apply broadcast_shapes_same).
  ok_step ltac:(eapply Norm_forward_ok; eassumption).
  ok_step ltac:(eapply ProjLayerSiluMatMul_forward_ok; eassumption).
  ok_step ltac:(eapply v_binop_ok; shapes; apply broadcast_shapes_same).
  eexists. split; [reflexivity|]. cbn [fst snd]. auto.
Qed.

Lemma Model_layers_ok (ls : list TransformerLayer) :
  forall (layer_idx : nat) (use_cache : bool) (x : tensor F) (position_ids : tensor Z)
         (attn_mask : tensor F) (cache : list cache_entry)
         (hidden heads kv hd inter rows b n L : nat),
  Forall (layer_fits hidden heads kv hd inter rows) ls ->
  heads_fit hidden heads kv hd ->
  shape x = [b; n; hidden] -> shape position_ids = [b; n] ->
  ids_within (- Z.of_nat rows) (Z.of_nat rows) position_ids ->
  shape attn_mask = [b; L + n] ->
  Forall (cache_fits b kv L hd) cache -> layer_idx + length ls <= length cache ->
  (use_cache = false -> 1 <= n) ->
  exists y ks vs,
    Model_layers (TT := PT) ls layer_idx use_cache x position_ids attn_mask cache
      = Ok (y, ks, vs) /\
    shape y = [b; n; hidden] /\
    length ks = length ls /\ length vs = length ls /\
    Forall (fun t => shape t = [b; kv; L + n; hd]) ks /\
    Forall (fun t => shape t = [b; kv; L + n; hd]) vs.
Proof.
  induction ls as [|l rest IH];
    intros idx uc x pos mask cache hidden heads kv hd inter rows b n L
      Hfit Hh Hx Hp Hin Hm Hc Hlen Hn.
  - exists x, [], []. cbn. repeat split; auto.
  - cbn [Model_layers length] in *.
    destruct (nth_error cache idx) as [c|] eqn:Ec;
      [|apply nth_error_None in Ec; lia].
    assert (Hcf : cache_fits b kv L hd c).
    { rewrite Forall_forall in Hc. apply Hc. eapply nth_error_In; eassumption. }
    destruct Hcf as [Hkc Hvc].
    inversion Hfit as [|? ? Hl Hrest]; subst.
    unfold t_clone, t_detach. pure_run.
    destruct (@TransformerLayer_forward_ok l uc x pos mask (key c) (value c)
                hidden heads kv hd inter rows b n L Hl Hh Hx Hp Hin Hm Hkc Hvc Hn)
      as ([[x' k'] v'] & E & Sx & Sk & Sv).
    cbn [fst snd] in Sx, Sk, Sv. rewrite E. pure_run.
    destruct (IH (S idx) uc x' pos mask cache hidden heads kv hd inter rows b n L
                Hrest Hh Sx Hp Hin Hm Hc ltac:(lia) Hn)
      as (y & ks & vs & E' & Sy & Lk & Lv & Fk & Fv).
    rewrite E'. pure_run.
    exists y, (k' :: ks), (v' :: vs). cbn [length]. repeat split; auto.
Qed.

Lemma interleave_length {T} (ks vs : list T) :
  length ks = length vs -> length (interleave ks vs) = 2 * length ks.
Proof.
  revert vs; induction ks as [|k ks IH]; intros [|v vs]; cbn; try discriminate; auto.
  intros [= H]. rewrite (IH _ H). lia.
Qed.

Lemma interleave_Forall {T} (P : T -> Prop) (ks vs : list T) :
  Forall P ks -> Forall P vs -> Forall P (interleave ks vs).
Proof.
  intros Hk. revert vs. induction Hk as [|k ks Hk _ IH]; intros vs Hv; [constructor|].
  destruct Hv as [|v vs Hv Hvs]; cbn; [constructor|]. auto.
Qed.

Lemma forward_common_ok (dm : DecoderModel) (use_cache : bool)
    (tokens position_ids : tensor Z) (attn_mask : tensor F)
    (cache : list cache_entry)
    (vocab hidden heads kv hd inter rows b n L : nat) :
  model_fits vocab hidden heads kv hd inter rows dm ->
  heads_fit hidden heads kv hd ->
  shape tokens = [b; n] -> ids_within 0 (Z.of_nat vocab) tokens ->
  shape position_ids = [b; n] ->
  ids_within (- Z.of_nat rows) (Z.of_nat rows) position_ids ->
  shape attn_mask = [b; L + n] ->
  Forall (cache_fits b kv L hd) cache ->
  length (layers (model dm)) <= length cache ->
  (use_cache = false -> 1 <= n) ->
  exists logits rest,
    forward_common (TT := PT) dm use_cache tokens position_ids attn_mask cache
      = Ok (logits :: rest) /\
    shape logits = [b; n; vocab] /\
    length rest = 2 * length (layers (model dm)) /\
    Forall (fun t => shape t = [b; kv; L + n; hd]) rest.
Proof.
  intros (He & Hnorm & Hls & Hhead) Hh Ht Htin Hp Hin Hm Hc Hlen Hn.
  unfold forward_common, Model_forward, t_embedding, Linear_forward, t_linear.
  pure_run.
  destruct (@v_embedding_ok F fzero (embed_tokens (model dm)) tokens vocab hidden
              He Htin) as (x & Ex & Sx).
  rewrite Ex. pure_run. rewrite Ht in Sx. cbn [app] in Sx.
  destruct (@Model_layers_ok (layers (model dm)) 0 use_cache x position_ids attn_mask
              cache hidden heads kv hd inter rows b n L Hls Hh Sx Hp Hin Hm Hc
              ltac:(lia) Hn)
    as (y & ks & vs & E & Sy & Lk & Lv & Fk & Fv).
  rewrite E. pure_run.
  destruct (@Norm_forward_ok (norm (model dm)) y b n hidden Hnorm Sy) as (z & Ez & Sz).
  rewrite Ez. pure_run.
  destruct (@v_linear3_ok F SF z (lin_weight (lm_head dm)) b n hidden vocab Sz Hhead)
    as (lg & El & Sl).
  rewrite El. pure_run.
  exists lg, (interleave ks vs). split; [reflexivity|]. split; [exact Sl|]. split.
  - rewrite interleave_length; lia.
  - now apply interleave_Forall.
Qed.
End ModuleSuccess.

(** ** Constructed models fit their configuration *)

Lemma arange2_len_covers (hidden heads : nat) :
  heads <> 0 ->
  hidden / heads <= arange2_len hidden heads + arange2_len hidden heads.
Proof.
  intros Hh. unfold arange2_len.
  destruct (hidden =? 0) eqn:E.
  - apply Nat.eqb_eq in E. subst. rewrite Nat.Div0.div_0_l. lia.
  - apply Nat.eqb_neq in E. apply Nat.Div0.div_le_upper_bound.
    assert (H2 : 2 * heads <> 0) by lia.
    pose proof (Nat.mul_succ_div_gt (hidden - 1) (2 * heads) H2) as Hq.
    set (q := (hidden - 1) / (2 * heads)) in *. nia.
Qed.

Section InitFits.
Context {F : Type} {SF : Scalar F}.
Variable init : list nat -> list nat -> F.

Local Abbreviation PT := (PureTorch F).

Lemma TransformerLayer_init_fits (hidden_size inter num_heads kv : nat)
    (st nt : string) (eps : F) (l : TransformerLayer) :
  TransformerLayer_init (TT := PT) init hidden_size inter num_heads kv st nt eps = Ok l ->
  layer_fits hidden_size num_heads kv (hidden_size / num_heads) inter
    rotary_max_seq_len l.
Proof.
  intros H. unfold TransformerLayer_init in H. cbn [bind PureTorch] in H.
  apply rbind_ok_inv in H as (n1 & E1 & H).
  apply rbind_ok_inv in H as (n2 & E2 & H).
  apply rbind_ok_inv in H as (cs & E3 & H).
  apply rbind_ok_inv in H as (sa & Esa & H).
  apply rbind_ok_inv in H as (m & Em & H).
  cbn in H. injection H as <-.
  unfold layer_fits, linear_fits.
  cbn [input_layernorm post_attention_layernorm layer_cos layer_sin self_attn mlp].
  apply select_norm_width in E1, E2.
  split; [exact E1|]. split; [exact E2|].
  unfold SelfAttention_init in Esa.
  destruct (num_heads =? 0) eqn:Eh; [discriminate|]. apply Nat.eqb_neq in Eh.
  split.
  { destruct (rotary_mat_pure (F := F) hidden_size rotary_max_seq_len Eh)
      as (fr & Hr & Hs & _).
    rewrite Hr in E3. injection E3 as <-. cbn [fst snd shape tmap].
    eexists. split; [exact Hs|]. split; [exact Hs|].
    now apply arange2_len_covers. }
  unfold ProjLayerSiluMatMul_init, Linear_init in Em. pure_run_in Em.
  injection Em as <-.
  unfold Linear_init in Esa. pure_run_in Esa.
  destruct (String.eqb st "HeadDim");
    [|destruct (String.eqb st "SquareRootHeadDim"); [|discriminate]];
    injection Esa as <-; cbn; repeat split; reflexivity.
Qed.

Lemma DecoderModel_init_fits (n_layers vocab hidden_size inter num_heads kv : nat)
    (st nt : string) (eps : F) (dm : DecoderModel) :
  DecoderModel_init (TT := PT) init n_layers vocab hidden_size inter num_heads kv st nt eps
    = Ok dm ->
  model_fits vocab hidden_size num_heads kv (hidden_size / num_heads) inter
    rotary_max_seq_len dm /\
  length (layers (model dm)) = n_layers.
Proof.
  intros Hd.
  destruct (DecoderModel_init_embed_shape _ _ _ _ _ _ _ _ _ _ Hd) as (He & Hl & Hlen & _).
  pose proof (DecoderModel_init_pure init n_layers vocab hidden_size inter num_heads
                kv st nt eps) as Hp.
  rewrite Hd in Hp.
  pose proof (Model_init_pure init n_layers vocab hidden_size inter num_heads
                kv st nt eps) as Hm.
  rewrite Hp in Hm. destruct Hm as (_ & Hn & _ & Hall).
  split; [|exact Hlen].
  unfold model_fits, linear_fits. split; [exact He|].
  split; [eapply select_norm_width; exact Hn|].
  split; [|exact Hl].
  eapply Forall_impl; [|exact Hall].
  intros l Hi. eapply TransformerLayer_init_fits. exact Hi.
Qed.
End InitFits.

(** ** The values of the normalizations *)

Lemma valid_idx3 (a b c : nat) (idx : list nat) :
  valid_idx [a; b; c] idx ->
  exists i j l, idx = [i; j; l] /\ i < a /\ j < b /\ l < c.
Proof.
  destruct idx as [|i [|j [|l [|? ?]]]]; cbn; try tauto.
  intros (Hi & Hj & Hl & _). exists i, j, l. auto.
Qed.

Lemma bidx3 (a b c i j l : nat) :
  bidx [a; b; c] [i; j; l] =
    [if a =? 1 then 0 else i; if b =? 1 then 0 else j; if c =? 1 then 0 else l].
Proof. reflexivity. Qed.

Lemma bidx_vector (h i j l : nat) : bidx [h] [i; j; l] = [if h =? 1 then 0 else l].
Proof. reflexivity. Qed.

Lemma valid_idx3_intro (a b c i j l : nat) :
  i < a -> j < b -> l < c -> valid_idx [a; b; c] [i; j; l].
Proof. cbn. auto. Qed.

Section NormValue.
Context {F : Type} {SF : Scalar F}.

Local Abbreviation PT := (PureTorch F).

Lemma v_mean_last3_value (t : tensor F) (b n h : nat) :
  shape t = [b; n; h] ->
  v_mean_last t =
    Ok (tabulate [b; n; 1] (fun idx =>
          fdiv (fsum (map (fun l => get fzero t [nth 0 idx 0; nth 1 idx 0; l])
                          (seq 0 h)))
               (of_Z (Z.of_nat h)))).
Proof.
  intros Hs. unfold v_mean_last. rewrite Hs. cbn [rev app]. f_equal.
  apply tabulate_ext. intros idx Hv.
  apply valid_idx3 in Hv as (i & j & l & -> & _). reflexivity.
Qed.

Lemma RMSNorm_forward_value (eps : F) (w x : tensor F) (b n h : nat) :
  shape x = [b; n; h] -> wf x -> shape w = [h] ->
  RMSNorm_forward (TT := PT) eps w x =
    Ok (tabulate [b; n; h] (fun idx =>
          rms_norm_entry eps (get fzero w [nth 2 idx 0]) x h
            (nth 0 idx 0) (nth 1 idx 0) (nth 2 idx 0))).
Proof.
  intros Hs Hwf Hw.
  unfold RMSNorm_forward, t_to, t_map, t_mean_last, t_mul, v_mul. pure_run.
  rewrite v_mean_last3_value with (b := b) (n := n) (h := h) by exact Hs.
  pure_run. rewrite !tmap_tabulate.
  unfold v_binop at 1. cbn [shape tabulate]. rewrite Hs, broadcast_keepdim. pure_run.
  unfold v_binop. cbn [shape tabulate]. rewrite Hw, broadcast_vector_l.
  f_equal. apply tabulate_ext. intros idx Hv.
  destruct (valid_idx3 _ _ _ _ Hv) as (i & j & l & -> & Hi & Hj & Hl).
  cbn [nth]. unfold rms_norm_entry, row_mean, frsqrt.
  rewrite bidx_vector, bidx3, !bsel by assumption.
  rewrite get_tabulate by exact Hv.
  rewrite !bidx3, !bsel by assumption. cbn [Nat.eqb].
  rewrite get_tabulate by (apply valid_idx3_intro; lia). cbn [nth].
  rewrite (map_ext_in
             (fun l0 => get fzero (tmap (fun v => fmul v v) x) [i; j; l0])
             (fun l0 => fmul (get fzero x [i; j; l0]) (get fzero x [i; j; l0]))
             (seq 0 h)); [reflexivity|].
  intros l0 Hin. apply in_seq in Hin.
  apply (@get_tmap F F (fun v => fmul v v) fzero fzero x [i; j; l0]); [exact Hwf|].
  rewrite Hs. apply valid_idx3_intro; lia.
Qed.

Lemma v_mean_last3_tabulate (g : list nat -> F) (b n h : nat) :
  v_mean_last (tabulate [b; n; h] g) =
    Ok (tabulate [b; n; 1] (fun idx =>
          fdiv (fsum (map (fun l => g [nth 0 idx 0; nth 1 idx 0; l]) (seq 0 h)))
               (of_Z (Z.of_nat h)))).
Proof.
  rewrite v_mean_last3_value with (b := b) (n := n) (h := h) by reflexivity.
  f_equal. apply tabulate_ext. intros idx Hv.
  destruct (valid_idx3 _ _ _ _ Hv) as (i & j & l & -> & Hi & Hj & Hl).
  cbn [nth].
  rewrite (map_ext_in (fun l0 => get fzero (tabulate [b; n; h] g) [i; j; l0])
             (fun l0 => g [i; j; l0]) (seq 0 h)); [reflexivity|].
  intros l0 Hin. apply in_seq in Hin.
  apply get_tabulate. apply valid_idx3_intro; lia.
Qed.

Lemma v_binop_keepdim (f : F -> F -> F) (a : tensor F) (g : list nat -> F)
    (b n h : nat) :
  shape a = [b; n; h] ->
  v_binop fzero f a (tabulate [b; n; 1] g) =
    Ok (tabulate [b; n; h] (fun idx =>
          f (get fzero a idx) (g [nth 0 idx 0; nth 1 idx 0; 0]))).
Proof.
  intros Hs. unfold v_binop. cbn [shape tabulate]. rewrite Hs, broadcast_keepdim.
  f_equal. apply tabulate_ext. intros idx Hv.
  destruct (valid_idx3 _ _ _ _ Hv) as (i & j & l & -> & Hi & Hj & Hl).
  rewrite !bidx3. cbn [Nat.eqb nth]. rewrite !bsel by assumption.
  rewrite get_tabulate by (apply valid_idx3_intro; lia). reflexivity.
Qed.

Lemma v_binop_vector_l (f : F -> F -> F) (w a : tensor F) (b n h : nat) :
  shape w = [h] -> shape a = [b; n; h] ->
  v_binop fzero f w a =
    Ok (tabulate [b; n; h] (fun idx => f (get fzero w [nth 2 idx 0]) (get fzero a idx))).
Proof.
  intros Hw Hs. unfold v_binop. rewrite Hw, Hs, broadcast_vector_l.
  f_equal. apply tabulate_ext. intros idx Hv.
  destruct (valid_idx3 _ _ _ _ Hv) as (i & j & l & -> & Hi & Hj & Hl).
  rewrite bidx_vector, bidx3. cbn [nth]. rewrite !bsel by assumption. reflexivity.
Qed.

Lemma v_binop_vector_r (f : F -> F -> F) (a w : tensor F) (b n h : nat) :
  shape a = [b; n; h] -> shape w = [h] ->
  v_binop fzero f a w =
    Ok (tabulate [b; n; h] (fun idx => f (get fzero a idx) (get fzero w [nth 2 idx 0]))).
Proof.
  intros Hs Hw. unfold v_binop. rewrite Hw, Hs, broadcast_vector_r.
  f_equal. apply tabulate_ext. intros idx Hv.
  destruct (valid_idx3 _ _ _ _ Hv) as (i & j & l & -> & Hi & Hj & Hl).
  rewrite bidx_vector, bidx3. cbn [nth]. rewrite !bsel by assumption. reflexivity.
Qed.

Lemma LayerNorm_forward_value (eps : F) (w bias x : tensor F) (b n h : nat) :
  shape x = [b; n; h] -> shape w = [h] -> shape bias = [h] ->
  LayerNorm_forward (TT := PT) eps w bias x =
    Ok (tabulate [b; n; h] (fun idx =>
          layer_norm_entry eps (get fzero w [nth 2 idx 0]) (get fzero bias [nth 2 idx 0])
            x h (nth 0 idx 0) (nth 1 idx 0) (nth 2 idx 0))).
Proof.
  intros Hs Hw Hb.
  unfold LayerNorm_forward, t_mean_last, t_sub, t_map, t_div, t_mul, t_add,
    v_sub, v_div, v_mul, v_add.
  pure_run.
  rewrite v_mean_last3_value with (b := b) (n := n) (h := h) by exact Hs.
  pure_run.
  rewrite v_binop_keepdim with (b := b) (n := n) (h := h) by exact Hs. pure_run.
  rewrite !tmap_tabulate, v_mean_last3_tabulate. pure_run.
  rewrite !tmap_tabulate.
  rewrite v_binop_keepdim with (b := b) (n := n) (h := h) by reflexivity. pure_run.
  rewrite v_binop_vector_l with (b := b) (n := n) (h := h) by (exact Hw || reflexivity).
  pure_run.
  rewrite v_binop_vector_r with (b := b) (n := n) (h := h) by (exact Hb || reflexivity).
  f_equal. apply tabulate_ext. intros idx Hv.
  destruct (valid_idx3 _ _ _ _ Hv) as (i & j & l & -> & Hi & Hj & Hl).
  rewrite !get_tabulate by exact Hv.
  cbn [nth]. unfold layer_norm_entry, row_mean.
  reflexivity.
Qed.
End NormValue.

(** * The claims *)

(** ** Construction *)

(** C8 (amended).  Construction of [DecoderModel] ends exactly as
    [construction_error] says, whatever the sizes.  An unrecognised
    normalization kind always raises KeyError during construction.  With
    a recognised normalization kind, an unrecognised score-scale kind
    raises only when the model has at least one layer, since the kind is
    inspected by the constructor of each layer's attention block only:
    ValueError when the number of heads is not zero, and
    ZeroDivisionError when it is zero ([rotary_mat] and the head
    dimension divide by it first); a model without layers is
    constructed.  With recognised kinds construction succeeds exactly
    when there are no layers or the number of heads is not zero, and
    raises ZeroDivisionError otherwise. *)
Theorem C8_construction_outcome {F : Type} {SF : Scalar F}
    (init : list nat -> list nat -> F)
    (n_layers vocab_size hidden_size intermediate_size num_heads
     num_key_value_heads : nat)
    (scale_type normalization_type : string) (epsilon : F) :
  error_of (DecoderModel_init (TT := PureTorch F) init n_layers vocab_size hidden_size
              intermediate_size num_heads num_key_value_heads scale_type
              normalization_type epsilon)
  = construction_error n_layers num_heads scale_type normalization_type.
Proof.
  pose proof (DecoderModel_init_pure init n_layers vocab_size hidden_size
                intermediate_size num_heads num_key_value_heads scale_type
                normalization_type epsilon) as Hd.
  pose proof (Model_init_pure init n_layers vocab_size hidden_size
                intermediate_size num_heads num_key_value_heads scale_type
                normalization_type epsilon) as Hm.
  destruct (DecoderModel_init _ _ _ _ _ _ _ _ _ _) as [dm|e]; rewrite Hd in Hm;
    cbn [error_of].
  - destruct Hm as [Hm _]. now rewrite Hm.
  - now rewrite Hm.
Qed.

(** C8 as stated fails twice: a model without layers is constructed
    although its score-scale kind is not recognised, and a model with
    one layer and zero heads is not constructed although both its kinds
    are recognised. *)
Lemma C8_counterexample :
  (known_scale "Bogus" = false /\
   is_ok (DecoderModel_init (TT := PureTorch R) (fun _ _ => 0%R)
            0 3 2 4 1 1 "Bogus" "rms" (1 / 100000)%R) = true) /\
  (known_scale "HeadDim" = true /\ known_norm "rms" = true /\
   error_of (DecoderModel_init (TT := PureTorch R) (fun _ _ => 0%R)
               1 3 2 4 0 1 "HeadDim" "rms" (1 / 100000)%R)
     = Some ZeroDivisionError).
Proof. repeat split; vm_compute; reflexivity. Qed.

(** C9.  In every constructed model the final normalization carries the
    epsilon 1e-5 whatever epsilon was passed to the constructor, and
    that is the epsilon it computes with: on hidden states of shape
    (b, n, hidden_size) it returns, entry by entry, the entry (less the
    row mean, for "layer_norm") divided by [sqrt (variance + 1e-5)] of
    its row, times the weight 1 (plus the bias 0) it was constructed
    with.  The two normalizations of every layer carry the epsilon that
    was passed. *)
Theorem C9_final_norm_epsilon {F : Type} {SF : Scalar F}
    (init : list nat -> list nat -> F)
    (n_layers vocab_size hidden_size intermediate_size num_heads
     num_key_value_heads : nat)
    (scale_type normalization_type : string) (epsilon : F)
    (dm : DecoderModel (F := F) (T := tensor F)) :
  DecoderModel_init (TT := PureTorch F) init n_layers vocab_size hidden_size
    intermediate_size num_heads num_key_value_heads scale_type
    normalization_type epsilon = Ok dm ->
  norm_eps (norm (model dm)) = f_1e_5 /\
  (forall (x : tensor F) (b n : nat),
     shape x = [b; n; hidden_size] -> wf x ->
     Norm_forward (TT := PureTorch F) (norm (model dm)) x =
       Ok (tabulate [b; n; hidden_size] (fun idx =>
             if String.eqb "layer_norm" normalization_type
             then layer_norm_entry f_1e_5 fone fzero x hidden_size
                    (nth 0 idx 0) (nth 1 idx 0) (nth 2 idx 0)
             else rms_norm_entry f_1e_5 fone x hidden_size
                    (nth 0 idx 0) (nth 1 idx 0) (nth 2 idx 0)))) /\
  length (layers (model dm)) = n_layers /\
  Forall (fun l => norm_eps (input_layernorm l) = epsilon /\
                   norm_eps (post_attention_layernorm l) = epsilon)
         (layers (model dm)).
Proof.
  intros Hd.
  pose proof (DecoderModel_init_pure init n_layers vocab_size hidden_size
                intermediate_size num_heads num_key_value_heads scale_type
                normalization_type epsilon) as Hp.
  rewrite Hd in Hp.
  pose proof (Model_init_pure init n_layers vocab_size hidden_size
                intermediate_size num_heads num_key_value_heads scale_type
                normalization_type epsilon) as Hm.
  rewrite Hp in Hm. destruct Hm as (_ & Hn & Hlen & Hall).
  split; [eapply select_norm_eps; eassumption|].
  split.
  { intros x b n Hs Hwf. rewrite select_norm_pure in Hn.
    assert (Hone : forall l, l < hidden_size ->
              get fzero (v_ones [hidden_size] : tensor F) [l] = fone).
    { intros l Hl. unfold v_ones.
      apply (@get_tabulate F fzero [hidden_size] (fun _ => fone) [l]). cbn. auto. }
    assert (Hzero : forall l, l < hidden_size ->
              get fzero (v_zeros [hidden_size] : tensor F) [l] = fzero).
    { intros l Hl. unfold v_zeros.
      apply (@get_tabulate F fzero [hidden_size] (fun _ => fzero) [l]). cbn. auto. }
    destruct (String.eqb "layer_norm" normalization_type).
    - injection Hn as <-. cbn [Norm_forward].
      rewrite LayerNorm_forward_value with (b := b) (n := n) (h := hidden_size)
        by (exact Hs || reflexivity).
      f_equal. apply tabulate_ext. intros idx Hv.
      destruct (valid_idx3 _ _ _ _ Hv) as (i & j & l & -> & _ & _ & Hl).
      cbn [nth]. now rewrite Hone, Hzero.
    - destruct (String.eqb "rms" normalization_type); [|discriminate].
      injection Hn as <-. cbn [Norm_forward].
      rewrite RMSNorm_forward_value with (b := b) (n := n) (h := hidden_size)
        by (exact Hs || exact Hwf || reflexivity).
      f_equal. apply tabulate_ext. intros idx Hv.
      destruct (valid_idx3 _ _ _ _ Hv) as (i & j & l & -> & _ & _ & Hl).
      cbn [nth]. now rewrite Hone. }
  split; [exact Hlen|].
  eapply Forall_impl; [|exact Hall]. intros l Hl.
  pose proof (TransformerLayer_init_pure init hidden_size intermediate_size
                num_heads num_key_value_heads scale_type normalization_type
                epsilon) as Ht.
  rewrite Hl in Ht. tauto.
Qed.

(** A two-layer model built with epsilon 1/2: the final normalization
    still carries 1e-5, and divides the row (3, 4) by
    [sqrt ((9 + 16) / 2 + 1e-5)]. *)
Lemma C9_witness :
  exists dm,
    DecoderModel_init (TT := PureTorch R) (fun _ _ => 0%R) 2 3 2 4 1 1
      "HeadDim" "rms" (1 / 2)%R = Ok dm /\
    norm_eps (norm (model dm)) = f_1e_5 /\
    length (layers (model dm)) = 2 /\
    Norm_forward (TT := PureTorch R) (norm (model dm)) (mkT [1; 1; 2] [3%R; 4%R]) =
      Ok (tabulate [1; 1; 2] (fun idx =>
            rms_norm_entry f_1e_5 1%R (mkT [1; 1; 2] [3%R; 4%R]) 2
              (nth 0 idx 0) (nth 1 idx 0) (nth 2 idx 0))).
Proof.
  pose proof (DecoderModel_init_succeeds (fun _ _ => 0%R) 2 3 2 4 1 1
                "HeadDim" "rms" (1 / 2)%R eq_refl) as [dm Hd].
  exists dm. split; [exact Hd|].
  pose proof (C9_final_norm_epsilon _ _ _ _ _ _ _ _ _ _ Hd) as (H1 & H2 & H3 & _).
  split; [exact H1|]. split; [exact H3|].
  exact (H2 (mkT [1; 1; 2] [3%R; 4%R]) 1 1 eq_refl eq_refl).
Defined.

(** ** Position ids and the rotary tables *)

(** C10 (amended).  The cosine and sine tables of every layer of a
    constructed model have exactly 4096 rows, and a forward call of a model
    with at least one layer fails when some position id is 4096 or more:
    every successful call of such a model has all its position ids below
    4096. *)
Theorem C10_position_ids_below_4096 {F : Type} {SF : Scalar F}
    (init : list nat -> list nat -> F)
    (n_layers vocab_size hidden_size intermediate_size num_heads
     num_key_value_heads : nat)
    (scale_type normalization_type : string) (epsilon : F)
    (dm : DecoderModel (F := F) (T := tensor F)) :
  DecoderModel_init (TT := PureTorch F) init n_layers vocab_size hidden_size
    intermediate_size num_heads num_key_value_heads scale_type
    normalization_type epsilon = Ok dm ->
  let w := arange2_len hidden_size num_heads + arange2_len hidden_size num_heads in
  Forall (fun l => shape (layer_cos l) = [4096; w] /\ shape (layer_sin l) = [4096; w])
         (layers (model dm)) /\
  forall (use_cache : bool) (tokens position_ids : tensor Z) (attn_mask : tensor F)
         (cache : list cache_entry) (z : Z),
    n_layers <> 0 -> In z (data position_ids) -> (4096 <= z)%Z ->
    is_ok (forward_common (TT := PureTorch F) dm use_cache tokens position_ids
             attn_mask cache) = false.
Proof.
  intros Hd w.
  pose proof (DecoderModel_init_pure init n_layers vocab_size hidden_size
                intermediate_size num_heads num_key_value_heads scale_type
                normalization_type epsilon) as Hp.
  rewrite Hd in Hp.
  pose proof (Model_init_pure init n_layers vocab_size hidden_size
                intermediate_size num_heads num_key_value_heads scale_type
                normalization_type epsilon) as Hm.
  rewrite Hp in Hm. destruct Hm as (Hc & _ & Hlen & Hall).
  assert (Hshapes : Forall (fun l => shape (layer_cos l) = [4096; w] /\
                                     shape (layer_sin l) = [4096; w])
                           (layers (model dm))).
  { eapply Forall_impl; [|exact Hall]. intros l Hl.
    pose proof (TransformerLayer_init_pure init hidden_size intermediate_size
                  num_heads num_key_value_heads scale_type normalization_type
                  epsilon) as Ht.
    rewrite Hl in Ht. destruct Ht as (Hc1 & _ & _ & Hr & _).
    assert (Hh : num_heads <> 0).
    { unfold construction_error in Hc1. destruct (negb _); [discriminate|].
      cbn [Nat.eqb] in Hc1. destruct (num_heads =? 0) eqn:E; [discriminate|].
      now apply Nat.eqb_neq in E. }
    destruct (rotary_mat_pure (F := F) hidden_size rotary_max_seq_len Hh)
      as (fr & Hr' & Hs & _).
    rewrite Hr in Hr'. injection Hr' as -> ->. cbn [shape tmap].
    split; exact Hs. }
  split; [exact Hshapes|].
  intros use_cache tokens position_ids attn_mask cache z Hn Hin Hz.
  destruct (layers (model dm)) as [|l ls] eqn:El; [simpl in Hlen; congruence|].
  inversion Hshapes as [|? ? [Hcos _] _]; subst.
  eapply forward_common_out_of_range; eauto.
  apply row_of_too_large. change (Z.of_nat 4096) with 4096%Z. exact Hz.
Qed.

(** C10 as stated fails: a model without layers never reads its position
    ids, and its forward call returns for the position id 5000. *)
Lemma C10_counterexample :
  exists dm,
    DecoderModel_init (TT := PureTorch R) (fun _ _ => 0%R) 0 3 2 4 1 1
      "HeadDim" "rms" (1 / 100000)%R = Ok dm /\
    is_ok (forward_use_cache (TT := PureTorch R) dm (mkT [1; 1] [0%Z])
             (mkT [1; 1] [5000%Z]) (mkT [1; 1] [1%R]) []) = true.
Proof. eexists. split; vm_compute; reflexivity. Qed.

(** A one-layer model called with the position id 4096. *)
Lemma C10_witness :
  exists dm,
    DecoderModel_init (TT := PureTorch R) (fun _ _ => 0%R) 1 3 2 4 1 1
      "HeadDim" "rms" (1 / 100000)%R = Ok dm /\
    is_ok (forward_use_cache (TT := PureTorch R) dm (mkT [1; 1] [0%Z])
             (mkT [1; 1] [4096%Z]) (mkT [1; 1] [1%R])
             [mkCache (mkT [1; 1; 0; 2] []) (mkT [1; 1; 0; 2] [])]) = false.
Proof.
  destruct (DecoderModel_init_succeeds (fun _ _ => 0%R) 1 3 2 4 1 1
              "HeadDim" "rms" (1 / 100000)%R eq_refl) as [dm Hd].
  exists dm. split; [exact Hd|].
  destruct (C10_position_ids_below_4096 _ _ _ _ _ _ _ _ _ _ Hd) as [_ H].
  apply (H true _ _ _ _ 4096%Z); [discriminate | left; reflexivity | lia].
Defined.

(** ** Growth of the key/value caches *)

(** C3.  In a model whose normalization weights are vectors and whose
    rotary tables are matrices (every constructed model is one), a forward
    call on [n] new positions that returns gives back one key cache and
    one value cache per layer, each equal in shape to the one passed in
    except for the sequence axis, which is longer by exactly [n]; hence a
    cache of sequence length [L] has sequence length [L + N] after [N]
    single-token calls in use-cache mode, each fed the cache the previous
    call returned. *)
Theorem C3_cache_grows_by_new_positions {F : Type} {SF : Scalar F}
    (dm : DecoderModel (F := F) (T := tensor F)) :
  model_shapes_ok dm ->
  (forall (use_cache : bool) (tokens position_ids : tensor Z) (attn_mask : tensor F)
          (cache : list cache_entry) (outs : list (tensor F)) (b n : nat),
     shape tokens = [b; n] -> shape position_ids = [b; n] ->
     Forall cache_4d cache ->
     forward_common (TT := PureTorch F) dm use_cache tokens position_ids attn_mask cache
       = Ok outs ->
     length (next_cache outs) = length (layers (model dm)) /\
     Forall2 (grown n) (firstn (length (layers (model dm))) cache) (next_cache outs)) /\
  (forall (steps : list (tensor Z * tensor Z * tensor F))
          (cache cache' : list cache_entry) (L : nat),
     Forall single_token steps -> Forall (cache_len L) cache ->
     decode_steps (TT := PureTorch F) dm steps cache = Ok cache' ->
     Forall (cache_len (L + length steps)) cache' /\
     (steps <> [] -> length cache' = length (layers (model dm)))).
Proof.
  intros Hok. split.
  - intros use_cache tokens position_ids attn_mask cache outs b n Ht Hp Hc H. split.
    + eapply forward_common_cache_count; eassumption.
    + apply forward_common_caches with (2 := Ht) (3 := Hp) (5 := H); assumption.
  - intros steps cache cache' L Hst Hc H.
    apply decode_steps_len with (3 := Hc) (4 := H); assumption.
Qed.

(** The small model: a no-cache call on two positions, and two
    single-token calls in use-cache mode from the empty cache. *)
Lemma C3_witness :
  (exists outs,
     forward_common (TT := PureTorch R) (loaded_model 8) false
       (mkT [1; 2] [0%Z; 1%Z]) (mkT [1; 2] [0%Z; 1%Z]) (v_ones [1; 2]) empty_cache
       = Ok outs /\
     Forall2 (grown 2) empty_cache (next_cache outs)) /\
  (exists cache',
     decode_steps (TT := PureTorch R) (loaded_model 8)
       [(mkT [1; 1] [0%Z], mkT [1; 1] [0%Z], v_ones [1; 1]);
        (mkT [1; 1] [1%Z], mkT [1; 1] [1%Z], v_ones [1; 2])] empty_cache
       = Ok cache' /\
     Forall (cache_len 2) cache' /\ length cache' = 1).
Proof.
  assert (Hok : model_shapes_ok (loaded_model 8)).
  { repeat constructor. }
  destruct (C3_cache_grows_by_new_positions Hok) as [H1 H2].
  split.
  - destruct (forward_common (TT := PureTorch R) (loaded_model 8) false
                (mkT [1; 2] [0%Z; 1%Z]) (mkT [1; 2] [0%Z; 1%Z]) (v_ones [1; 2])
                empty_cache) as [outs|e] eqn:E.
    + exists outs. split; [reflexivity|].
      assert (Hc : Forall cache_4d empty_cache) by (repeat constructor).
      destruct (H1 false (mkT [1; 2] [0%Z; 1%Z]) (mkT [1; 2] [0%Z; 1%Z])
                  (v_ones [1; 2]) empty_cache outs 1 2 eq_refl eq_refl Hc E) as [_ G].
      exact G.
    + apply (f_equal is_ok) in E. vm_compute in E. discriminate.
  - destruct (decode_steps (TT := PureTorch R) (loaded_model 8)
                [(mkT [1; 1] [0%Z], mkT [1; 1] [0%Z], v_ones [1; 1]);
                 (mkT [1; 1] [1%Z], mkT [1; 1] [1%Z], v_ones [1; 2])] empty_cache)
      as [cache'|e] eqn:E.
    + exists cache'. split; [reflexivity|].
      apply (H2 _ _ _ 0) in E.
      * destruct E as [Ha Hl]. split; [exact Ha|apply Hl; discriminate].
      * repeat constructor; exists 1; split; reflexivity.
      * repeat constructor.
    + apply (f_equal is_ok) in E. vm_compute in E. discriminate.
Defined.

(** ** Grouped-query broadcasting *)

(** C6.  When the number of heads equals the number of key/value heads,
    the grouping step of self-attention returns the key and the value it
    was given, so the attention that follows is the ungrouped one; and
    [broadcast_key_value] with repeat factor 1 returns its (4-D) input
    tensor unchanged. *)
Theorem C6_broadcast_no_op_when_heads_equal {F : Type} {SF : Scalar F}
    (sa : SelfAttention (F := F) (T := tensor F)) :
  (sa_num_heads sa = sa_num_key_value_heads sa ->
   forall key value : tensor F,
     broadcast_heads (TT := PureTorch F) sa key value = Ok (key, value)) /\
  (forall t : tensor F,
     rank t = 4 -> wf t -> broadcast_key_value (TT := PureTorch F) t 1 = Ok t).
Proof.
  split.
  - intros H key value. now apply broadcast_heads_same.
  - intros t H4 Hw. now apply broadcast_key_value_1.
Qed.

(** The attention block of the small model has one head and one
    key/value head. *)
Lemma C6_witness :
  let t := mkT [1; 1; 2; 2] [1%R; 2%R; 3%R; 4%R] in
  broadcast_heads (TT := PureTorch R) (self_attn (loaded_layer 8)) t t = Ok (t, t) /\
  broadcast_key_value (TT := PureTorch R) t 1 = Ok t.
Proof.
  intros t.
  destruct (C6_broadcast_no_op_when_heads_equal (self_attn (loaded_layer 8))) as [H1 H2].
  split.
  - apply H1. reflexivity.
  - apply H2; reflexivity.
Defined.

(** ** The attention bias *)

(** C5.  For a padding mask of shape (batch, total_len) and scores of
    shape (batch, heads, seq_len, total_len), [ApplyMask.forward] returns
    the scores plus a bias that does not depend on the head: entry
    (i, h, q, j) of the bias is the padding term of mask entry (i, j),
    that is [1 - mask] with nonzero values replaced by -10000, to which
    no-cache mode adds the same mapping of row [q] of the last [seq_len]
    rows of the lower-triangular matrix of side total_len; use-cache mode
    adds no causal term. *)
Theorem C5_attention_bias {F : Type} {SF : Scalar F}
    (use_cache : bool) (score attn_mask : tensor F) (b h n m : nat) :
  shape attn_mask = [b; m] -> shape score = [b; h; n; m] ->
  (use_cache = false -> 1 <= n <= m) ->
  exists r,
    ApplyMask_forward (TT := PureTorch F) use_cache score attn_mask n h = Ok r /\
    shape r = [b; h; n; m] /\
    forall i hd q j, i < b -> hd < h -> q < n -> j < m ->
      get fzero r [i; hd; q; j] =
        fadd (get fzero score [i; hd; q; j])
             (if use_cache then padding_bias attn_mask i j
              else fadd (padding_bias attn_mask i j) (causal_bias m n q j)).
Proof.
  intros Hm Hs Hn. eexists. split; [|split].
  - apply ApplyMask_forward_value; eassumption.
  - reflexivity.
  - intros i hd q j Hi Hh Hq Hj.
    rewrite get_tabulate by (now apply valid_idx4_intro). reflexivity.
Qed.

(** No-cache mode on two positions, the second one padded. *)
Lemma C5_witness :
  exists r,
    ApplyMask_forward (TT := PureTorch R) false (v_ones [1; 1; 2; 2])
      (mkT [1; 2] [1%R; 0%R]) 2 1 = Ok r /\
    shape r = [1; 1; 2; 2] /\
    forall i hd q j, i < 1 -> hd < 1 -> q < 2 -> j < 2 ->
      get (fzero : R) r [i; hd; q; j] =
        fadd (get fzero (v_ones [1; 1; 2; 2]) [i; hd; q; j])
             (fadd (padding_bias (mkT [1; 2] [1%R; 0%R]) i j) (causal_bias 2 2 q j)).
Proof.
  apply (@C5_attention_bias R RScalar false (v_ones [1; 1; 2; 2])
           (mkT [1; 2] [1%R; 0%R]) 1 1 2 2).
  - reflexivity.
  - reflexivity.
  - intros _. lia.
Defined.

(** ** The rotary embedding at position 0 *)



(** ** The caller's cache tensors *)

(** C4.  In the store of tensor storages, a forward call that returns
    (in either mode) leaves every tensor that could be read before the
    call with the value it had, the key and the value of every entry of
    the caller's cache among them, and every tensor of the returned
    list, the extended caches included, owns a storage created during
    the call. *)
Theorem C4_forward_leaves_caches_unchanged {F : Type} {SF : Scalar F}
    (dm : DecoderModel (F := F) (T := handle F))
    (use_cache : bool) (tokens position_ids : tensor Z) (attn_mask : handle F)
    (cache : list cache_entry) (s s' : store F) (outs : list (handle F)) :
  forward_common (TT := StoreTorch F) dm use_cache tokens position_ids attn_mask cache s
    = Ok (outs, s') ->
  (forall h v, st_peek h s = Ok (v, s) -> st_peek h s' = Ok (v, s')) /\
  (forall c, In c cache ->
     (forall v, st_peek (key c) s = Ok (v, s) -> st_peek (key c) s' = Ok (v, s')) /\
     (forall v, st_peek (value c) s = Ok (v, s) -> st_peek (value c) s' = Ok (v, s'))) /\
  Forall (owned (length s)) outs.
Proof.
  intros H.
  destruct (frames_forward_common (n := length s) dm use_cache tokens position_ids
              attn_mask cache s (le_n _) H) as (Hl & Hf & Ho).
  rewrite firstn_all in Hf.
  assert (Hs : s' = s ++ skipn (length s) s').
  { rewrite <- Hf at 1. symmetry. apply firstn_skipn. }
  assert (Hp : forall h v, st_peek h s = Ok (v, s) -> st_peek h s' = Ok (v, s')).
  { intros h v Hp. unfold st_peek in *. rewrite Hs at 1.
    destruct (nth_error s (cell h)) as [w|] eqn:E; [|discriminate].
    rewrite nth_error_app1 by (apply nth_error_Some; congruence). rewrite E.
    destruct (lens h) as [f|].
    - destruct (f w); cbn [rbind] in *; [|discriminate]. congruence.
    - congruence. }
  split; [exact Hp|]. split; [intros c _; split; intros v; apply Hp|].
  exact Ho.
Qed.

(** A no-cache call on two positions of the small model whose weights,
    caches and mask live in cells 0 .. 9 of the store: the caller's
    empty key cache, in cell 7, reads as before, and the returned
    tensors live in cells from 10 on. *)
Lemma C4_witness :
  let s := loaded_store 8 ++ [v_ones [1; 2]] in
  exists outs s',
    forward_common (TT := StoreTorch R) loaded_model_refs false
      (mkT [1; 2] [0%Z; 1%Z]) (mkT [1; 2] [0%Z; 1%Z]) (ref 9) empty_cache_refs s
      = Ok (outs, s') /\
    st_peek (ref 7) s' = Ok (mkT [1; 1; 0; 2] [], s') /\
    Forall (owned 10) outs.
Proof.
  intros s.
  destruct (forward_common (TT := StoreTorch R) loaded_model_refs false
              (mkT [1; 2] [0%Z; 1%Z]) (mkT [1; 2] [0%Z; 1%Z]) (ref 9)
              empty_cache_refs s) as [[outs s']|e] eqn:E.
  - exists outs, s'. split; [reflexivity|].
    destruct (@C4_forward_leaves_caches_unchanged R RScalar loaded_model_refs false
                (mkT [1; 2] [0%Z; 1%Z]) (mkT [1; 2] [0%Z; 1%Z]) (ref 9)
                empty_cache_refs s s' outs E) as (_ & H2 & H3).
    split; [|exact H3].
    destruct (H2 (mkCache (ref 7) (ref 8)) (or_introl eq_refl)) as [Hk _].
    apply (Hk (mkT [1; 1; 0; 2] [])). reflexivity.
  - apply (f_equal is_ok) in E. vm_compute in E. discriminate.
Defined.

(** ** The forward call: failures, and the list it returns *)

(** X1.  [torch.nn.Embedding] accepts the token ids 0 .. vocab_size - 1
    only: a forward call of a constructed model, in either mode, raises
    IndexError when some token id is negative or at least vocab_size
    (a negative token id does not count from the end, unlike a negative
    position id). *)
Theorem token_id_out_of_range_raises {F : Type} {SF : Scalar F}
    (init : list nat -> list nat -> F)
    (n_layers vocab_size hidden_size intermediate_size num_heads
     num_key_value_heads : nat)
    (scale_type normalization_type : string) (epsilon : F)
    (dm : DecoderModel (F := F) (T := tensor F))
    (use_cache : bool) (tokens position_ids : tensor Z) (attn_mask : tensor F)
    (cache : list cache_entry) (z : Z) :
  DecoderModel_init (TT := PureTorch F) init n_layers vocab_size hidden_size
    intermediate_size num_heads num_key_value_heads scale_type
    normalization_type epsilon = Ok dm ->
  In z (data tokens) -> (z < 0 \/ Z.of_nat vocab_size <= z)%Z ->
  forward_common (TT := PureTorch F) dm use_cache tokens position_ids attn_mask cache
    = Raise IndexError.
Proof.
  intros Hd Hin Hz.
  destruct (DecoderModel_init_embed_shape _ _ _ _ _ _ _ _ _ _ Hd) as (He & _).
  unfold forward_common, Model_forward, t_embedding. pure_run.
  now rewrite (v_embedding_out_of_range fzero _ _ He Hin Hz).
Qed.

Lemma token_id_out_of_range_raises_witness :
  exists dm,
    DecoderModel_init (TT := PureTorch R) (fun _ _ => 0%R) 0 3 2 4 1 1
      "HeadDim" "rms" (1 / 100000)%R = Ok dm /\
    forward_common (TT := PureTorch R) dm true (mkT [1; 1] [3%Z])
      (mkT [1; 1] [0%Z]) (mkT [1; 1] [1%R]) [] = Raise IndexError.
Proof.
  destruct (DecoderModel_init_succeeds (fun _ _ => 0%R) 0 3 2 4 1 1
              "HeadDim" "rms" (1 / 100000)%R eq_refl) as [dm Hd].
  exists dm. split; [exact Hd|].
  eapply token_id_out_of_range_raises with (z := 3%Z);
    [exact Hd | left; reflexivity | right; cbn; lia].
Defined.

(** X2.  A forward call that returns gives back the logits followed by
    one key cache and one value cache per layer, [1 + 2 * n_layers]
    tensors in all, and it returns only if the caller's cache list has at
    least one entry per layer. *)
Theorem forward_returns_logits_and_caches {F : Type} {SF : Scalar F}
    (dm : DecoderModel (F := F) (T := tensor F))
    (use_cache : bool) (tokens position_ids : tensor Z) (attn_mask : tensor F)
    (cache : list cache_entry) (outs : list (tensor F)) :
  forward_common (TT := PureTorch F) dm use_cache tokens position_ids attn_mask cache
    = Ok outs ->
  length outs = 1 + 2 * length (layers (model dm)) /\
  length (layers (model dm)) <= length cache.
Proof.
  intros H. unfold forward_common, Model_forward in H. cbn [bind PureTorch] in H.
  apply rbind_ok_inv in H as ([[hs ks] vs] & E & H).
  apply rbind_ok_inv in E as (x & _ & E).
  apply rbind_ok_inv in E as ([[x' ks'] vs'] & El & E).
  apply rbind_ok_inv in E as (y & _ & E). cbn in E. injection E as <- <- <-.
  apply rbind_ok_inv in H as (logits & _ & H). cbn in H. injection H as <-.
  pose proof (Model_layers_length _ _ _ _ _ _ _ El) as [Hk Hv].
  apply Model_layers_needs_cache in El.
  split.
  - cbn [length]. rewrite length_interleave by congruence. lia.
  - destruct El as [El| ->]; cbn [length] in *; lia.
Qed.

Lemma forward_returns_logits_and_caches_witness :
  exists outs,
    forward_common (TT := PureTorch R) (loaded_model 8) true
      (mkT [1; 1] [0%Z]) (mkT [1; 1] [0%Z]) (v_ones [1; 1]) empty_cache = Ok outs /\
    length outs = 3.
Proof.
  destruct (forward_common (TT := PureTorch R) (loaded_model 8) true
              (mkT [1; 1] [0%Z]) (mkT [1; 1] [0%Z]) (v_ones [1; 1]) empty_cache)
    as [outs|e] eqn:E.
  - exists outs. split; [reflexivity|].
    apply forward_returns_logits_and_caches in E. destruct E as [G _]. exact G.
  - apply (f_equal is_ok) in E. vm_compute in E. discriminate.
Defined.

(** X3.  The layers read the cache entries 0 .. n_layers - 1 and nothing
    else: entries of the caller's list beyond the number of layers do not
    change the outcome of the call. *)
Theorem forward_ignores_extra_cache_entries {F : Type} {SF : Scalar F}
    (dm : DecoderModel (F := F) (T := tensor F))
    (use_cache : bool) (tokens position_ids : tensor Z) (attn_mask : tensor F)
    (cache : list cache_entry) :
  forward_common (TT := PureTorch F) dm use_cache tokens position_ids attn_mask
    (firstn (length (layers (model dm))) cache)
  = forward_common (TT := PureTorch F) dm use_cache tokens position_ids attn_mask cache.
Proof.
  unfold forward_common, Model_forward. cbn [bind PureTorch].
  destruct (t_embedding (embed_tokens (model dm)) tokens) as [x|e]; cbn [rbind];
    [|reflexivity].
  now rewrite Model_layers_firstn by (cbn; lia).
Qed.

(** X4.  With an empty cache list, a constructed model that has at least
    one layer raises IndexError in either mode: if the token ids pass the
    embedding, the first layer looks up [cache[0]]. *)
Theorem empty_cache_list_raises {F : Type} {SF : Scalar F}
    (init : list nat -> list nat -> F)
    (n_layers vocab_size hidden_size intermediate_size num_heads
     num_key_value_heads : nat)
    (scale_type normalization_type : string) (epsilon : F)
    (dm : DecoderModel (F := F) (T := tensor F))
    (use_cache : bool) (tokens position_ids : tensor Z) (attn_mask : tensor F) :
  DecoderModel_init (TT := PureTorch F) init n_layers vocab_size hidden_size
    intermediate_size num_heads num_key_value_heads scale_type
    normalization_type epsilon = Ok dm ->
  n_layers <> 0 ->
  forward_common (TT := PureTorch F) dm use_cache tokens position_ids attn_mask []
    = Raise IndexError.
Proof.
  intros Hd Hn.
  destruct (DecoderModel_init_embed_shape _ _ _ _ _ _ _ _ _ _ Hd) as (He & _ & Hl & _).
  unfold forward_common, Model_forward, t_embedding. pure_run.
  destruct (v_embedding fzero (embed_tokens (model dm)) tokens) as [x|e] eqn:E;
    cbn [rbind].
  - destruct (layers (model dm)) as [|l ls]; [cbn in Hl; congruence|]. reflexivity.
  - now rewrite (v_embedding_error _ _ _ He E).
Qed.

Lemma empty_cache_list_raises_witness :
  exists dm,
    DecoderModel_init (TT := PureTorch R) (fun _ _ => 0%R) 1 3 2 4 1 1
      "HeadDim" "rms" (1 / 100000)%R = Ok dm /\
    forward_common (TT := PureTorch R) dm false (mkT [1; 1] [0%Z])
      (mkT [1; 1] [0%Z]) (mkT [1; 1] [1%R]) [] = Raise IndexError.
Proof.
  destruct (DecoderModel_init_succeeds (fun _ _ => 0%R) 1 3 2 4 1 1
              "HeadDim" "rms" (1 / 100000)%R eq_refl) as [dm Hd].
  exists dm. split; [exact Hd|].
  eapply empty_cache_list_raises; [exact Hd | discriminate].
Defined.

(** ** The rotary tables and the rotary embedding *)

(** X5.  [rotary_mat] divides by the number of heads: with zero heads it
    raises ZeroDivisionError.  Otherwise it returns a cosine and a sine
    table with one row per position and [2 * ceil(hidden_size / (2 *
    num_heads))] columns, in which the second half of every row repeats
    the first half. *)
Theorem rotary_mat_outcome {F : Type} {SF : Scalar F}
    (hidden_size num_heads max_seq_len : nat) :
  let half := arange2_len hidden_size num_heads in
  match rotary_mat (TT := PureTorch F) hidden_size num_heads max_seq_len with
  | Ok (cos, sin) =>
      num_heads <> 0 /\
      shape cos = [max_seq_len; half + half] /\ shape sin = [max_seq_len; half + half] /\
      wf cos /\ wf sin /\
      forall p j, p < max_seq_len -> j < half ->
        get fzero cos [p; j + half] = get fzero cos [p; j] /\
        get fzero sin [p; j + half] = get fzero sin [p; j]
  | Raise e => num_heads = 0 /\ e = ZeroDivisionError
  end.
Proof.
  intros half. destruct (Nat.eq_dec num_heads 0) as [->|Hh]; [cbn; auto|].
  destruct (rotary_mat_halves (F := F) hidden_size max_seq_len Hh)
    as (fr & Hr & Hs & Hw & Hv).
  rewrite Hr. fold half in Hs, Hv.
  repeat split; auto using wf_tmap.
  - rewrite !(get_tmap fcos fzero fzero) by (rewrite ?Hs; cbn; auto; lia).
    f_equal. now apply Hv.
  - rewrite !(get_tmap fsin fzero fzero) by (rewrite ?Hs; cbn; auto; lia).
    f_equal. now apply Hv.
Qed.

(** X6.  Over the reals, every entry of the tables is a point of the unit
    circle, [cos^2 + sin^2 = 1] (both tables are taken of the same
    angles), and the row of position 0 is all ones in the cosine table
    and all zeros in the sine table. *)
Theorem rotary_tables_unit_circle (hidden_size num_heads max_seq_len : nat)
    (cos sin : tensor R) (p j : nat) :
  rotary_mat (TT := PureTorch R) hidden_size num_heads max_seq_len = Ok (cos, sin) ->
  p < max_seq_len -> j < dim (shape cos) 1 ->
  (get 0 cos [p; j] * get 0 cos [p; j] + get 0 sin [p; j] * get 0 sin [p; j] = 1)%R /\
  (p = 0 -> get 0%R cos [p; j] = 1%R /\ get 0%R sin [p; j] = 0%R).
Proof.
  intros H Hp Hj.
  destruct (rotary_mat_tables _ _ _ H) as (fr & -> & -> & Hs & Hw & H0).
  cbn [shape tmap] in Hj. rewrite Hs in Hj. unfold dim in Hj. cbn [nth] in Hj.
  rewrite !(get_table _ Hs Hw Hp Hj). split.
  - pose proof (sin2_cos2 (get 0%R fr [p; j])) as Hc. unfold Rsqr in Hc. lra.
  - intros ->. rewrite H0 by assumption. split; [apply cos_0|apply sin_0].
Qed.

Lemma rotary_tables_unit_circle_witness :
  exists cos sin,
    rotary_mat (TT := PureTorch R) 4 1 2 = Ok (cos, sin) /\
    let c := get 0%R cos [1; 3] in
    let s := get 0%R sin [1; 3] in
    (c * c + s * s = 1)%R.
Proof.
  destruct (rotary_mat (TT := PureTorch R) 4 1 2) as [[cos sin]|e] eqn:E.
  - exists cos, sin. split; [reflexivity|].
    destruct (rotary_mat_tables _ _ _ E) as (fr & Hc & _ & Hs & _).
    assert (Hj : 3 < dim (shape cos) 1).
    { rewrite Hc. cbn [shape tmap]. rewrite Hs. cbn. lia. }
    assert (Hp : 1 < 2) by lia.
    exact (proj1 (@rotary_tables_unit_circle 4 1 2 cos sin 1 3 E Hp Hj)).
  - apply (f_equal is_ok) in E. vm_compute in E. discriminate.
Defined.

(** X7.  Over the reals, [apply_rope] with the tables of [rotary_mat] and
    every position id equal to 0 returns its input: for a 4-D input
    (batch, heads, positions, head dimension) whose head dimension is at
    most the width of the tables, and position ids of shape (batch,
    positions). *)
Theorem apply_rope_at_position_zero (hidden_size num_heads max_seq_len : nat)
    (cos sin x : tensor R) (position_ids : tensor Z) (b h s e : nat) :
  rotary_mat (TT := PureTorch R) hidden_size num_heads max_seq_len = Ok (cos, sin) ->
  1 <= max_seq_len ->
  shape x = [b; h; s; e] -> wf x -> e <= dim (shape cos) 1 ->
  shape position_ids = [b; s] -> Forall (fun z => z = 0%Z) (data position_ids) ->
  apply_rope (TT := PureTorch R) x cos sin position_ids = Ok x.
Proof.
  intros H Hr Hx Hw He Hp Hz.
  destruct (rotary_mat_tables _ _ _ H) as (fr & -> & -> & Hs & Hwf & H0).
  cbn [shape tmap] in He. rewrite Hs in He. unfold dim in He. cbn [nth] in He.
  eapply apply_rope_at_zero with (rows := max_seq_len); eauto.
  - intros l Hl. rewrite (get_table _ Hs Hwf) by lia. rewrite H0 by lia. apply cos_0.
  - intros l Hl. rewrite (get_table _ Hs Hwf) by lia. rewrite H0 by lia. apply sin_0.
Qed.

Lemma apply_rope_at_position_zero_witness :
  exists cos sin,
    rotary_mat (TT := PureTorch R) 4 1 2 = Ok (cos, sin) /\
    let x := mkT [1; 1; 2; 4] [1%R; 2%R; 3%R; 4%R; 5%R; 6%R; 7%R; 8%R] in
    apply_rope (TT := PureTorch R) x cos sin (mkT [1; 2] [0%Z; 0%Z]) = Ok x.
Proof.
  destruct (rotary_mat (TT := PureTorch R) 4 1 2) as [[cos sin]|e] eqn:E.
  - exists cos, sin. split; [reflexivity|]. intros x.
    destruct (rotary_mat_tables _ _ _ E) as (fr & Hc & _ & Hs & _).
    apply (@apply_rope_at_position_zero 4 1 2 cos sin x (mkT [1; 2] [0%Z; 0%Z]) 1 1 2 4 E).
    + lia.
    + reflexivity.
    + reflexivity.
    + rewrite Hc. cbn [shape tmap]. rewrite Hs. cbn. lia.
    + reflexivity.
    + repeat constructor.
  - apply (f_equal is_ok) in E. vm_compute in E. discriminate.
Defined.

(** ** Repeating key/value heads, rotating halves *)

(** X8.  [broadcast_key_value] repeats every key/value head [n_rep] times
    in place: for a 4-D input of shape (batch, kv_heads, positions, dim)
    and [n_rep >= 1], the result has shape (batch, kv_heads * n_rep,
    positions, dim) and its head [j] is the input's head [j // n_rep], so
    query head [j] attends with key/value head [j // n_rep]. *)
Theorem broadcast_key_value_repeats_heads {F : Type} {SF : Scalar F}
    (t : tensor F) (n_rep b k s e : nat) :
  shape t = [b; k; s; e] -> 1 <= n_rep ->
  exists r,
    broadcast_key_value (TT := PureTorch F) t n_rep = Ok r /\
    shape r = [b; k * n_rep; s; e] /\
    forall i j q l, i < b -> j < k * n_rep -> q < s -> l < e ->
      get fzero r [i; j; q; l] = get fzero t [i; j / n_rep; q; l].
Proof. intros Hs Hn. now apply broadcast_key_value_value. Qed.

Lemma broadcast_key_value_repeats_heads_witness :
  let t := mkT [1; 2; 1; 1] [5%R; 7%R] in
  exists r,
    broadcast_key_value (TT := PureTorch R) t 2 = Ok r /\
    shape r = [1; 4; 1; 1] /\
    forall i j q l, i < 1 -> j < 4 -> q < 1 -> l < 1 ->
      get 0%R r [i; j; q; l] = get 0%R t [i; j / 2; q; l].
Proof.
  intros t.
  apply (@broadcast_key_value_repeats_heads R RScalar t 2 1 2 1 1);
    [reflexivity|lia].
Defined.

(** X9.  [rotate_half] keeps the shape of a 4-D tensor, and when the
    last axis has even length, rotating twice negates every entry:
    [rotate_half(rotate_half(x)) = -x]. *)
Theorem rotate_half_twice_negates {F : Type} {SF : Scalar F}
    (x : tensor F) (a b c e : nat) :
  shape x = [a; b; c; e] -> wf x -> Nat.even e = true ->
  exists r,
    rotate_half (TT := PureTorch F) x = Ok r /\ shape r = [a; b; c; e] /\
    rotate_half (TT := PureTorch F) r = Ok (tmap fneg x).
Proof.
  intros Hs Hw He.
  pose proof (rotate_half_twice Hs Hw He) as H.
  rewrite (@rotate_half_value F SF x a b c e Hs) in *. cbn [rbind] in H.
  eexists. split; [reflexivity|]. split; [reflexivity|exact H].
Qed.

Lemma rotate_half_twice_negates_witness :
  let x := mkT [1; 1; 1; 4] [1%R; 2%R; 3%R; 4%R] in
  exists r,
    rotate_half (TT := PureTorch R) x = Ok r /\ shape r = [1; 1; 1; 4] /\
    rotate_half (TT := PureTorch R) r = Ok (tmap Ropp x).
Proof.
  intros x.
  apply (@rotate_half_twice_negates R RScalar x 1 1 1 4); reflexivity.
Defined.

(** ** What a forward call does to the tensors it is given *)

(** X10.  In the store of tensor storages, a forward call that returns
    (in either mode) has only added storages: every storage that existed
    before the call, the caller's key and value caches among them, holds
    the value it held before, and every tensor of the returned list (the
    logits and the extended caches) owns a storage created during the
    call.  The one in-place operation of the source, [mask_score += ...]
    in [ApplyMask.forward], writes a tensor created just before by
    [masked_fill]. *)
Theorem forward_only_adds_storages {F : Type} {SF : Scalar F}
    (dm : DecoderModel (F := F) (T := handle F))
    (use_cache : bool) (tokens position_ids : tensor Z) (attn_mask : handle F)
    (cache : list cache_entry) (s s' : store F) (outs : list (handle F)) :
  forward_common (TT := StoreTorch F) dm use_cache tokens position_ids attn_mask cache s
    = Ok (outs, s') ->
  (exists added, s' = s ++ added) /\
  (forall h v, st_peek h s = Ok (v, s) -> st_peek h s' = Ok (v, s')) /\
  Forall (owned (length s)) outs.
Proof.
  intros H.
  destruct (frames_forward_common (n := length s) dm use_cache tokens position_ids
              attn_mask cache s (le_n _) H) as (Hl & Hf & Ho).
  rewrite firstn_all in Hf.
  assert (Hs : s' = s ++ skipn (length s) s').
  { rewrite <- Hf at 1. symmetry. apply firstn_skipn. }
  split; [eauto|]. split; [|exact Ho].
  intros h v Hp. unfold st_peek in *. rewrite Hs at 1.
  destruct (nth_error s (cell h)) as [w|] eqn:E; [|discriminate].
  rewrite nth_error_app1 by (apply nth_error_Some; congruence). rewrite E.
  destruct (lens h) as [f|].
  - destruct (f w); cbn [rbind] in *; [|discriminate]. congruence.
  - congruence.
Qed.

(** A no-cache call on two positions of the small model whose weights,
    caches and mask live in cells 0 .. 9 of the store. *)
Lemma forward_only_adds_storages_witness :
  let s := loaded_store 8 ++ [v_ones [1; 2]] in
  exists outs s',
    forward_common (TT := StoreTorch R) loaded_model_refs false
      (mkT [1; 2] [0%Z; 1%Z]) (mkT [1; 2] [0%Z; 1%Z]) (ref 9) empty_cache_refs s
      = Ok (outs, s') /\
    (exists added, s' = s ++ added) /\
    Forall (owned 10) outs.
Proof.
  intros s.
  destruct (forward_common (TT := StoreTorch R) loaded_model_refs false
              (mkT [1; 2] [0%Z; 1%Z]) (mkT [1; 2] [0%Z; 1%Z]) (ref 9)
              empty_cache_refs s) as [[outs s']|e] eqn:E.
  - exists outs, s'. split; [reflexivity|].
    destruct (@forward_only_adds_storages R RScalar loaded_model_refs false
                (mkT [1; 2] [0%Z; 1%Z]) (mkT [1; 2] [0%Z; 1%Z]) (ref 9)
                empty_cache_refs s s' outs E) as (H1 & _ & H3).
    split; [exact H1|exact H3].
  - apply (f_equal is_ok) in E. vm_compute in E. discriminate.
Defined.

(** ** The two calling conventions on one new position *)

(** X11.  Over the reals, for a call on a single new position (tokens and
    position ids of shape (batch, 1)) with a 2-D mask of at least one
    column, the no-cache entry point and the use-cache entry point give
    the same outcome: the last row of the lower-triangular matrix hides
    nothing, so the causal term that only no-cache mode adds is zero
    everywhere.  (Stated for models whose normalization weights are
    vectors and whose rotary tables are matrices, as every constructed
    model, and for 4-D cache entries.) *)
Theorem single_position_modes_coincide
    (dm : DecoderModel (F := R) (T := tensor R))
    (tokens position_ids : tensor Z) (attn_mask : tensor R)
    (cache : list cache_entry) (b b' bm m : nat) :
  model_shapes_ok dm -> shape tokens = [b; 1] -> shape position_ids = [b'; 1] ->
  Forall cache_4d cache -> shape attn_mask = [bm; m] -> 1 <= m ->
  forward_no_cache (TT := PureTorch R) dm tokens position_ids attn_mask cache
  = forward_use_cache (TT := PureTorch R) dm tokens position_ids attn_mask cache.
Proof.
  intros Hok Ht Hp Hc Hm H1. unfold forward_no_cache, forward_use_cache.
  eapply forward_common_single; eassumption.
Qed.

Lemma single_position_modes_coincide_witness :
  forward_no_cache (TT := PureTorch R) (loaded_model 8) (mkT [1; 1] [0%Z])
    (mkT [1; 1] [0%Z]) (v_ones [1; 1]) empty_cache
  = forward_use_cache (TT := PureTorch R) (loaded_model 8) (mkT [1; 1] [0%Z])
      (mkT [1; 1] [0%Z]) (v_ones [1; 1]) empty_cache /\
  is_ok (forward_use_cache (TT := PureTorch R) (loaded_model 8) (mkT [1; 1] [0%Z])
           (mkT [1; 1] [0%Z]) (v_ones [1; 1]) empty_cache) = true.
Proof.
  split.
  - apply (@single_position_modes_coincide (loaded_model 8) (mkT [1; 1] [0%Z])
             (mkT [1; 1] [0%Z]) (v_ones [1; 1]) empty_cache 1 1 1 1).
    + repeat constructor.
    + reflexivity.
    + reflexivity.
    + repeat constructor.
    + reflexivity.
    + lia.
  - vm_compute. reflexivity.
Defined.

(** ** Shapes: the logits, and the head split *)

(** X12.  A forward call on tokens of shape (batch, n) that returns
    gives logits of shape (batch, n, vocab_size): one score per
    vocabulary entry for every input position.  (For a model whose
    output projection has vocab_size rows, whose normalization weights
    are vectors and whose rotary tables are matrices, as constructed;
    position ids of shape (_, n) and 4-D cache entries.) *)
Theorem logits_shape {F : Type} {SF : Scalar F}
    (dm : DecoderModel (F := F) (T := tensor F)) (use_cache : bool)
    (tokens position_ids : tensor Z) (attn_mask : tensor F)
    (cache : list cache_entry) (outs : list (tensor F))
    (b b' n vocab_size hidden_size : nat) :
  model_shapes_ok dm -> norm_ok (norm (model dm)) ->
  shape (lin_weight (lm_head dm)) = [vocab_size; hidden_size] ->
  shape tokens = [b; n] -> shape position_ids = [b'; n] -> Forall cache_4d cache ->
  forward_common (TT := PureTorch F) dm use_cache tokens position_ids attn_mask cache
    = Ok outs ->
  exists logits rest, outs = logits :: rest /\ shape logits = [b; n; vocab_size].
Proof.
  intros Hok Hn Hw Ht Hp Hc H.
  eapply forward_common_logits with (1 := Hok) (2 := Hn) (3 := Hw) (4 := Ht) (5 := Hp);
    eassumption.
Qed.

Lemma logits_shape_witness :
  exists outs,
    forward_common (TT := PureTorch R) (loaded_model 8) false
      (mkT [1; 2] [0%Z; 1%Z]) (mkT [1; 2] [0%Z; 1%Z]) (v_ones [1; 2]) empty_cache
      = Ok outs /\
    exists logits rest, outs = logits :: rest /\ shape logits = [1; 2; 3].
Proof.
  destruct (forward_common (TT := PureTorch R) (loaded_model 8) false
              (mkT [1; 2] [0%Z; 1%Z]) (mkT [1; 2] [0%Z; 1%Z]) (v_ones [1; 2])
              empty_cache) as [outs|e] eqn:E.
  - exists outs. split; [reflexivity|].
    apply (@logits_shape R RScalar (loaded_model 8) false (mkT [1; 2] [0%Z; 1%Z])
             (mkT [1; 2] [0%Z; 1%Z]) (v_ones [1; 2]) empty_cache outs 1 1 2 3 2).
    + repeat constructor.
    + reflexivity.
    + reflexivity.
    + reflexivity.
    + reflexivity.
    + repeat constructor.
    + exact E.
  - apply (f_equal is_ok) in E. vm_compute in E. discriminate.
Defined.

(** X13.  The constructors accept a hidden size that the number of heads
    does not divide ([head_dim] is the rounded-down quotient), but such a
    model with at least one layer cannot run: every forward call on a
    non-empty (batch, n) token tensor fails, at the latest when the first
    layer reshapes the query to (batch, n, num_heads, head_dim). *)
Theorem indivisible_hidden_size_never_runs {F : Type} {SF : Scalar F}
    (init : list nat -> list nat -> F)
    (n_layers vocab_size hidden_size intermediate_size num_heads
     num_key_value_heads : nat)
    (scale_type normalization_type : string) (epsilon : F)
    (dm : DecoderModel (F := F) (T := tensor F))
    (use_cache : bool) (tokens position_ids : tensor Z) (attn_mask : tensor F)
    (cache : list cache_entry) (b n : nat) :
  DecoderModel_init (TT := PureTorch F) init n_layers vocab_size hidden_size
    intermediate_size num_heads num_key_value_heads scale_type
    normalization_type epsilon = Ok dm ->
  n_layers <> 0 -> hidden_size mod num_heads <> 0 ->
  shape tokens = [b; n] -> b <> 0 -> n <> 0 ->
  is_ok (forward_common (TT := PureTorch F) dm use_cache tokens position_ids
           attn_mask cache) = false.
Proof.
  intros Hd Hl Hm Ht Hb Hn.
  destruct (DecoderModel_init_embed_shape _ _ _ _ _ _ _ _ _ _ Hd) as (He & _ & Hlen & _).
  pose proof (DecoderModel_init_pure init n_layers vocab_size hidden_size
                intermediate_size num_heads num_key_value_heads scale_type
                normalization_type epsilon) as Hp.
  rewrite Hd in Hp.
  pose proof (Model_init_pure init n_layers vocab_size hidden_size
                intermediate_size num_heads num_key_value_heads scale_type
                normalization_type epsilon) as Hmi.
  rewrite Hp in Hmi. destruct Hmi as (_ & _ & _ & Hall).
  unfold forward_common, Model_forward. cbn [bind PureTorch].
  unfold t_embedding. pure_run.
  destruct (v_embedding fzero (embed_tokens (model dm)) tokens) as [x|e] eqn:Ex;
    cbn [rbind]; [|reflexivity].
  apply (shape_v_embedding_width _ _ _ He) in Ex. rewrite Ht in Ex. cbn [app] in Ex.
  assert (Hml : is_ok (Model_layers (TT := PureTorch F) (layers (model dm)) 0 use_cache
                         x position_ids attn_mask cache) = false).
  { destruct (layers (model dm)) as [|l ls]; [cbn in Hlen; congruence|].
    inversion Hall as [|? ? Hl0 _]; subst.
    destruct (TransformerLayer_init_dims _ _ _ _ _ _ _ _ Hl0) as (Hw & Hq & Hh & Hhd).
    cbn [Model_layers].
    destruct (nth_error cache 0) as [c|]; [|reflexivity].
    unfold t_clone, t_detach. pure_run. rewrite is_ok_rbind.
    assert (Hne : sa_num_heads (self_attn l) * head_dim (self_attn l) <> hidden_size).
    { rewrite Hh, Hhd. now apply not_divisible. }
    pose proof (@TransformerLayer_forward_head_split F SF l use_cache x position_ids
                  attn_mask (key c) (value c) b n hidden_size Hw Hq Hne Ex Hb Hn) as Hf.
    destruct (TransformerLayer_forward _ _ _ _ _ _ _); [discriminate|reflexivity]. }
  destruct (Model_layers _ _ _ _ _ _ _); [discriminate|reflexivity].
Qed.

Lemma indivisible_hidden_size_never_runs_witness :
  exists dm,
    DecoderModel_init (TT := PureTorch R) (fun _ _ => 0%R) 1 3 3 4 2 2
      "HeadDim" "rms" (1 / 100000)%R = Ok dm /\
    is_ok (forward_common (TT := PureTorch R) dm true (mkT [1; 1] [0%Z])
             (mkT [1; 1] [0%Z]) (mkT [1; 1] [1%R])
             [mkCache (mkT [1; 2; 0; 1] []) (mkT [1; 2; 0; 1] [])]) = false.
Proof.
  destruct (DecoderModel_init_succeeds (fun _ _ => 0%R) 1 3 3 4 2 2
              "HeadDim" "rms" (1 / 100000)%R eq_refl) as [dm Hd].
  exists dm. split; [exact Hd|].
  eapply indivisible_hidden_size_never_runs with (b := 1) (n := 1);
    [exact Hd | discriminate | cbn; discriminate | reflexivity | discriminate
    | discriminate].
Defined.

(** ** Negative position ids *)

(** X14.  Position ids index the rotary tables the way torch indexes: a
    negative id counts from the end of the 4096 rows.  For a constructed
    model and position ids that are all at least -4096, a forward call
    with the ids [p] has the same outcome as the call with every negative
    [p] replaced by [p + 4096]; so the ids -4096 .. -1 are accepted and
    read the rows 0 .. 4095. *)
Theorem negative_position_ids_count_from_the_end {F : Type} {SF : Scalar F}
    (init : list nat -> list nat -> F)
    (n_layers vocab_size hidden_size intermediate_size num_heads
     num_key_value_heads : nat)
    (scale_type normalization_type : string) (epsilon : F)
    (dm : DecoderModel (F := F) (T := tensor F))
    (use_cache : bool) (tokens position_ids : tensor Z) (attn_mask : tensor F)
    (cache : list cache_entry) :
  DecoderModel_init (TT := PureTorch F) init n_layers vocab_size hidden_size
    intermediate_size num_heads num_key_value_heads scale_type
    normalization_type epsilon = Ok dm ->
  Forall (fun z => (-4096 <= z)%Z) (data position_ids) ->
  forward_common (TT := PureTorch F) dm use_cache tokens
    (tmap (wrap_position 4096) position_ids) attn_mask cache
  = forward_common (TT := PureTorch F) dm use_cache tokens position_ids attn_mask cache.
Proof.
  intros Hd Hl.
  pose proof (DecoderModel_init_tables _ _ _ _ _ _ _ _ _ _ Hd) as Ht.
  unfold forward_common, Model_forward. cbn [bind PureTorch].
  apply rbind_ext_l. apply rbind_ext. intros x.
  now rewrite (Model_layers_wrap (rows := 4096)).
Qed.

Lemma negative_position_ids_count_from_the_end_witness :
  exists dm,
    DecoderModel_init (TT := PureTorch R) (fun _ _ => 0%R) 1 3 2 4 1 1
      "HeadDim" "rms" (1 / 100000)%R = Ok dm /\
    forward_common (TT := PureTorch R) dm true (mkT [1; 1] [0%Z])
      (tmap (wrap_position 4096) (mkT [1; 1] [(-1)%Z])) (mkT [1; 1] [1%R])
      [mkCache (mkT [1; 1; 0; 2] []) (mkT [1; 1; 0; 2] [])]
    = forward_common (TT := PureTorch R) dm true (mkT [1; 1] [0%Z])
        (mkT [1; 1] [(-1)%Z]) (mkT [1; 1] [1%R])
        [mkCache (mkT [1; 1; 0; 2] []) (mkT [1; 1; 0; 2] [])].
Proof.
  destruct (DecoderModel_init_succeeds (fun _ _ => 0%R) 1 3 2 4 1 1
              "HeadDim" "rms" (1 / 100000)%R eq_refl) as [dm Hd].
  exists dm. split; [exact Hd|].
  eapply negative_position_ids_count_from_the_end; [exact Hd|].
  repeat constructor. lia.
Defined.

(** ** llm.py: the settings taken from the checkpoint *)

Ltac run_config :=
  unfold set_config_parameters, cbind, getattr, assign, cret, craise, py_or_else in *.

(** X15.  [num_layers or ...] treats a requested layer count of 0 like a
    missing one: the globals end up exactly as without the option, with
    the checkpoint's layer count and strict weight loading.  In general,
    after a successful call strict weight loading is off exactly when a
    nonzero layer count different from the checkpoint's was requested
    (a larger one included). *)
Theorem zero_layers_means_all_layers {F SD : Type}
    (hf : HfConfig (F := F)) (sd : SD) (num_layers : option Z) (c : Config) :
  fst (set_config_parameters hf sd num_layers c) = Ok tt ->
  set_config_parameters hf sd (Some 0%Z) c = set_config_parameters hf sd None c /\
  (num_layers = None \/ num_layers = Some 0%Z ->
   Some (cfg_num_layers (snd (set_config_parameters hf sd num_layers c)))
     = hf_num_hidden_layers hf) /\
  (cfg_strict_weights_loading (snd (set_config_parameters hf sd num_layers c)) = false
   <-> exists z, num_layers = Some z /\ z <> 0%Z /\ Some z <> hf_num_hidden_layers hf).
Proof.
  intros Hok. split; [reflexivity|].
  run_config.
  destruct (hf_hidden_size hf) as [hs|]; [|discriminate].
  destruct (hf_intermediate_size hf) as [im|]; [|discriminate].
  destruct (hf_num_attention_heads hf) as [nh|]; [|discriminate].
  destruct (hf_num_key_value_heads hf) as [nkv|]; [|discriminate].
  destruct (hf_num_hidden_layers hf) as [nl|];
    [|destruct num_layers as [z|]; [destruct (z =? 0)%Z|]; cbn in Hok;
      try discriminate;
      destruct (hf_vocab_size hf); [|discriminate];
      destruct (hf_rms_norm_eps hf); [|destruct (hf_layer_norm_epsilon hf)];
      discriminate].
  assert (Hs : forall z : Z, Some z <> Some nl <-> z <> nl)
    by (intros z; split; [intros H1 H2; apply H1; now f_equal|intros H1 [= H2]; auto]).
  destruct num_layers as [z|]; [destruct (z =? 0)%Z eqn:E0|]; cbn in Hok |- *;
    (destruct (hf_vocab_size hf) as [vs|]; [|discriminate]);
    (destruct (hf_rms_norm_eps hf) as [e1|];
       [|destruct (hf_layer_norm_epsilon hf) as [e2|]; [|discriminate]]);
    cbn in Hok |- *.
  all: split;
    [ intros [H | H]; try discriminate; try reflexivity;
      injection H as ->; discriminate
    | split;
      [ intros H;
        try (rewrite Z.eqb_refl in H; discriminate);
        exists z; apply Z.eqb_neq in E0, H; rewrite Hs; auto
      | intros (z' & Hz & Hz0 & Hh);
        try discriminate;
        injection Hz as <-; try (apply Z.eqb_eq in E0; contradiction);
        apply Z.eqb_neq; now apply Hs ] ].
Qed.

Lemma zero_layers_means_all_layers_witness :
  let hf := mkHf (Some 4096%Z) (Some 11008%Z) (Some 32%Z) (Some 32%Z) (Some 32%Z)
              (Some 32000%Z) (Some (1 / 1000000)%R) None in
  cfg_num_layers (snd (set_config_parameters (SD := unit) hf tt (Some 0%Z)
                         (default_config (1 / 100000)%R))) = 32%Z /\
  (cfg_strict_weights_loading
     (snd (set_config_parameters (SD := unit) hf tt (Some 40%Z)
             (default_config (1 / 100000)%R))) = false).
Proof.
  intros hf. split.
  - assert (H : Some (cfg_num_layers
                        (snd (set_config_parameters (SD := unit) hf tt (Some 0%Z)
                                (default_config (1 / 100000)%R)))) = Some 32%Z).
    { apply (proj1 (proj2 (@zero_layers_means_all_layers R unit hf tt (Some 0%Z)
                             (default_config (1 / 100000)%R) eq_refl))).
      right. reflexivity. }
    exact (f_equal (fun o => match o with Some v => v | None => 0%Z end) H).
  - apply (proj2 (proj2 (@zero_layers_means_all_layers R unit hf tt (Some 40%Z)
                           (default_config (1 / 100000)%R) eq_refl))).
    exists 40%Z. repeat split; discriminate.
Defined.

(** X16.  When the checkpoint's configuration has the six size
    attributes but neither [rms_norm_eps] nor [layer_norm_epsilon], the
    call raises ValueError after it has already overwritten the six size
    settings: these hold the checkpoint's values (the layer count the
    requested one, if nonzero), while the normalization kind, epsilon,
    the state dict and the strict-loading flag are as before the call. *)
Theorem missing_epsilon_leaves_sizes_overwritten {F SD : Type}
    (hf : HfConfig (F := F)) (sd : SD) (num_layers : option Z) (c : Config)
    (hs im nh nkv nl vs : Z) :
  hf_hidden_size hf = Some hs -> hf_intermediate_size hf = Some im ->
  hf_num_attention_heads hf = Some nh -> hf_num_key_value_heads hf = Some nkv ->
  hf_num_hidden_layers hf = Some nl -> hf_vocab_size hf = Some vs ->
  hf_rms_norm_eps hf = None -> hf_layer_norm_epsilon hf = None ->
  let r := set_config_parameters hf sd num_layers c in
  fst r = Raise ValueError /\
  cfg_hidden_size (snd r) = hs /\
  cfg_intermediate_size (snd r) = im /\
  cfg_num_heads (snd r) = nh /\
  cfg_num_key_value_heads (snd r) = nkv /\
  cfg_num_layers (snd r) = py_or num_layers nl /\
  cfg_vocab_size (snd r) = vs /\
  cfg_normalization_type (snd r) = cfg_normalization_type c /\
  cfg_epsilon (snd r) = cfg_epsilon c /\
  cfg_state_dict (snd r) = cfg_state_dict c /\
  cfg_strict_weights_loading (snd r) = cfg_strict_weights_loading c.
Proof.
  intros H1 H2 H3 H4 H5 H6 H7 H8 r. unfold r. run_config.
  rewrite H1, H2, H3, H4, H5, H6, H7, H8.
  destruct num_layers as [z|]; [destruct (z =? 0)%Z eqn:E|]; cbn; rewrite ?E;
    repeat split; reflexivity.
Qed.

Lemma missing_epsilon_leaves_sizes_overwritten_witness :
  let hf := mkHf (Some 768%Z) (Some 3072%Z) (Some 12%Z) (Some 12%Z) (Some 12%Z)
              (Some 50257%Z) None None in
  let r := set_config_parameters (SD := unit) hf tt None (default_config (1 / 100000)%R) in
  fst r = Raise ValueError /\ cfg_hidden_size (snd r) = 768%Z /\
  cfg_normalization_type (snd r) = None.
Proof.
  intros hf r.
  destruct (@missing_epsilon_leaves_sizes_overwritten R unit hf tt None
              (default_config (1 / 100000)%R) 768 3072 12 12 12 50257
              eq_refl eq_refl eq_refl eq_refl eq_refl eq_refl eq_refl eq_refl)
    as (H1 & H2 & _ & _ & _ & _ & _ & H8 & _).
  repeat split; assumption.
Defined.

(** X21.  The six size attributes are read one after the other, each
    assigned before the next is read.  A checkpoint configuration that
    has [hidden_size], [intermediate_size] and [num_attention_heads] but
    no [num_key_value_heads] makes the call raise AttributeError with
    the first three settings already overwritten and every other
    setting, the layer count and the normalization kind and epsilon
    included, as before the call: for such a configuration neither
    epsilon attribute is looked at. *)
Theorem missing_key_value_heads_raises {F SD : Type}
    (hf : HfConfig (F := F)) (sd : SD) (num_layers : option Z) (c : Config)
    (hs im nh : Z) :
  hf_hidden_size hf = Some hs -> hf_intermediate_size hf = Some im ->
  hf_num_attention_heads hf = Some nh -> hf_num_key_value_heads hf = None ->
  let r := set_config_parameters hf sd num_layers c in
  fst r = Raise AttributeError /\
  cfg_hidden_size (snd r) = hs /\
  cfg_intermediate_size (snd r) = im /\
  cfg_num_heads (snd r) = nh /\
  cfg_num_key_value_heads (snd r) = cfg_num_key_value_heads c /\
  cfg_num_layers (snd r) = cfg_num_layers c /\
  cfg_vocab_size (snd r) = cfg_vocab_size c /\
  cfg_normalization_type (snd r) = cfg_normalization_type c /\
  cfg_epsilon (snd r) = cfg_epsilon c /\
  cfg_state_dict (snd r) = cfg_state_dict c /\
  cfg_strict_weights_loading (snd r) = cfg_strict_weights_loading c.
Proof.
  intros H1 H2 H3 H4 r. unfold r. run_config.
  rewrite H1, H2, H3, H4. cbn. repeat split; reflexivity.
Qed.

Lemma missing_key_value_heads_raises_witness :
  let hf := mkHf (Some 768%Z) (Some 3072%Z) (Some 12%Z) None (Some 12%Z)
              (Some 50257%Z) None (Some (1 / 100000)%R) in
  let r := set_config_parameters (SD := unit) hf tt None (default_config (1 / 100000)%R) in
  fst r = Raise AttributeError /\ cfg_hidden_size (snd r) = 768%Z /\
  cfg_num_layers (snd r) = 32%Z /\ cfg_normalization_type (snd r) = None.
Proof.
  intros hf r.
  destruct (@missing_key_value_heads_raises R unit hf tt None
              (default_config (1 / 100000)%R) 768 3072 12
              eq_refl eq_refl eq_refl eq_refl)
    as (H1 & H2 & _ & _ & _ & H6 & _ & H8 & _).
  repeat split; assumption.
Defined.

(** ** llm.py: the cache inputs of the layers left out *)

(** X17.  With 32 or more configured layers the model components are
    left as loaded.  With fewer, a pruning that succeeds keeps of every
    component's input names, output names and dynamic axes exactly those
    that are not the key or value entry of a layer in
    [num_layers .. 31]; in particular the cache inputs and outputs of the
    layers below [num_layers] stay. *)
Theorem pruning_keeps_the_configured_layers {V : Type}
    (num_layers : Z) (cs cs' : list (io_config (V := V))) :
  prune_model_components num_layers cs = Ok cs' ->
  ((32 <= num_layers)%Z -> cs' = cs) /\
  ((num_layers < 32)%Z ->
   Forall2 (fun c c' =>
     component_pruned num_layers c c' /\
     forall idx, (idx < num_layers)%Z ->
       (In (cache_key_name idx) (input_names c) ->
        In (cache_key_name idx) (input_names c')) /\
       (In (cache_value_name idx) (input_names c) ->
        In (cache_value_name idx) (input_names c')) /\
       (In (cache_out_key_name idx) (output_names c) ->
        In (cache_out_key_name idx) (output_names c')) /\
       (In (cache_out_value_name idx) (output_names c) ->
        In (cache_out_value_name idx) (output_names c'))) cs cs').
Proof.
  unfold prune_model_components. intros H. split.
  - intros Hn. apply Z.ltb_ge in Hn. rewrite Hn in H. now injection H.
  - intros Hn. apply Z.ltb_lt in Hn. rewrite Hn in H.
    apply prune_components_ok in H.
    eapply Forall2_impl; [|exact H]. intros c c' Hp. split; [exact Hp|].
    destruct Hp as (Hi & Ho & _). intros idx Hidx.
    repeat split; intros Hin.
    + apply Hi. split; [exact Hin|]. intros j Hj. split; intros E.
      * apply (key_name_inj "cache.") in E. lia.
      * now apply (key_name_not_value "cache.") in E.
    + apply Hi. split; [exact Hin|]. intros j Hj. split; intros E.
      * symmetry in E. now apply (key_name_not_value "cache.") in E.
      * apply (value_name_inj "cache.") in E. lia.
    + apply Ho. split; [exact Hin|]. intros j Hj. split; intros E.
      * apply (key_name_inj "cache_out.") in E. lia.
      * now apply (key_name_not_value "cache_out.") in E.
    + apply Ho. split; [exact Hin|]. intros j Hj. split; intros E.
      * symmetry in E. now apply (key_name_not_value "cache_out.") in E.
      * apply (value_name_inj "cache_out.") in E. lia.
Qed.

(** One component with the caches of layers 0 .. 31, pruned to 30
    layers. *)
Lemma pruning_keeps_the_configured_layers_witness :
  let names := "tokens"%string ::
               flat_map (fun i => [cache_key_name i; cache_value_name i])
                        (py_range 0 32) in
  let axes := map (fun k => (k, tt)) names in
  exists c',
    prune_model_components 30 [mkIo names names axes] = Ok [c'] /\
    In (cache_key_name 29) (input_names c') /\
    ~ In (cache_key_name 30) (input_names c') /\
    ~ In (cache_value_name 31) (input_names c').
Proof.
  intros names axes.
  destruct (prune_model_components 30 [mkIo names names axes]) as [cs'|e] eqn:E.
  - destruct (pruning_keeps_the_configured_layers _ _ E) as [_ H].
    specialize (H ltac:(lia)).
    inversion H as [|c0 c' l0 l' [(Hi & _) Hk] Hrest]; subst.
    inversion Hrest; subst.
    exists c'. split; [reflexivity|]. split; [|split].
    + apply (Hk 29%Z ltac:(lia)). cbn [input_names]. right.
      apply in_flat_map. exists 29%Z. split; [apply in_py_range; lia|now left].
    + intros Hin. apply Hi in Hin. destruct Hin as [_ Hall].
      destruct (Hall 30%Z ltac:(lia)) as [Hne _]. now apply Hne.
    + intros Hin. apply Hi in Hin. destruct Hin as [_ Hall].
      destruct (Hall 31%Z ltac:(lia)) as [_ Hne]. now apply Hne.
  - apply (f_equal is_ok) in E. vm_compute in E. discriminate.
Defined.

(** X18.  The pruning fails exactly when fewer than 32 layers are
    configured and some component lacks the dynamic axes of the key or
    of the value cache of a layer in [num_layers .. 31] ([del] of a
    missing key); the exception is then KeyError. *)
Theorem pruning_fails_on_a_missing_axis {V : Type}
    (num_layers : Z) (cs : list (io_config (V := V))) :
  (is_ok (prune_model_components num_layers cs) = true <->
   ((32 <= num_layers)%Z \/ Forall (axes_present num_layers) cs)) /\
  (forall e, prune_model_components num_layers cs = Raise e -> e = KeyError).
Proof.
  unfold prune_model_components. destruct (num_layers <? 32)%Z eqn:Hn.
  - apply Z.ltb_lt in Hn. split.
    + rewrite prune_components_is_ok. split; [auto|]. intros [H|H]; [lia|exact H].
    + intros e. apply prune_components_error.
  - apply Z.ltb_ge in Hn. split; [cbn; tauto|discriminate].
Qed.

(** ** When a forward call returns *)

(** X19.  A forward call returns, without raising, whenever the weights
    and the inputs fit one configuration: weights of the shapes of a
    model with [hidden = heads * hd] and [heads] equal to, or a multiple
    of, the key/value heads; rotary tables of [rows] rows at least [hd]
    wide; tokens of shape (b, n) with ids in [0, vocab); position ids of
    shape (b, n) in [-rows, rows); a mask of shape (b, L + n); a cache
    entry of shape (b, kv, L, hd) for every layer; and, without cache,
    at least one token.  It then returns logits of shape (b, n, vocab)
    followed by two tensors per layer of shape (b, kv, L + n, hd). *)
Theorem forward_returns_on_fitting_inputs {F : Type} {SF : Scalar F}
    (dm : DecoderModel (F := F) (T := tensor F)) (use_cache : bool)
    (tokens position_ids : tensor Z) (attn_mask : tensor F)
    (cache : list cache_entry)
    (vocab hidden heads kv hd inter rows b n L : nat) :
  model_fits vocab hidden heads kv hd inter rows dm ->
  heads_fit hidden heads kv hd ->
  shape tokens = [b; n] -> ids_within 0 (Z.of_nat vocab) tokens ->
  shape position_ids = [b; n] ->
  ids_within (- Z.of_nat rows) (Z.of_nat rows) position_ids ->
  shape attn_mask = [b; L + n] ->
  Forall (cache_fits b kv L hd) cache ->
  length (layers (model dm)) <= length cache ->
  (use_cache = false -> 1 <= n) ->
  exists logits rest,
    forward_common (TT := PureTorch F) dm use_cache tokens position_ids attn_mask
      cache = Ok (logits :: rest) /\
    shape logits = [b; n; vocab] /\
    length rest = 2 * length (layers (model dm)) /\
    Forall (fun t => shape t = [b; kv; L + n; hd]) rest.
Proof.
  intros Hfit Hh Ht Htin Hp Hin Hm Hc Hlen Hn.
  eapply forward_common_ok; eassumption.
Qed.

Lemma forward_returns_on_fitting_inputs_witness :
  exists logits rest,
    forward_common (TT := PureTorch R) (loaded_model 8) false
      (mkT [1; 2] [0%Z; 2%Z]) (mkT [1; 2] [(-8)%Z; 7%Z]) (v_ones [1; 2]) empty_cache
      = Ok (logits :: rest) /\
    shape logits = [1; 2; 3] /\
    length rest = 2 * length (layers (model (loaded_model 8))) /\
    Forall (fun t => shape t = [1; 1; 0 + 2; 2]) rest.
Proof.
  apply (@forward_returns_on_fitting_inputs R RScalar (loaded_model 8) false
           (mkT [1; 2] [0%Z; 2%Z]) (mkT [1; 2] [(-8)%Z; 7%Z]) (v_ones [1; 2])
           empty_cache 3 2 1 1 2 4 8 1 2 0).
  - split; [reflexivity|]. split; [reflexivity|]. split; [|reflexivity].
    constructor; [|constructor].
    split; [reflexivity|]. split; [reflexivity|].
    split; [exists 2; split; [reflexivity|split; [reflexivity|lia]]|].
    repeat split; reflexivity.
  - split; [reflexivity|left; reflexivity].
  - reflexivity.
  - repeat constructor; cbn; lia.
  - reflexivity.
  - repeat constructor; cbn; lia.
  - reflexivity.
  - repeat constructor.
  - cbn. lia.
  - intros _. lia.
Defined.

(** X20.  A model that the constructor built runs: when the number of
    heads divides the hidden size and is the number of key/value heads
    or a multiple of it, a forward call on tokens of shape (b, n) with
    ids in [0, vocab_size), position ids of shape (b, n) in
    [-4096, 4096), a mask of shape (b, L + n) and one cache entry of
    shape (b, num_key_value_heads, L, hidden_size / num_heads) per layer
    returns logits of shape (b, n, vocab_size) and two grown cache
    tensors per layer.  (Without cache, n is at least 1.) *)
Theorem constructed_model_runs {F : Type} {SF : Scalar F}
    (init : list nat -> list nat -> F)
    (n_layers vocab_size hidden_size intermediate_size num_heads
     num_key_value_heads : nat)
    (scale_type normalization_type : string) (epsilon : F)
    (dm : DecoderModel (F := F) (T := tensor F))
    (use_cache : bool) (tokens position_ids : tensor Z) (attn_mask : tensor F)
    (cache : list cache_entry) (b n L : nat) :
  DecoderModel_init (TT := PureTorch F) init n_layers vocab_size hidden_size
    intermediate_size num_heads num_key_value_heads scale_type
    normalization_type epsilon = Ok dm ->
  num_heads <> 0 -> hidden_size mod num_heads = 0 ->
  num_heads = num_key_value_heads \/
    (num_key_value_heads <> 0 /\ num_heads mod num_key_value_heads = 0) ->
  shape tokens = [b; n] -> ids_within 0 (Z.of_nat vocab_size) tokens ->
  shape position_ids = [b; n] ->
  ids_within (- Z.of_nat rotary_max_seq_len) (Z.of_nat rotary_max_seq_len)
    position_ids ->
  shape attn_mask = [b; L + n] ->
  Forall (cache_fits b num_key_value_heads L (hidden_size / num_heads)) cache ->
  n_layers <= length cache ->
  (use_cache = false -> 1 <= n) ->
  exists logits rest,
    forward_common (TT := PureTorch F) dm use_cache tokens position_ids attn_mask
      cache = Ok (logits :: rest) /\
    shape logits = [b; n; vocab_size] /\
    length rest = 2 * n_layers /\
    Forall (fun t => shape t =
                       [b; num_key_value_heads; L + n; hidden_size / num_heads]) rest.
Proof.
  intros Hd Hh Hdiv Hkv Ht Htin Hp Hin Hm Hc Hlen Hn.
  destruct (DecoderModel_init_fits _ _ _ _ _ _ _ _ _ _ Hd) as [Hfit Hl].
  rewrite <- Hl in Hlen |- *.
  eapply forward_common_ok; try eassumption.
  split.
  - apply Nat.Div0.div_exact. exact Hdiv.
  - destruct Hkv as [Hkv|[Hk0 Hkv]]; [left; exact Hkv|right].
    repeat split; auto. apply Nat.Div0.div_exact. exact Hkv.
Qed.

Lemma constructed_model_runs_witness :
  exists dm,
    DecoderModel_init (TT := PureTorch R) (fun _ _ => 0%R) 1 3 2 4 1 1
      "HeadDim" "rms" (1 / 100000)%R = Ok dm /\
    exists logits rest,
      forward_common (TT := PureTorch R) dm true (mkT [1; 1] [2%Z])
        (mkT [1; 1] [(-1)%Z]) (mkT [1; 0 + 1] [1%R])
        [mkCache (mkT [1; 1; 0; 2 / 1] []) (mkT [1; 1; 0; 2 / 1] [])]
        = Ok (logits :: rest) /\
      shape logits = [1; 1; 3] /\
      length rest = 2 * 1 /\
      Forall (fun t => shape t = [1; 1; 0 + 1; 2 / 1]) rest.
Proof.
  destruct (DecoderModel_init_succeeds (fun _ _ => 0%R) 1 3 2 4 1 1
              "HeadDim" "rms" (1 / 100000)%R eq_refl) as [dm Hd].
  exists dm. split; [exact Hd|].
  apply (@constructed_model_runs R RScalar (fun _ _ => 0%R) 1 3 2 4 1 1
           "HeadDim" "rms" (1 / 100000)%R dm true (mkT [1; 1] [2%Z])
           (mkT [1; 1] [(-1)%Z]) (mkT [1; 0 + 1] [1%R])
           [mkCache (mkT [1; 1; 0; 2 / 1] []) (mkT [1; 1; 0; 2 / 1] [])] 1 1 0).
  - exact Hd.
  - lia.
  - reflexivity.
  - left; reflexivity.
  - reflexivity.
  - repeat constructor; cbn; lia.
  - reflexivity.
  - repeat constructor; cbn; lia.
  - reflexivity.
  - repeat constructor.
  - cbn. lia.
  - discriminate.
Defined.
